(** * darkroom-simulator: the colour engine of [src/utils/colorLogic.ts]

    A shallow embedding of [calculateDelta], [formatValue], [clamp] and
    [processImageBuffer].  JavaScript numbers are IEEE-754 binary64 values,
    embedded as Rocq's primitive [float]; a [Uint8ClampedArray] is a list of
    samples in [Z] living in a heap of buffers, so that the aliasing of the
    source and destination arguments is part of the model.

    The file has the definitions first (the built-ins of the language, the
    heap, the functions of [colorLogic.ts], the notions the statements use,
    the state and the render pass of the application), then the facts about
    the loop and about binary64 arithmetic and the statements about the
    engine, and the application around the engine last. *)

From Stdlib Require Import ZArith QArith Floats Uint63 Lia Bool.
From stdpp Require Import gmap list.

Set Warnings "-inexact-float".

(** ** JavaScript numbers and the built-ins the engine calls

    [Math.min], [Math.max], [Math.round] and the conversions ToNumber and
    ToUint8Clamp follow their definitions in ECMA-262. *)

Module JS.

Local Open Scope float_scope.

Abbreviation number := float.

(** A language value as far as the engine meets one: reading a typed array
    outside its bounds yields [undefined]. *)
Inductive value : Type :=
  | VUndefined
  | VNumber (n : number).

(** ToNumber: [undefined] becomes NaN. *)
Definition ToNumber (v : value) : number :=
  match v with
  | VUndefined => nan
  | VNumber n => n
  end.

(** The number of an 8-bit sample (exact for every [0 <= z < 2^53]). *)
Definition ofSample (z : Z) : number := PrimFloat.of_uint63 (Uint63.of_Z z).

Definition isNegZero (x : number) : bool :=
  PrimFloat.is_zero x && PrimFloat.get_sign x.

(** Math.min on two arguments: NaN if either is NaN, and -0 below +0. *)
Definition mathMin (a b : number) : number :=
  if is_nan a || is_nan b then nan
  else if a <? b then a
  else if b <? a then b
  else if isNegZero a then a else b.

(** Math.max on two arguments: NaN if either is NaN, and +0 above -0. *)
Definition mathMax (a b : number) : number :=
  if is_nan a || is_nan b then nan
  else if a <? b then b
  else if b <? a then a
  else if isNegZero a then b else a.

(** The exact value [num / den] of the magnitude [m * 2^e] of a finite float. *)
Definition ratio (m : positive) (e : Z) : Z * Z :=
  if (0 <=? e)%Z then (Z.pos m * 2 ^ e, 1)%Z else (Z.pos m, 2 ^ (- e))%Z.

(** Nearest integer to [num / den], a tie going to the even neighbour. *)
Definition roundHalfEven (num den : Z) : Z :=
  let f := (num / den)%Z in
  match (2 * (num mod den) ?= den)%Z with
  | Lt => f
  | Gt => (f + 1)%Z
  | Eq => if Z.even f then f else (f + 1)%Z
  end.

(** ToUint8Clamp, the conversion of a store into a [Uint8ClampedArray]:
    NaN gives 0, the mathematical value is clamped between 0 and 255 and then
    rounded to the nearest integer, a tie going to the even one. *)
Definition ToUint8Clamp (v : number) : Z :=
  match Prim2SF v with
  | S754_nan => 0
  | S754_zero _ => 0
  | S754_infinity s => if s then 0 else 255
  | S754_finite s m e =>
      if s then 0
      else
        let '(num, den) := ratio m e in
        if (255 * den <=? num)%Z then 255 else roundHalfEven num den
  end%Z.

(** Nearest integer to [num / den] for a positive [num / den], a tie going
    towards plus infinity. *)
Definition roundHalfUp (num den : Z) : Z :=
  (if den <=? 2 * (num mod den) then num / den + 1 else num / den)%Z.

(** Nearest integer to [- (num / den)], a tie going towards plus infinity;
    the result is the magnitude of that integer. *)
Definition roundHalfUpNeg (num den : Z) : Z :=
  (if den <? 2 * (num mod den) then num / den + 1 else num / den)%Z.

(** Math.round: a number that is not finite or is integral is returned as it
    is; otherwise the closest integral number, the one closer to plus infinity
    on a tie, with -0 for a result in [[-0.5, 0)]. *)
Definition mathRound (x : number) : number :=
  match Prim2SF x with
  | S754_finite s m e =>
      let '(num, den) := ratio m e in
      if (num mod den =? 0)%Z then x
      else if s then
        let n := roundHalfUpNeg num den in
        if (n =? 0)%Z then neg_zero else - ofSample n
      else ofSample (roundHalfUp num den)
  | _ => x
  end.

End JS.

(** ** The heap of typed arrays *)

Module Heap.

Import JS.

(** A buffer reference names a [Uint8ClampedArray]; two parameters of a
    function alias when they hold the same reference. *)
Abbreviation ref := nat (only parsing).
Abbreviation heap := (gmap nat (list Z)).

(** [a.length] *)
Definition lengthOf (h : heap) (a : ref) : nat :=
  match h !! a with
  | Some l => length l
  | None => 0
  end.

(** [a[i]] as an expression: the sample as a number, or [undefined] outside
    the bounds. *)
Definition getIndex (h : heap) (a : ref) (i : nat) : value :=
  match h !! a with
  | Some l =>
      match l !! i with
      | Some z => VNumber (ofSample z)
      | None => VUndefined
      end
  | None => VUndefined
  end.

(** [a[i] = v]: the value is converted by ToNumber and ToUint8Clamp; a store
    outside the bounds is ignored. *)
Definition setIndex (h : heap) (a : ref) (i : nat) (v : value) : heap :=
  alter (λ l, <[i := ToUint8Clamp (ToNumber v)]> l) a h.

(** The sample [a[i]] of a heap, if there is one. *)
Definition sampleAt (h : heap) (a : ref) (i : nat) : option Z :=
  h !! a ≫= (λ l, l !! i).

End Heap.

(** ** [src/utils/colorLogic.ts] *)

Module ColorLogic.

Import JS Heap.
Local Open Scope float_scope.

Record CMYValues : Type := mkCMY { c : number; m : number; y : number }.

Definition calculateDelta (initial target : CMYValues) : CMYValues :=
  {| c := target.(c) - initial.(c);
     m := target.(m) - initial.(m);
     y := target.(y) - initial.(y) |}.

Definition formatValue (val : number) : number := mathRound (val * 10) / 10.

Definition clamp (val : number) : number := mathMax 0 (mathMin 255 val).

Definition STRENGTH : number := 1.8.
Definition XTALK : number := 0.15.

Definition gainB (delta : CMYValues) : number := delta.(y) * STRENGTH.
Definition gainG (delta : CMYValues) : number := delta.(m) * STRENGTH.
Definition gainR (delta : CMYValues) : number := delta.(c) * STRENGTH.

(** The three mixing expressions of the loop body, before clamping. *)
Definition newR (delta : CMYValues) (r : number) : number :=
  r + gainR delta - (gainG delta * XTALK) - (gainB delta * XTALK).
Definition newG (delta : CMYValues) (g : number) : number :=
  g + gainG delta - (gainR delta * XTALK) - (gainB delta * XTALK).
Definition newB (delta : CMYValues) (b : number) : number :=
  b + gainB delta - (gainR delta * XTALK) - (gainG delta * XTALK).

(** One pass of the loop body at offset [i]. *)
Definition pixelStep (source destination : ref) (delta : CMYValues)
    (i : nat) (h : heap) : heap :=
  let r := ToNumber (getIndex h source i) in
  let g := ToNumber (getIndex h source (i + 1)) in
  let b := ToNumber (getIndex h source (i + 2)) in
  let h := setIndex h destination i (VNumber (clamp (newR delta r))) in
  let h := setIndex h destination (i + 1) (VNumber (clamp (newG delta g))) in
  let h := setIndex h destination (i + 2) (VNumber (clamp (newB delta b))) in
  setIndex h destination (i + 3) (getIndex h source (i + 3)).

(** [for (let i = ...; i < source.length; i += 4) { ... }], at most [fuel]
    iterations. *)
Fixpoint pixelLoop (fuel : nat) (source destination : ref)
    (delta : CMYValues) (i : nat) (h : heap) : heap :=
  match fuel with
  | O => h
  | S fuel' =>
      if (i <? lengthOf h source)%nat
      then pixelLoop fuel' source destination delta (i + 4)
             (pixelStep source destination delta i h)
      else h
  end.

(** The loop starts at 0 and advances by 4, so [source.length] iterations
    are more than it can make (see [pixelLoop_fuel]). *)
Definition processImageBuffer (source destination : ref) (delta : CMYValues)
    (h : heap) : heap :=
  pixelLoop (lengthOf h source) source destination delta 0 h.

(** The render pass of [applyFilter] in the application: a fresh zero-filled
    buffer of the size of the original, [processImageBuffer] from the
    original into it, and the new buffer as the result. *)
Definition transform (P : list Z) (delta : CMYValues) : list Z :=
  let h : heap := {[ 0%nat := P; 1%nat := replicate (length P) 0%Z ]} in
  default [] (processImageBuffer 0 1 delta h !! 1%nat).

End ColorLogic.

(** ** What one pass writes, as a function of the source samples *)

Module PassSpec.

Import JS Heap ColorLogic.

(** The number read at [P[j]]: NaN outside the bounds. *)
Definition sampleNum (P : list Z) (j : nat) : number :=
  ToNumber (match P !! j with
            | Some z => VNumber (ofSample z)
            | None => VUndefined
            end).

(** The sample stored for the red, green and blue channel and for alpha of
    the pixel at offset [i]. *)
Definition outR (P : list Z) (delta : CMYValues) (i : nat) : Z :=
  ToUint8Clamp (clamp (newR delta (sampleNum P i))).
Definition outG (P : list Z) (delta : CMYValues) (i : nat) : Z :=
  ToUint8Clamp (clamp (newG delta (sampleNum P (i + 1)))).
Definition outB (P : list Z) (delta : CMYValues) (i : nat) : Z :=
  ToUint8Clamp (clamp (newB delta (sampleNum P (i + 2)))).
Definition outA (P : list Z) (i : nat) : Z :=
  ToUint8Clamp (sampleNum P (i + 3)).

(** The loop body on a destination that is not the source. *)
Definition stepList (P : list Z) (delta : CMYValues) (i : nat)
    (D : list Z) : list Z :=
  <[i + 3 := outA P i]>
    (<[i + 2 := outB P delta i]>
       (<[i + 1 := outG P delta i]> (<[i := outR P delta i]> D))).

(** The loop on a destination that is not the source. *)
Fixpoint listLoop (fuel : nat) (P : list Z) (delta : CMYValues) (i : nat)
    (D : list Z) : list Z :=
  match fuel with
  | O => D
  | S fuel' =>
      if (i <? length P)%nat
      then listLoop fuel' P delta (i + 4) (stepList P delta i D)
      else D
  end.

(** The sample stored [ch] places after the pixel offset [i]. *)
Definition outAt (P : list Z) (delta : CMYValues) (i ch : nat) : Z :=
  match ch with
  | 0 => outR P delta i
  | 1 => outG P delta i
  | 2 => outB P delta i
  | _ => outA P i
  end.

(** The delta with twice the filtration of [d] on every channel. *)
Definition double (d : CMYValues) : CMYValues :=
  {| c := (2 * d.(c))%float; m := (2 * d.(m))%float; y := (2 * d.(y))%float |}.

(** An 8-bit sample. *)
Definition u8 (z : Z) : Prop := (0 <= z <= 255)%Z.

(** The exact value of a finite number. *)
Definition exactQ (x : number) : option Q :=
  match Prim2SF x with
  | S754_zero _ => Some 0%Q
  | S754_finite s m e =>
      let '(num, den) := ratio m e in
      Some (Qmake (if s then - num else num) (Z.to_pos den))
  | _ => None
  end.

(** The mantissa of 255 as a number: [255 = mantissa255 * 2^-45]. *)
Definition mantissa255 : positive := 8972014882652160.

(** [z] is an integer nearest to [q]. *)
Definition nearestInt (q : Q) (z : Z) : Prop :=
  (q - (1 # 2) <= inject_Z z)%Q ∧ (inject_Z z <= q + (1 # 2))%Q.

(** [z] is the integer nearest to [q], the even one of two equally near. *)
Definition halfEven (q : Q) (z : Z) : Prop :=
  nearestInt q z
  ∧ ((q - (1 # 2) == inject_Z z)%Q ∨ (inject_Z z == q + (1 # 2))%Q →
     Z.even z = true).

(** [n] is the integer nearest to [q], the upper one of two equally near. *)
Definition halfUp (q : Q) (n : Z) : Prop :=
  (q - (1 # 2) < inject_Z n)%Q ∧ (inject_Z n <= q + (1 # 2))%Q.

(** The mixing expression whose clamped value is stored [ch] places after
    the pixel offset [i], for the three colour channels. *)
Definition mixAt (P : list Z) (delta : CMYValues) (i ch : nat) : number :=
  match ch with
  | 0 => newR delta (sampleNum P i)
  | 1 => newG delta (sampleNum P (i + 1))
  | _ => newB delta (sampleNum P (i + 2))
  end.

(** A sample strictly inside the range, neither 0 nor 255. *)
Definition strictlyInside (z : Z) : Prop := (0 < z < 255)%Z.

(** Before clamping, green is above the source and red and blue are below. *)
Definition crosstalkSign (d : CMYValues) (r g b : Z) : Prop :=
  (ofSample g <? newG d (ofSample g))%float = true
  ∧ (newR d (ofSample r) <? ofSample r)%float = true
  ∧ (newB d (ofSample b) <? ofSample b)%float = true.

(** The least magenta change the crosstalk signs are proved for: [2^-38],
    about 3.6e-12 filtration units. *)
Definition magentaThreshold : number := 0x1p-38%float.

(** [f] is plus infinity or a positive number of at least [2^n]. *)
Definition atLeastPow2 (n : Z) (f : spec_float) : Prop :=
  f = S754_infinity false
  ∨ ∃ (m : positive) (e : Z),
      f = S754_finite false m e ∧ (n < Z.pos (digits2_pos m) + e)%Z.

(** The number of a sample strictly inside the range is positive, with a
    value from 1 up to, not including, 256. *)
Definition insideShape (z : Z) : bool :=
  match Prim2SF (ofSample z) with
  | S754_finite false m e =>
      (0 <? Z.pos (digits2_pos m) + e)%Z && (Z.pos (digits2_pos m) + e <=? 8)%Z
  | _ => false
  end.

(** A heap for the examples: the grey pixel of the documented scenario as
    buffer 0 and a fresh buffer of the same size as buffer 1. *)
Definition greyHeap : heap :=
  {[ 0%nat := [128; 128; 128; 255]%Z; 1%nat := [0; 0; 0; 0]%Z ]}.

End PassSpec.

(** ** The application: [src/App.tsx] and [src/components/FilterChannel.tsx]

    The state of the [App] component and its handlers, the handlers of a
    [FilterChannel], the sizing of an uploaded image and the render pass
    [applyFilter] over the heap of buffers. *)

Module App.

Import JS Heap ColorLogic.
Local Open Scope float_scope.

(** [keyof CMYValues] *)
Inductive key : Type := Kc | Km | Ky.

(** [v[key]] *)
Definition getKey (v : CMYValues) (k : key) : number :=
  match k with
  | Kc => v.(c)
  | Km => v.(m)
  | Ky => v.(y)
  end.

(** [{ ...prev, [key]: x }] *)
Definition setKey (prev : CMYValues) (k : key) (x : number) : CMYValues :=
  match k with
  | Kc => {| c := x; m := prev.(m); y := prev.(y) |}
  | Km => {| c := prev.(c); m := x; y := prev.(y) |}
  | Ky => {| c := prev.(c); m := prev.(m); y := x |}
  end.

(** The [useState] cells of the component that the handlers write. *)
Record AppState : Type := mkApp {
  initialCMY : CMYValues;
  targetCMY : CMYValues;
  isInitialLocked : bool;
  showOriginal : bool
}.

(** The state of the first render. *)
Definition initialState : AppState :=
  {| initialCMY := mkCMY 0 50 50;
     targetCMY := mkCMY 0 50 50;
     isInitialLocked := true;
     showOriginal := false |}.

Definition updateInitial (k : key) (val : number) (st : AppState) : AppState :=
  let newVal := mathMax 0 (mathMin 200 val) in
  {| initialCMY := setKey st.(initialCMY) k newVal;
     targetCMY := setKey st.(targetCMY) k newVal;
     isInitialLocked := st.(isInitialLocked);
     showOriginal := st.(showOriginal) |}.

Definition updateTarget (k : key) (val : number) (st : AppState) : AppState :=
  {| initialCMY := st.(initialCMY);
     targetCMY := setKey st.(targetCMY) k (mathMax 0 (mathMin 200 val));
     isInitialLocked := st.(isInitialLocked);
     showOriginal := st.(showOriginal) |}.

Definition resetTarget (st : AppState) : AppState :=
  {| initialCMY := st.(initialCMY);
     targetCMY := st.(initialCMY);
     isInitialLocked := st.(isInitialLocked);
     showOriginal := st.(showOriginal) |}.

Definition setIsInitialLocked (b : bool) (st : AppState) : AppState :=
  {| initialCMY := st.(initialCMY);
     targetCMY := st.(targetCMY);
     isInitialLocked := b;
     showOriginal := st.(showOriginal) |}.

Definition setShowOriginal (b : bool) (st : AppState) : AppState :=
  {| initialCMY := st.(initialCMY);
     targetCMY := st.(targetCMY);
     isInitialLocked := st.(isInitialLocked);
     showOriginal := b |}.

(** [const delta = calculateDelta(initialCMY, targetCMY)] of a render. *)
Definition delta (st : AppState) : CMYValues :=
  calculateDelta st.(initialCMY) st.(targetCMY).

(** *** [FilterChannel]: the two buttons and the slider

    [onChange] is the callback of the props, here a state update. *)
Definition handleIncrement (isLocked : bool) (value : number)
    (onChange : number → AppState → AppState) : AppState → AppState :=
  if negb isLocked then onChange (value + 1) else id.

Definition handleDecrement (isLocked : bool) (value : number)
    (onChange : number → AppState → AppState) : AppState → AppState :=
  if negb isLocked then onChange (value - 1) else id.

(** [v] is [Number(e.target.value)]. *)
Definition handleSliderChange (isLocked : bool) (v : number)
    (onChange : number → AppState → AppState) : AppState → AppState :=
  if negb isLocked then onChange v else id.

(** The [value] and [onChange] props that [App] gives the channel [k]; it
    gives no [isLocked], which is then [false]. *)
Definition channelValue (st : AppState) (k : key) : number :=
  if st.(isInitialLocked) then getKey st.(targetCMY) k
  else getKey st.(initialCMY) k.

Definition channelOnChange (st : AppState) (k : key) (v : number)
    : AppState → AppState :=
  if st.(isInitialLocked) then updateTarget k v else updateInitial k v.

(** What the user can do to the state. *)
Inductive event : Type :=
  | PressPlus (k : key)
  | PressMinus (k : key)
  | Slide (k : key) (v : number)
  | ClickSetBase
  | ClickAdjustColor
  | ClickReset
  | HoldCompare
  | ReleaseCompare
  | ImageLoaded.

(** The state after an event; the reset button exists only while the base is
    locked. *)
Definition handle (st : AppState) (ev : event) : AppState :=
  match ev with
  | PressPlus k =>
      handleIncrement false (channelValue st k) (channelOnChange st k) st
  | PressMinus k =>
      handleDecrement false (channelValue st k) (channelOnChange st k) st
  | Slide k v => handleSliderChange false v (channelOnChange st k) st
  | ClickSetBase => setIsInitialLocked false st
  | ClickAdjustColor => setIsInitialLocked true st
  | ClickReset => if st.(isInitialLocked) then resetTarget st else st
  | HoldCompare => setShowOriginal true st
  | ReleaseCompare => setShowOriginal false st
  | ImageLoaded => setIsInitialLocked false st
  end.

Definition run (st : AppState) (evs : list event) : AppState :=
  fold_left handle evs st.

(** *** The sizing of an uploaded image *)

Definition MAX_SIZE : number := 1200.

(** The [width] and [height] given to the canvas for an image of the given
    size. *)
Definition fitDimensions (imgWidth imgHeight : number) : number * number :=
  let width := imgWidth in
  let height := imgHeight in
  if height <? width then
    if MAX_SIZE <? width
    then (MAX_SIZE, height * (MAX_SIZE / width))
    else (width, height)
  else
    if MAX_SIZE <? height
    then (width * (MAX_SIZE / height), MAX_SIZE)
    else (width, height).

(** *** The canvas and [applyFilter] *)

Record ImageData : Type := mkImageData {
  width : nat;
  height : nat;
  data : ref
}.

(** The heap of buffers, [originalImageDataRef.current] and the pixels the
    canvas shows. *)
Record Stage : Type := mkStage {
  buffers : heap;
  originalImageDataRef : option ImageData;
  canvasPixels : list Z
}.

(** [ctx.createImageData(w, h)]: a new buffer of [4 * w * h] zeros. *)
Definition createImageData (w h : nat) (hp : heap) : heap * ImageData :=
  let r := fresh (dom hp) in
  (<[r := replicate (4 * w * h) 0%Z]> hp,
   {| width := w; height := h; data := r |}).

(** [ctx.putImageData(img, 0, 0)] on a canvas of the size of [img]. *)
Definition putImageData (img : ImageData) (hp : heap) : list Z :=
  default [] (hp !! img.(data)).

(** The canvas and its context exist from the first render on, so the guard
    of [applyFilter] is the test of [originalImageDataRef.current]. *)
Definition applyFilter (showOriginal : bool) (delta : CMYValues)
    (sg : Stage) : Stage :=
  match sg.(originalImageDataRef) with
  | None => sg
  | Some originalData =>
      if showOriginal then
        {| buffers := sg.(buffers);
           originalImageDataRef := sg.(originalImageDataRef);
           canvasPixels := putImageData originalData sg.(buffers) |}
      else
        let '(hp, outputImage) :=
          createImageData originalData.(width) originalData.(height)
            sg.(buffers) in
        let hp :=
          processImageBuffer originalData.(data) outputImage.(data) delta hp in
        {| buffers := hp;
           originalImageDataRef := sg.(originalImageDataRef);
           canvasPixels := putImageData outputImage hp |}
  end.

(** The render of a state: [applyFilter] with the [delta] and the
    [showOriginal] of that state. *)
Definition render (st : AppState) (sg : Stage) : Stage :=
  applyFilter st.(showOriginal) (delta st) sg.

(** An [ImageData] owns a buffer of four samples a pixel. *)
Definition wellFormed (hp : heap) (img : ImageData) : Prop :=
  ∃ P, hp !! img.(data) = Some P ∧ length P = (4 * img.(width) * img.(height))%nat.

End App.

(** ** The notions the statements about the application use *)

Module AppSpec.

Import JS Heap ColorLogic App.
Local Open Scope float_scope.

(** A setting within the limits of a filter channel. *)
Definition inRange200 (x : number) : Prop :=
  (0 <=? x) = true ∧ (x <=? 200) = true.

(** Every base and every target setting of a state has the property. *)
Definition allSettings (holds : number → Prop) (st : AppState) : Prop :=
  ∀ k, holds (getKey st.(initialCMY) k) ∧ holds (getKey st.(targetCMY) k).

Definition settingsInRange : AppState → Prop := allSettings inRange200.

(** An event whose slider value, if it has one, is a number. *)
Definition numeric (ev : event) : Prop :=
  match ev with
  | Slide _ v => is_nan v = false
  | _ => True
  end.

(** The positions of the slider ([min="0" max="200" step="0.5"]): position
    [n] is the number [n / 2]. *)
Definition half (n : Z) : number := ofSample n / 2.

Definition onGrid (x : number) : Prop := ∃ n, (0 <= n <= 400)%Z ∧ x = half n.

Definition settingsOnGrid : AppState → Prop := allSettings onGrid.

(** An event whose slider value, if it has one, is a position of the
    slider. *)
Definition gridEvent (ev : event) : Prop :=
  match ev with
  | Slide _ v => onGrid v
  | _ => True
  end.

(** The number [z / 2] for an integer of either sign. *)
Definition halfZ (z : Z) : number :=
  if (z <? 0)%Z then - (ofSample (- z) / 2) else ofSample z / 2.

(** The events that neither unlock the base nor load an image. *)
Definition keepsLock (ev : event) : bool :=
  match ev with
  | ClickSetBase | ImageLoaded => false
  | _ => true
  end.

(** A sequence of renders, each with its [showOriginal] and its delta. *)
Definition renders (rs : list (bool * CMYValues)) (sg : Stage) : Stage :=
  fold_left (λ sg r, applyFilter r.1 r.2 sg) rs sg.

(** What the two buttons and the slider do at position [n]. *)
Definition gridStep (n : Z) : bool :=
  Leibniz.eqb (mathMax 0 (mathMin 200 (half n + 1)))
              (half (Z.min (n + 2) 400))
  && Leibniz.eqb (mathMax 0 (mathMin 200 (half n - 1)))
                 (half (Z.max (n - 2) 0))
  && Leibniz.eqb (mathMax 0 (mathMin 200 (half n))) (half n)
  && Bool.eqb (half n <=? 199) (n <=? 398)%Z
  && Bool.eqb (1 <=? half n) (2 <=? n)%Z.

(** The difference of two positions. *)
Definition gridPair (i j : Z) : bool :=
  Leibniz.eqb (half j - half i) (halfZ (j - i)).

(** The displayed value of a difference of [z] half units, its sign and its
    size against the threshold of the crosstalk signs. *)
Definition gridDelta (z : Z) : bool :=
  Leibniz.eqb (formatValue (halfZ z)) (halfZ z)
  && Bool.eqb (0 <? halfZ z) (0 <? z)%Z
  && (if (0 <? z)%Z then PassSpec.magentaThreshold <=? halfZ z else true).

(** The integers from [lo], [n] of them. *)
Fixpoint zrange (lo : Z) (n : nat) : list Z :=
  match n with
  | O => []
  | S n' => lo :: zrange (lo + 1) n'
  end.

(** The buffer [L] holds the samples of [P] from offset [i] on. *)
Definition agreesFrom (P : list Z) (i : nat) (L : list Z) : Prop :=
  length L = length P ∧ ∀ j, i ≤ j → L !! j = P !! j.

End AppSpec.

(** ** The notions the statements about repeated passes and about the
    display helper use *)

Module Saturation.

Import JS Heap ColorLogic PassSpec.






End Saturation.

Module Dyadic.

(** The value of a finite number in units of [2^-1200], an integer. *)
Definition scaled (f : spec_float) : Z :=
  match f with
  | S754_finite s m e => cond_Zopp s (Z.pos m * 2 ^ (e + 1200))
  | _ => 0
  end%Z.

End Dyadic.

Import JS Heap ColorLogic PassSpec.

(** ** The heap: stores change one buffer and no length *)

Section HeapFacts.

Implicit Types (h : heap) (a b : ref) (i j : nat) (v : value).

Lemma setIndex_other h a b i v :
  a ≠ b → setIndex h a i v !! b = h !! b.
Proof. intros Hne. unfold setIndex. by rewrite lookup_alter_ne. Qed.

Lemma setIndex_same h a i v (l : list Z) :
  h !! a = Some l →
  setIndex h a i v !! a = Some (<[i := ToUint8Clamp (ToNumber v)]> l).
Proof. intros Hl. unfold setIndex. by rewrite lookup_alter_eq, Hl. Qed.

Lemma lengthOf_setIndex h a b i v :
  lengthOf (setIndex h a i v) b = lengthOf h b.
Proof.
  unfold lengthOf, setIndex. destruct (decide (a = b)) as [->|Hne].
  - rewrite lookup_alter_eq. destruct (h !! b); simpl; [apply length_insert | done].
  - by rewrite lookup_alter_ne.
Qed.

Lemma getIndex_lookup h a i (l : list Z) :
  h !! a = Some l → ToNumber (getIndex h a i) = sampleNum l i.
Proof. intros Hl. unfold getIndex, sampleNum. by rewrite Hl. Qed.

Lemma sampleAt_lookup h a i (l : list Z) :
  h !! a = Some l → sampleAt h a i = l !! i.
Proof. intros Hl. unfold sampleAt. by rewrite Hl. Qed.

End HeapFacts.

(** ** The loop: frame, length and fuel *)

Section LoopFacts.

Variables (source destination : ref) (delta : CMYValues).

Lemma pixelStep_other (a : ref) i (h : heap) :
  a ≠ destination →
  pixelStep source destination delta i h !! a = h !! a.
Proof.
  intros Hne. unfold pixelStep.
  rewrite !setIndex_other by done. done.
Qed.

Lemma lengthOf_pixelStep (a : ref) i (h : heap) :
  lengthOf (pixelStep source destination delta i h) a = lengthOf h a.
Proof. unfold pixelStep. by rewrite !lengthOf_setIndex. Qed.

Lemma pixelLoop_other (a : ref) fuel : ∀ i (h : heap),
  a ≠ destination →
  pixelLoop fuel source destination delta i h !! a = h !! a.
Proof.
  induction fuel as [|fuel IH]; intros i h Hne; simpl; [done|].
  destruct (i <? lengthOf h source)%nat; [|done].
  rewrite IH by done. by apply pixelStep_other.
Qed.

Lemma lengthOf_pixelLoop (a : ref) fuel : ∀ i (h : heap),
  lengthOf (pixelLoop fuel source destination delta i h) a = lengthOf h a.
Proof.
  induction fuel as [|fuel IH]; intros i h; simpl; [done|].
  destruct (i <? lengthOf h source)%nat; [|done].
  rewrite IH. apply lengthOf_pixelStep.
Qed.

(** Once the guard [i < source.length] fails the loop is over, whatever fuel
    is left; the lengths never change, so this also holds with aliasing. *)
Lemma pixelLoop_done fuel i (h : heap) :
  lengthOf h source ≤ i →
  pixelLoop fuel source destination delta i h = h.
Proof.
  intros Hle. destruct fuel as [|fuel]; simpl; [done|].
  destruct (Nat.ltb_spec i (lengthOf h source)); [lia | done].
Qed.

(** Fuel that covers the remaining pixels is enough: more fuel gives the
    same heap. *)
Lemma pixelLoop_fuel fuel : ∀ extra i (h : heap),
  lengthOf h source ≤ i + 4 * fuel →
  pixelLoop (fuel + extra) source destination delta i h
  = pixelLoop fuel source destination delta i h.
Proof.
  induction fuel as [|fuel IH]; intros extra i h Hle.
  - simpl. apply pixelLoop_done. lia.
  - simpl. destruct (Nat.ltb_spec i (lengthOf h source)); [|done].
    apply IH. rewrite lengthOf_pixelStep. lia.
Qed.

(** [processImageBuffer] is the loop run to its end: any fuel that is at
    least the number of pixels gives the heap it returns. *)
Lemma processImageBuffer_any_fuel fuel (h : heap) :
  lengthOf h source ≤ 4 * fuel →
  pixelLoop fuel source destination delta 0 h
  = processImageBuffer source destination delta h.
Proof.
  intros Hle. unfold processImageBuffer.
  destruct (Nat.le_gt_cases fuel (lengthOf h source)) as [H1|H1].
  - rewrite <- (pixelLoop_fuel fuel (lengthOf h source - fuel) 0 h) by (simpl; lia).
    f_equal. lia.
  - rewrite <- (pixelLoop_fuel (lengthOf h source) (fuel - lengthOf h source) 0 h)
      by lia.
    f_equal. lia.
Qed.

End LoopFacts.

(** ** The destination after a pass, sample by sample *)

Section DestinationFacts.

Variables (P : list Z) (delta : CMYValues).

Lemma length_stepList i (D : list Z) :
  length (stepList P delta i D) = length D.
Proof. unfold stepList. by rewrite !length_insert. Qed.

Lemma length_listLoop fuel : ∀ i (D : list Z),
  length (listLoop fuel P delta i D) = length D.
Proof.
  induction fuel as [|fuel IH]; intros i D; simpl; [done|].
  destruct (i <? length P)%nat; [|done].
  by rewrite IH, length_stepList.
Qed.

Lemma stepList_lookup_lt i j (D : list Z) :
  j < i → stepList P delta i D !! j = D !! j.
Proof.
  intros Hlt. unfold stepList.
  rewrite !list_lookup_insert_ne by lia. done.
Qed.

Lemma stepList_lookup i ch (D : list Z) :
  ch < 4 → i + ch < length D →
  stepList P delta i D !! (i + ch) = Some (outAt P delta i ch).
Proof.
  intros Hch Hlen. unfold stepList.
  destruct ch as [|[|[|[|ch]]]]; [| | | |lia]; simpl outAt.
  - rewrite Nat.add_0_r in *.
    rewrite !list_lookup_insert_ne by lia.
    by apply list_lookup_insert_eq.
  - rewrite !list_lookup_insert_ne by lia.
    apply list_lookup_insert_eq. by rewrite length_insert.
  - rewrite list_lookup_insert_ne by lia.
    apply list_lookup_insert_eq. by rewrite !length_insert.
  - apply list_lookup_insert_eq. by rewrite !length_insert.
Qed.

Lemma listLoop_lookup_lt fuel : ∀ i j (D : list Z),
  j < i → listLoop fuel P delta i D !! j = D !! j.
Proof.
  induction fuel as [|fuel IH]; intros i j D Hlt; simpl; [done|].
  destruct (i <? length P)%nat; [|done].
  rewrite IH by lia. by apply stepList_lookup_lt.
Qed.

(** Every pixel whose offset the loop reaches gets its four samples, as far
    as they fit in the destination. *)
Lemma listLoop_lookup k : ∀ fuel i ch (D : list Z),
  i + 4 * k < length P →
  length P ≤ i + 4 * fuel →
  ch < 4 → i + 4 * k + ch < length D →
  listLoop fuel P delta i D !! (i + 4 * k + ch)
  = Some (outAt P delta (i + 4 * k) ch).
Proof.
  induction k as [|k IH]; intros fuel i ch D Hk Hfuel Hch Hlen.
  - rewrite Nat.mul_0_r, Nat.add_0_r in *.
    destruct fuel as [|fuel]; [lia|]. simpl.
    destruct (Nat.ltb_spec i (length P)); [|lia].
    rewrite listLoop_lookup_lt by lia. by apply stepList_lookup.
  - destruct fuel as [|fuel]; [lia|].
    replace (i + 4 * S k) with (i + 4 + 4 * k) in * by lia.
    cbn [listLoop].
    destruct (Nat.ltb_spec i (length P)); [|lia].
    apply IH; [lia | lia | done |]. by rewrite length_stepList.
Qed.

End DestinationFacts.

Section Unaliased.

Variables (source destination : ref) (delta : CMYValues).
Hypothesis distinct : source ≠ destination.

Lemma pixelStep_destination i (h : heap) (P D : list Z) :
  h !! source = Some P → h !! destination = Some D →
  pixelStep source destination delta i h !! destination
  = Some (stepList P delta i D).
Proof using distinct.
  intros HP HD. unfold pixelStep, stepList, outR, outG, outB, outA.
  rewrite <- !(getIndex_lookup h source _ P HP).
  erewrite setIndex_same; [|erewrite setIndex_same; [|erewrite setIndex_same;
    [|erewrite setIndex_same; [|exact HD]; reflexivity]; reflexivity]; reflexivity].
  simpl ToNumber. do 2 f_equal.
  unfold getIndex. rewrite !setIndex_other by done. done.
Qed.

Lemma pixelLoop_destination fuel : ∀ i (h : heap) (P D : list Z),
  h !! source = Some P → h !! destination = Some D →
  pixelLoop fuel source destination delta i h !! destination
  = Some (listLoop fuel P delta i D).
Proof using distinct.
  induction fuel as [|fuel IH]; intros i h P D HP HD; simpl; [done|].
  unfold lengthOf at 1. rewrite HP.
  destruct (i <? length P)%nat; [|done].
  apply IH.
  - by rewrite pixelStep_other.
  - by apply pixelStep_destination.
Qed.

Lemma processImageBuffer_destination (h : heap) (P D : list Z) :
  h !! source = Some P → h !! destination = Some D →
  processImageBuffer source destination delta h !! destination
  = Some (listLoop (length P) P delta 0 D).
Proof using distinct.
  intros HP HD. unfold processImageBuffer, lengthOf. rewrite HP.
  by apply pixelLoop_destination.
Qed.

(** The sample found [ch] places after the offset [4 * k] once the pass is
    over. *)
Lemma pass_sample (h : heap) (P D : list Z) k ch :
  h !! source = Some P → h !! destination = Some D →
  4 * k < length P → ch < 4 → 4 * k + ch < length D →
  sampleAt (processImageBuffer source destination delta h) destination
    (4 * k + ch)
  = Some (outAt P delta (4 * k) ch).
Proof using distinct.
  intros HP HD Hk Hch Hlen.
  rewrite (sampleAt_lookup _ _ _ _ (processImageBuffer_destination h P D HP HD)).
  pose proof (listLoop_lookup P delta k (length P) 0 ch D) as H.
  rewrite !Nat.add_0_l in H. apply H; lia.
Qed.

Lemma pass_length (h : heap) (P D : list Z) :
  h !! source = Some P → h !! destination = Some D →
  ∃ D', processImageBuffer source destination delta h !! destination = Some D'
        ∧ length D' = length D.
Proof using distinct.
  intros HP HD. eexists. split.
  - by apply processImageBuffer_destination.
  - apply length_listLoop.
Qed.

End Unaliased.

(** ** Facts checked on each of the 256 samples *)

Section Samples.

Lemma u8_cases (f : Z → bool) :
  forallb (λ n, f (Z.of_nat n)) (seq 0 256) = true →
  ∀ z, u8 z → f z = true.
Proof.
  intros Hall z [Hlo Hhi].
  rewrite forallb_forall in Hall.
  specialize (Hall (Z.to_nat z)).
  rewrite Z2Nat.id in Hall by done.
  apply Hall, in_seq. lia.
Qed.

(** A sample survives the trip through a number and back into a buffer. *)
Lemma sample_roundtrip z : u8 z → ToUint8Clamp (ofSample z) = z.
Proof.
  intros Hz. apply Z.eqb_eq.
  revert z Hz. apply u8_cases. vm_compute. reflexivity.
Qed.

(** With the zero delta each mixing expression, clamped and stored, gives
    the sample back. *)
Lemma zero_delta_sample z :
  u8 z →
  ToUint8Clamp (clamp (newR (mkCMY 0 0 0) (ofSample z))) = z
  ∧ ToUint8Clamp (clamp (newG (mkCMY 0 0 0) (ofSample z))) = z
  ∧ ToUint8Clamp (clamp (newB (mkCMY 0 0 0) (ofSample z))) = z.
Proof.
  intros Hz.
  assert (H : ((ToUint8Clamp (clamp (newR (mkCMY 0 0 0) (ofSample z))) =? z)%Z
               && (ToUint8Clamp (clamp (newG (mkCMY 0 0 0) (ofSample z))) =? z)%Z
               && (ToUint8Clamp (clamp (newB (mkCMY 0 0 0) (ofSample z))) =? z)%Z) = true).
  { revert z Hz. apply u8_cases. vm_compute. reflexivity. }
  apply andb_prop in H as [H HB]. apply andb_prop in H as [HR HG].
  by rewrite (proj1 (Z.eqb_eq _ _) HR), (proj1 (Z.eqb_eq _ _) HG),
    (proj1 (Z.eqb_eq _ _) HB).
Qed.

Lemma sampleNum_Some (P : list Z) j z :
  P !! j = Some z → sampleNum P j = ofSample z.
Proof. intros H. unfold sampleNum. by rewrite H. Qed.

Lemma Forall_u8_lookup (P : list Z) j z :
  Forall u8 P → P !! j = Some z → u8 z.
Proof. intros HP Hj. by eapply Forall_lookup_1. Qed.

End Samples.

(** ** Decoding numbers: mantissa, exponent and exact value *)

Section Decode.
Local Open Scope Z_scope.

Lemma digits2_pos_bound (p : positive) :
  Z.pos p < 2 ^ Z.pos (digits2_pos p).
Proof.
  induction p as [p IH|p IH|]; simpl digits2_pos.
  - rewrite Pos2Z.inj_succ, Z.pow_succ_r by lia. lia.
  - rewrite Pos2Z.inj_succ, Z.pow_succ_r by lia. lia.
  - reflexivity.
Qed.

(** The mantissa of a number has at most 53 bits. *)
Lemma mantissa_bound (x : number) s p e :
  Prim2SF x = S754_finite s p e → Z.pos p < 2 ^ 53.
Proof.
  intros Hx. pose proof (Prim2SF_valid x) as Hv. rewrite Hx in Hv.
  unfold valid_binary, bounded, canonical_mantissa, fexp, emin in Hv.
  apply andb_prop in Hv as [Hc _]. apply Z.eqb_eq in Hc.
  pose proof (digits2_pos_bound p) as Hd.
  assert (Z.pos (digits2_pos p) <= 53) by (unfold prec, emax in Hc; lia).
  eapply Z.lt_le_trans; [exact Hd|]. apply Z.pow_le_mono_r; lia.
Qed.

Lemma ratio_pos p e num den :
  ratio p e = (num, den) → 0 < num ∧ 0 < den.
Proof.
  unfold ratio. destruct (Z.leb_spec 0 e); intros [= <- <-].
  - split; [|lia]. apply Z.mul_pos_pos; [lia|]. by apply Z.pow_pos_nonneg.
  - split; [lia|]. apply Z.pow_pos_nonneg; lia.
Qed.

Lemma roundHalfEven_bounds num den :
  0 < den → 0 <= num →
  2 * (roundHalfEven num den * den) - den <= 2 * num
  ∧ 2 * num <= 2 * (roundHalfEven num den * den) + den.
Proof.
  intros Hden Hnum. unfold roundHalfEven.
  pose proof (Z.div_mod num den ltac:(lia)) as Hdm.
  pose proof (Z.mod_pos_bound num den Hden) as Hmod.
  destruct (Z.compare_spec (2 * (num mod den)) den);
    [destruct (Z.even (num / den))| |]; nia.
Qed.

Lemma ToUint8Clamp_u8 (v : number) : u8 (ToUint8Clamp v).
Proof.
  unfold ToUint8Clamp, u8.
  destruct (Prim2SF v) as [s|[|]| |[|] p e]; try lia.
  destruct (ratio p e) as [num den] eqn:Hr.
  apply ratio_pos in Hr as [Hnum Hden].
  destruct (Z.leb_spec (255 * den) num) as [|Hlt]; [lia|].
  unfold roundHalfEven.
  pose proof (Z.div_pos num den ltac:(lia) Hden).
  assert (num / den < 255) by (apply Z.div_lt_upper_bound; lia).
  destruct (2 * (num mod den) ?= den); [destruct (Z.even (num / den))| |]; lia.
Qed.

Lemma digits2_pos_lower (p : positive) :
  2 ^ (Z.pos (digits2_pos p) - 1) <= Z.pos p.
Proof.
  induction p as [p IH|p IH|]; simpl digits2_pos.
  - rewrite Pos2Z.inj_succ.
    replace (Z.succ (Z.pos (digits2_pos p)) - 1)
      with (Z.succ (Z.pos (digits2_pos p) - 1)) by lia.
    rewrite Z.pow_succ_r by lia. lia.
  - rewrite Pos2Z.inj_succ.
    replace (Z.succ (Z.pos (digits2_pos p)) - 1)
      with (Z.succ (Z.pos (digits2_pos p) - 1)) by lia.
    rewrite Z.pow_succ_r by lia. lia.
  - reflexivity.
Qed.

Lemma digits2_pos_shift (p k : positive) :
  digits2_pos (Pos.iter xO p k) = (digits2_pos p + k)%positive.
Proof.
  induction k as [|k IH] using Pos.peano_ind.
  - simpl. lia.
  - rewrite Pos.iter_succ. simpl. rewrite IH. lia.
Qed.

Lemma Zpos_shift (p k : positive) :
  Z.pos (Pos.iter xO p k) = Z.pos p * 2 ^ Z.pos k.
Proof.
  induction k as [|k IH] using Pos.peano_ind.
  - simpl. lia.
  - rewrite Pos.iter_succ, Pos2Z.inj_succ, Z.pow_succ_r by lia.
    rewrite Pos2Z.inj_xO, IH. lia.
Qed.

End Decode.

(** ** Shifting and rounding a mantissa *)

Section Shift.
Local Open Scope Z_scope.

Lemma iter_pos_iter {A : Type} (f : A → A) (p : positive) (x : A) :
  SpecFloat.iter_pos f p x = Pos.iter f x p.
Proof.
  revert x. induction p as [p IH|p IH|]; intros x; simpl.
  - by rewrite !IH, <- !Pos.iter_swap.
  - by rewrite !IH.
  - done.
Qed.

Lemma shr_1_m (mrs : shr_record) :
  0 <= shr_m mrs →
  shr_m (shr_1 mrs) = shr_m mrs / 2 ∧ 0 <= shr_m (shr_1 mrs).
Proof.
  destruct mrs as [m r s]. cbn [shr_m]. intros Hm.
  destruct m as [|[p|p|]|p]; cbn [shr_1 shr_m]; try lia;
    (split; [|lia]); Z.div_mod_to_equations; lia.
Qed.

Lemma shr_iter_m (k : positive) (mrs : shr_record) :
  0 <= shr_m mrs →
  shr_m (SpecFloat.iter_pos shr_1 k mrs) = shr_m mrs / 2 ^ Z.pos k
  ∧ 0 <= shr_m (SpecFloat.iter_pos shr_1 k mrs).
Proof.
  intros Hm. rewrite iter_pos_iter.
  induction k as [|k IH] using Pos.peano_ind.
  - cbn [Pos.iter]. change (2 ^ 1) with 2. by apply shr_1_m.
  - rewrite Pos.iter_succ. destruct IH as [IH1 IH2].
    destruct (shr_1_m _ IH2) as [H1 H2]. split; [|done].
    rewrite H1, IH1, Pos2Z.inj_succ, Z.pow_succ_r by lia.
    rewrite Z.div_div by lia. f_equal. lia.
Qed.

Lemma round_nearest_even_cases (m : Z) (l : location) :
  round_nearest_even m l = m ∨ round_nearest_even m l = m + 1.
Proof.
  destruct l as [|[| |]]; cbn [round_nearest_even]; auto.
  destruct (Z.even m); auto.
Qed.

(** The number of bits of a positive integer, from its bounds. *)
Lemma digits2_pos_unique (p : positive) (n : Z) :
  2 ^ (n - 1) <= Z.pos p < 2 ^ n → Z.pos (digits2_pos p) = n.
Proof.
  intros [Hlo Hhi].
  pose proof (digits2_pos_bound p) as Hb.
  pose proof (digits2_pos_lower p) as Hl.
  assert (0 < n).
  { destruct (Z.lt_ge_cases 0 n) as [|Hn]; [done|].
    assert (2 ^ n <= 1); [|lia].
    destruct (Z.eq_dec n 0) as [->|Hn0]; [done|].
    rewrite Z.pow_neg_r by lia. lia. }
  destruct (Z.lt_trichotomy (Z.pos (digits2_pos p)) n) as [Hlt|[Heq|Hgt]]; [|done|].
  - assert (2 ^ Z.pos (digits2_pos p) <= 2 ^ (n - 1))
      by (apply Z.pow_le_mono_r; lia). lia.
  - assert (2 ^ n <= 2 ^ (Z.pos (digits2_pos p) - 1))
      by (apply Z.pow_le_mono_r; lia). lia.
Qed.

End Shift.

Section RoundAux.
Local Open Scope Z_scope.

Lemma shr_spec (mrs : shr_record) (e k : Z) :
  0 <= shr_m mrs → 0 <= k →
  ∃ mrs', shr mrs e k = (mrs', e + k) ∧ shr_m mrs' = shr_m mrs / 2 ^ k.
Proof.
  intros Hm Hk. destruct k as [|k|k]; [| |lia]; cbn [shr].
  - exists mrs. rewrite Z.add_0_r, Z.div_1_r. done.
  - eexists. split; [reflexivity|]. by apply shr_iter_m.
Qed.

Lemma shr_m_of_loc (m : Z) (l : location) : shr_m (shr_record_of_loc m l) = m.
Proof. by destruct l as [|[| |]]. Qed.

(** Rounding a mantissa of at least 53 bits in the normal range: the result
    is an infinity or lies within one unit of the last kept place. *)
Lemma binary_round_aux_bounds (s : bool) (p : positive) (e : Z) :
  53 <= Z.pos (digits2_pos p) →
  -1074 <= Z.pos (digits2_pos p) + e - 53 →
  (binary_round_aux prec emax s (Z.pos p) e loc_Exact = S754_infinity s
   ∧ 971 <= e + (Z.pos (digits2_pos p) - 53))
  ∨ ∃ (m' : positive) (e' : Z),
      binary_round_aux prec emax s (Z.pos p) e loc_Exact = S754_finite s m' e'
      ∧ e + (Z.pos (digits2_pos p) - 53) <= e'
      ∧ 2 ^ (Z.pos (digits2_pos p) - 1) <= Z.pos m' * 2 ^ (e' - e)
      ∧ Z.pos p - 2 ^ (Z.pos (digits2_pos p) - 53) < Z.pos m' * 2 ^ (e' - e)
      ∧ Z.pos m' * 2 ^ (e' - e) <= Z.pos p + 2 ^ (Z.pos (digits2_pos p) - 53).
Proof.
  intros Hd He.
  pose proof (digits2_pos_bound p) as Hhi.
  pose proof (digits2_pos_lower p) as Hlo.
  set (d := Z.pos (digits2_pos p)) in *. set (k := d - 53).
  assert (Hk : 0 <= k) by (unfold k; lia).
  assert (HK : 0 < 2 ^ k) by (by apply Z.pow_pos_nonneg).
  assert (Hd1 : 2 ^ (d - 1) = 2 ^ 52 * 2 ^ k).
  { rewrite <- Z.pow_add_r by lia. f_equal. unfold k. lia. }
  assert (Hd2 : 2 ^ d = 2 ^ 53 * 2 ^ k).
  { rewrite <- Z.pow_add_r by lia. f_equal. unfold k. lia. }
  unfold binary_round_aux, shr_fexp. cbn [Zdigits2]. fold d.
  assert (Hf : fexp prec emax (d + e) - e = k).
  { unfold fexp, emin, prec, emax, k. lia. }
  rewrite Hf.
  destruct (shr_spec (shr_record_of_loc (Z.pos p) loc_Exact) e k)
    as (mrs1 & Hshr1 & Hm1); [cbn; lia | done |].
  rewrite Hshr1. cbn [shr_m shr_record_of_loc] in Hm1.
  set (m1 := shr_m mrs1) in *.
  pose proof (Z.div_mod (Z.pos p) (2 ^ k) ltac:(lia)) as Hdm.
  pose proof (Z.mod_pos_bound (Z.pos p) (2 ^ k) HK) as Hmod.
  rewrite <- Hm1 in Hdm.
  assert (Hm1b : 2 ^ 52 <= m1 < 2 ^ 53) by nia.
  set (m2 := round_nearest_even m1 (loc_of_shr_record mrs1)).
  assert (Hm2 : m2 = m1 ∨ m2 = m1 + 1) by apply round_nearest_even_cases.
  assert (Hm2b : 2 ^ 52 <= m2 <= 2 ^ 53) by lia.
  destruct m2 as [|q|q] eqn:Hq; [lia| |lia].
  cbn [Zdigits2].
  assert (Hcase : Z.pos q < 2 ^ 53 ∨ Z.pos q = 2 ^ 53) by lia.
  destruct Hcase as [Hlt|Heq].
  - assert (Hdq : Z.pos (digits2_pos q) = 53)
      by (apply digits2_pos_unique; change (53 - 1) with 52; lia).
    rewrite Hdq.
    assert (Hf2 : fexp prec emax (53 + (e + k)) - (e + k) = 0).
    { unfold fexp, emin, prec, emax. unfold k. lia. }
    rewrite Hf2. cbn [shr shr_record_of_loc shr_m].
    destruct (Z.leb_spec (e + k) (emax - prec)) as [|Hov];
      [|left; split; [done|]; unfold emax, prec in Hov; lia].
    right. exists q, (e + k). split; [done|]. split; [lia|].
    replace (e + k - e) with k by lia. nia.
  - assert (Hdq : Z.pos (digits2_pos q) = 54)
      by (apply digits2_pos_unique; change (54 - 1) with 53;
          change (2 ^ 54) with (2 * 2 ^ 53); lia).
    rewrite Hdq.
    assert (Hf2 : fexp prec emax (54 + (e + k)) - (e + k) = 1).
    { unfold fexp, emin, prec, emax. unfold k. lia. }
    rewrite Hf2.
    destruct (shr_spec (shr_record_of_loc (Z.pos q) loc_Exact) (e + k) 1)
      as (mrs2 & Hshr2 & Hm3); [cbn; lia | lia |].
    rewrite Hshr2. cbn [shr_m shr_record_of_loc] in Hm3.
    rewrite Heq in Hm3. change (2 ^ 53 / 2 ^ 1) with (Z.pos 4503599627370496) in Hm3.
    rewrite Hm3.
    destruct (Z.leb_spec (e + k + 1) (emax - prec)) as [|Hov];
      [|left; split; [done|]; unfold emax, prec in Hov; lia].
    right. exists 4503599627370496%positive, (e + k + 1). split; [done|]. split; [lia|].
    replace (e + k + 1 - e) with (k + 1) by lia.
    rewrite Z.pow_add_r by lia. change (2 ^ 1) with 2.
    change (Z.pos 4503599627370496) with (2 ^ 52). nia.
Qed.

(** A canonical mantissa is returned as it is. *)
Lemma binary_round_aux_canonical (s : bool) (p : positive) (e : Z) :
  fexp prec emax (Z.pos (digits2_pos p) + e) = e → e <= 971 →
  binary_round_aux prec emax s (Z.pos p) e loc_Exact = S754_finite s p e.
Proof.
  intros Hc He. unfold binary_round_aux, shr_fexp. cbn [Zdigits2].
  rewrite Hc, Z.sub_diag.
  cbn [shr shr_record_of_loc shr_m loc_of_shr_record round_nearest_even Zdigits2].
  rewrite Hc, Z.sub_diag. cbn [shr shr_m].
  destruct (Z.leb_spec e (emax - prec)) as [|Hgt]; [done|].
  unfold emax, prec in Hgt. lia.
Qed.

(** Rounding keeps the sign and never gives NaN. *)
Lemma binary_round_aux_sign (s : bool) (p : positive) (e : Z) :
  match binary_round_aux prec emax s (Z.pos p) e loc_Exact with
  | S754_zero s' | S754_infinity s' | S754_finite s' _ _ => s' = s
  | S754_nan => False
  end.
Proof.
  unfold binary_round_aux, shr_fexp.
  set (k1 := fexp prec emax (Zdigits2 (Z.pos p) + e) - e).
  assert (H1 : ∃ mrs1 e1, shr (shr_record_of_loc (Z.pos p) loc_Exact) e k1
                          = (mrs1, e1) ∧ 0 <= shr_m mrs1).
  { destruct (Z.le_gt_cases 0 k1) as [Hk|Hk].
    - destruct (shr_spec (shr_record_of_loc (Z.pos p) loc_Exact) e k1)
        as (mrs1 & Hs & Hm); [cbn; lia | done |].
      exists mrs1, (e + k1). split; [done|]. rewrite Hm. cbn [shr_m shr_record_of_loc].
      apply Z.div_pos; [lia|]. by apply Z.pow_pos_nonneg.
    - destruct k1 as [|k1|k1]; [lia|lia|]. cbn [shr].
      eexists _, _. split; [reflexivity|]. cbn. lia. }
  destruct H1 as (mrs1 & e1 & -> & Hm1).
  set (m2 := round_nearest_even (shr_m mrs1) (loc_of_shr_record mrs1)).
  assert (Hm2 : 0 <= m2).
  { destruct (round_nearest_even_cases (shr_m mrs1) (loc_of_shr_record mrs1));
      unfold m2; lia. }
  set (k2 := fexp prec emax (Zdigits2 m2 + e1) - e1).
  assert (H2 : ∃ mrs2 e2, shr (shr_record_of_loc m2 loc_Exact) e1 k2
                          = (mrs2, e2) ∧ 0 <= shr_m mrs2).
  { destruct (Z.le_gt_cases 0 k2) as [Hk|Hk].
    - destruct (shr_spec (shr_record_of_loc m2 loc_Exact) e1 k2)
        as (mrs2 & Hs & Hm); [cbn; lia | done |].
      exists mrs2, (e1 + k2). split; [done|]. rewrite Hm. cbn [shr_m shr_record_of_loc].
      apply Z.div_pos; [lia|]. by apply Z.pow_pos_nonneg.
    - destruct k2 as [|k2|k2]; [lia|lia|]. cbn [shr].
      eexists _, _. split; [reflexivity|]. cbn. lia. }
  destruct H2 as (mrs2 & e2 & -> & Hm3).
  destruct (shr_m mrs2) as [|m3|m3]; [done| |lia].
  by destruct (e2 <=? emax - prec).
Qed.

End RoundAux.

(** ** The order of numbers in canonical form *)

Section Canonical.
Local Open Scope Z_scope.

(** What validity says of a mantissa and its exponent. *)
Lemma valid_finite (s : bool) (m : positive) (e : Z) :
  valid_binary (S754_finite s m e) = true →
  -1074 <= e <= 971
  ∧ Z.pos (digits2_pos m) <= 53
  ∧ (-1074 < e → Z.pos (digits2_pos m) = 53).
Proof.
  unfold valid_binary, bounded, canonical_mantissa, fexp, emin, prec, emax.
  intros H. apply andb_prop in H as [Hc He].
  apply Z.eqb_eq in Hc. apply Z.leb_le in He. lia.
Qed.

(** Positive numbers in canonical form are ordered as their values. *)
Lemma SFcompare_lt (mx my : positive) (ex ey b : Z) :
  valid_binary (S754_finite false mx ex) = true →
  valid_binary (S754_finite false my ey) = true →
  b <= ex → b <= ey →
  Z.pos mx * 2 ^ (ex - b) < Z.pos my * 2 ^ (ey - b) →
  SFcompare (S754_finite false mx ex) (S754_finite false my ey) = Some Lt.
Proof.
  intros Hx Hy Hbx Hby Hlt.
  apply valid_finite in Hx as (Hex & Hdx & Hnx).
  apply valid_finite in Hy as (Hey & Hdy & Hny).
  cbn [SFcompare]. f_equal.
  destruct (Z.compare_spec ex ey) as [->|Hc|Hc]; [|done|exfalso].
  - fold (Pos.compare mx my). apply Pos.compare_lt_iff.
    assert (0 < 2 ^ (ey - b)) by (apply Z.pow_pos_nonneg; lia).
    apply Pos2Z.pos_lt_pos. nia.
  - pose proof (digits2_pos_lower mx) as Hlo.
    pose proof (digits2_pos_bound my) as Hhi.
    rewrite Hnx in Hlo by lia. change (2 ^ (53 - 1)) with (2 ^ 52) in Hlo.
    assert (Z.pos my < 2 ^ 53).
    { eapply Z.lt_le_trans; [exact Hhi|]. apply Z.pow_le_mono_r; lia. }
    replace (ex - b) with ((ex - ey) + (ey - b)) in Hlt by lia.
    rewrite Z.pow_add_r in Hlt by lia.
    assert (0 < 2 ^ (ey - b)) by (apply Z.pow_pos_nonneg; lia).
    assert (2 ^ 1 <= 2 ^ (ex - ey)) by (apply Z.pow_le_mono_r; lia).
    change (2 ^ 1) with 2 in *.
    set (P := 2 ^ (ex - ey)) in *. set (Q := 2 ^ (ey - b)) in *.
    assert (Ha : Z.pos my * Q < 2 ^ 53 * Q) by (apply Z.mul_lt_mono_pos_r; lia).
    assert (Hb : 2 ^ 53 <= Z.pos mx * P).
    { change (2 ^ 53) with (2 ^ 52 * 2). apply Z.mul_le_mono_nonneg; lia. }
    assert (Hc2 : 2 ^ 53 * Q <= Z.pos mx * P * Q)
      by (apply Z.mul_le_mono_nonneg_r; lia).
    lia.
Qed.

End Canonical.

(** ** Comparisons of numbers against 0 and 255 *)

Section Compare.
Local Open Scope float_scope.

Lemma is_nan_spec (x : number) :
  is_nan x = match Prim2SF x with S754_nan => true | _ => false end.
Proof.
  unfold is_nan. rewrite FloatAxioms.eqb_spec. unfold SFeqb.
  destruct (Prim2SF x) as [s|[|]| |[|] p e]; simpl; try reflexivity;
    by rewrite Z.compare_refl, Pos.compare_cont_refl.
Qed.

Lemma Prim2SF_255 : Prim2SF 255 = S754_finite false mantissa255 (-45).
Proof. vm_compute. reflexivity. Qed.

Lemma Prim2SF_0 : Prim2SF 0 = S754_zero false.
Proof. vm_compute. reflexivity. Qed.

Lemma mathMin_255 (v : number) :
  match Prim2SF v with
  | S754_nan => mathMin 255 v = nan
  | S754_zero _ => mathMin 255 v = v
  | S754_infinity s => mathMin 255 v = if s then v else 255
  | S754_finite s p e =>
      mathMin 255 v =
      if s then v
      else match (e ?= -45)%Z with
           | Lt => v
           | Gt => 255
           | Eq => match (p ?= mantissa255)%positive with
                   | Gt => 255
                   | _ => v
                   end
           end
  end.
Proof.
  unfold mathMin.
  change (is_nan 255) with false. change (isNegZero 255) with false.
  rewrite is_nan_spec, !FloatAxioms.ltb_spec, Prim2SF_255. unfold SFltb.
  generalize mantissa255; intros M.
  destruct (Prim2SF v) as [s|[|]| |[|] p e];
    cbn -[Z.compare Pos.compare_cont]; try reflexivity.
  fold (Pos.compare M p). fold (Pos.compare p M).
  rewrite (Z.compare_antisym e (-45)), (Pos.compare_antisym p M).
  destruct (e ?= -45)%Z; cbn -[Pos.compare]; try reflexivity.
  destruct (p ?= M)%positive; reflexivity.
Qed.

Lemma mathMax_0 (w : number) :
  match Prim2SF w with
  | S754_nan => mathMax 0 w = nan
  | S754_zero _ => mathMax 0 w = 0
  | S754_infinity s => mathMax 0 w = if s then 0 else w
  | S754_finite s p e => mathMax 0 w = if s then 0 else w
  end.
Proof.
  unfold mathMax.
  change (is_nan 0) with false. change (isNegZero 0) with false.
  rewrite is_nan_spec, !FloatAxioms.ltb_spec, Prim2SF_0. unfold SFltb.
  destruct (Prim2SF w) as [s|[|]| |[|] p e]; simpl; reflexivity.
Qed.

End Compare.

(** ** The range of [clamp] *)

Section Range.
Local Open Scope float_scope.

Lemma exactQ_finite (x : number) s p e :
  Prim2SF x = S754_finite s p e →
  exactQ x = Some (Qmake (if s then - fst (ratio p e) else fst (ratio p e))
                         (Z.to_pos (snd (ratio p e)))).
Proof. intros Hx. unfold exactQ. rewrite Hx. by destruct (ratio p e). Qed.

(** The clamp helper returns NaN or a number between 0 and 255. *)
Lemma clamp_range (v : number) :
  (Prim2SF (clamp v) = S754_nan)
  ∨ ∃ q : Q, exactQ (clamp v) = Some q ∧ (0 <= q)%Q ∧ (q <= 255)%Q.
Proof.
  unfold clamp.
  pose proof (mathMin_255 v) as Hmin.
  pose proof (mathMax_0 v) as Hv0.
  assert (H255 : ∃ q : Q, exactQ (mathMax 0 255) = Some q
                          ∧ (0 <= q)%Q ∧ (q <= 255)%Q).
  { eexists. split; [vm_compute; reflexivity|]. split; discriminate. }
  assert (H0 : ∃ q : Q, exactQ 0 = Some q ∧ (0 <= q)%Q ∧ (q <= 255)%Q).
  { eexists. split; [vm_compute; reflexivity|]. split; discriminate. }
  destruct (Prim2SF v) as [s|[|]| |[|] p e] eqn:Hv; rewrite Hmin;
    try (right; rewrite Hv0; exact H0); try (right; exact H255).
  - left. vm_compute. reflexivity.
  - assert (Hself : (e < -45 ∨ e = -45 ∧ Z.pos p <= Z.pos mantissa255)%Z →
                    ∃ q : Q, exactQ (mathMax 0 v) = Some q
                             ∧ (0 <= q)%Q ∧ (q <= 255)%Q).
    { intros He. rewrite Hv0.
      rewrite (exactQ_finite v false p e Hv).
      pose proof (mantissa_bound v false p e Hv) as Hp.
      eexists. split; [reflexivity|].
      unfold ratio. destruct (Z.leb_spec 0 e) as [|_]; [lia|]. simpl fst; simpl snd.
      assert (Hden : (0 < 2 ^ (- e))%Z) by (apply Z.pow_pos_nonneg; lia).
      assert (Hle : (Z.pos p <= 255 * 2 ^ (- e))%Z).
      { destruct He as [He|[-> He]].
        - assert (2 ^ 46 <= 2 ^ (- e))%Z by (apply Z.pow_le_mono_r; lia). lia.
        - unfold mantissa255 in He. change (2 ^ (- -45))%Z with 35184372088832%Z. lia. }
      unfold Qle. cbn [Qnum Qden]. rewrite Z2Pos.id by done. split; lia. }
    right.
    destruct (Z.compare_spec e (-45)) as [->|He|He]; [| apply Hself; lia | exact H255].
    destruct (Pos.compare_spec p mantissa255) as [Hp|Hp|Hp].
    + apply Hself. right. split; [reflexivity|]. rewrite Hp. apply Z.le_refl.
    + apply Hself. right. split; [reflexivity|].
      by apply Pos2Z.pos_le_pos, Pos.lt_le_incl.
    + exact H255.
Qed.

End Range.

(** ** Rounding to the nearest integer *)

Section Halves.
Local Open Scope Z_scope.

Variables (num den z : Z).
Hypothesis den_pos : 0 < den.

Lemma Qhalf_le_lower :
  (Qmake num (Z.to_pos den) - (1 # 2) <= inject_Z z)%Q
  ↔ 2 * num - den <= 2 * (z * den).
Proof using den_pos.
  unfold Qle, Qminus, Qplus, Qopp, inject_Z. cbn [Qnum Qden].
  rewrite Pos2Z.inj_mul, Z2Pos.id by done. lia.
Qed.

Lemma Qhalf_lt_lower :
  (Qmake num (Z.to_pos den) - (1 # 2) < inject_Z z)%Q
  ↔ 2 * num - den < 2 * (z * den).
Proof using den_pos.
  unfold Qlt, Qminus, Qplus, Qopp, inject_Z. cbn [Qnum Qden].
  rewrite Pos2Z.inj_mul, Z2Pos.id by done. lia.
Qed.

Lemma Qhalf_le_upper :
  (inject_Z z <= Qmake num (Z.to_pos den) + (1 # 2))%Q
  ↔ 2 * (z * den) <= 2 * num + den.
Proof using den_pos.
  unfold Qle, Qplus, inject_Z. cbn [Qnum Qden].
  rewrite Pos2Z.inj_mul, Z2Pos.id by done. lia.
Qed.

Lemma Qhalf_eq_lower :
  (Qmake num (Z.to_pos den) - (1 # 2) == inject_Z z)%Q
  ↔ 2 * num - den = 2 * (z * den).
Proof using den_pos.
  unfold Qeq, Qminus, Qplus, Qopp, inject_Z. cbn [Qnum Qden].
  rewrite Pos2Z.inj_mul, Z2Pos.id by done. lia.
Qed.

Lemma Qhalf_eq_upper :
  (inject_Z z == Qmake num (Z.to_pos den) + (1 # 2))%Q
  ↔ 2 * (z * den) = 2 * num + den.
Proof using den_pos.
  unfold Qeq, Qplus, inject_Z. cbn [Qnum Qden].
  rewrite Pos2Z.inj_mul, Z2Pos.id by done. lia.
Qed.

Lemma Qmake_nonneg : (0 <= Qmake num (Z.to_pos den))%Q ↔ 0 <= num.
Proof. unfold Qle. cbn [Qnum Qden]. lia. Qed.

Lemma Qmake_le_255 : (Qmake num (Z.to_pos den) <= 255)%Q ↔ num <= 255 * den.
Proof using den_pos.
  unfold Qle. cbn [Qnum Qden]. rewrite Z2Pos.id by done. lia.
Qed.

End Halves.

Section Rounding.
Local Open Scope Z_scope.

Lemma roundHalfEven_tie num den :
  0 < den → 0 <= num →
  2 * num - den = 2 * (roundHalfEven num den * den)
  ∨ 2 * (roundHalfEven num den * den) = 2 * num + den →
  Z.even (roundHalfEven num den) = true.
Proof.
  intros Hden Hnum. unfold roundHalfEven.
  pose proof (Z.div_mod num den ltac:(lia)) as Hdm.
  pose proof (Z.mod_pos_bound num den Hden) as Hmod.
  destruct (Z.compare_spec (2 * (num mod den)) den) as [He|Hl|Hg].
  - intros _. destruct (Z.even (num / den)) eqn:Hev; [done|].
    by rewrite Z.even_add, Hev.
  - intros [H|H]; nia.
  - intros [H|H]; nia.
Qed.

(** Storing a number between 0 and 255 rounds it to the nearest integer,
    and to the even one of two that are equally near. *)
Lemma ToUint8Clamp_halfEven (v : number) (q : Q) :
  exactQ v = Some q → (0 <= q)%Q → (q <= 255)%Q →
  halfEven q (ToUint8Clamp v).
Proof.
  unfold exactQ, ToUint8Clamp.
  destruct (Prim2SF v) as [s|s| |s p e]; try discriminate.
  - intros [= <-] _ _. split; [split; discriminate | done].
  - destruct (ratio p e) as [num den] eqn:Hr.
    apply ratio_pos in Hr as [Hnum Hden].
    intros [= <-] H0 H255. destruct s.
    { apply (proj1 (Qmake_nonneg (- num) den)) in H0. lia. }
    apply (proj1 (Qmake_le_255 num den Hden)) in H255.
    unfold halfEven, nearestInt.
    rewrite Qhalf_le_lower, Qhalf_le_upper, Qhalf_eq_lower, Qhalf_eq_upper by done.
    destruct (Z.leb_spec (255 * den) num) as [Hge|Hlt].
    + split; [split; lia|]. intros [H|H]; lia.
    + pose proof (roundHalfEven_bounds num den Hden ltac:(lia)) as [Hlo Hhi].
      split; [split; lia|]. apply roundHalfEven_tie; lia.
Qed.

End Rounding.

(** ** Integers as numbers *)

Section OfInteger.
Local Open Scope Z_scope.

(** The number of an integer below 2^53 is that integer. *)
Lemma Prim2SF_ofSample (p : positive) :
  Z.pos p < 2 ^ 53 →
  ∃ (m : positive) (e : Z),
    Prim2SF (ofSample (Z.pos p)) = S754_finite false m e
    ∧ -52 <= e <= 0 ∧ Z.pos m = Z.pos p * 2 ^ (- e).
Proof.
  intros Hp. unfold ofSample.
  rewrite of_uint63_spec, of_Z_spec.
  rewrite Z.mod_small by (change wB with (2 ^ 63); lia).
  cbn [binary_normalize]. unfold binary_round.
  pose proof (digits2_pos_lower p) as Hlo.
  assert (Hd : Z.pos (digits2_pos p) <= 53).
  { destruct (Z.le_gt_cases (Z.pos (digits2_pos p)) 53) as [|Hgt]; [done|].
    assert (2 ^ 53 <= 2 ^ (Z.pos (digits2_pos p) - 1))
      by (apply Z.pow_le_mono_r; lia).
    lia. }
  assert (Hf : fexp prec emax (Z.pos (digits2_pos p) + 0)
               = Z.pos (digits2_pos p) - 53).
  { unfold fexp, emin, prec, emax. lia. }
  rewrite Hf. unfold shl_align.
  destruct (Z.pos (digits2_pos p) - 53 - 0) as [|k|k] eqn:Hk; [|lia|].
  - exists p, 0. rewrite binary_round_aux_canonical by lia.
    repeat split; lia.
  - exists (Pos.iter xO p k), (Z.pos (digits2_pos p) - 53).
    rewrite binary_round_aux_canonical.
    + split; [done|]. split; [lia|]. rewrite Zpos_shift. f_equal. f_equal. lia.
    + rewrite digits2_pos_shift, Pos2Z.inj_add.
      unfold fexp, emin, prec, emax. lia.
    + lia.
Qed.

Lemma exactQ_ofSample (n : Z) :
  0 <= n < 2 ^ 53 →
  ∃ q : Q, exactQ (ofSample n) = Some q ∧ (q == inject_Z n)%Q.
Proof.
  intros [Hlo Hhi]. destruct n as [|p|p]; [| |lia].
  - exists 0%Q. split; [vm_compute; reflexivity | reflexivity].
  - destruct (Prim2SF_ofSample p Hhi) as (m & e & Hm & He & Hval).
    rewrite (exactQ_finite _ _ _ _ Hm). eexists. split; [reflexivity|].
    unfold ratio. destruct (Z.leb_spec 0 e).
    + assert (e = 0) as -> by lia. cbn [fst snd].
      unfold Qeq, inject_Z. cbn [Qnum Qden]. change (2 ^ (- 0)) with 1 in Hval. lia.
    + cbn [fst snd]. assert (0 < 2 ^ (- e)) by (apply Z.pow_pos_nonneg; lia).
      unfold Qeq, inject_Z. cbn [Qnum Qden]. rewrite Z2Pos.id by done. lia.
Qed.

End OfInteger.

(** ** [Math.round] *)

Section MathRound.
Local Open Scope Z_scope.

Lemma exactQ_opp (y : number) (q : Q) :
  exactQ y = Some q →
  ∃ q' : Q, exactQ (- y)%float = Some q' ∧ (q' == - q)%Q.
Proof.
  unfold exactQ. rewrite FloatAxioms.opp_spec.
  destruct (Prim2SF y) as [s|s| |s p e]; try discriminate; cbn [SFopp].
  - intros [= <-]. exists 0%Q. split; reflexivity.
  - destruct (ratio p e) as [num den]. intros [= <-].
    eexists. split; [reflexivity|].
    unfold Qeq, Qopp. cbn [Qnum Qden]. destruct s; cbn [negb]; lia.
Qed.

Lemma roundHalfUp_bounds num den :
  0 < den → 0 <= num →
  2 * num - den < 2 * (roundHalfUp num den * den)
  ∧ 2 * (roundHalfUp num den * den) <= 2 * num + den.
Proof.
  intros Hden Hnum. unfold roundHalfUp.
  pose proof (Z.div_mod num den ltac:(lia)) as Hdm.
  pose proof (Z.mod_pos_bound num den Hden) as Hmod.
  destruct (Z.leb_spec den (2 * (num mod den))); nia.
Qed.

Lemma roundHalfUpNeg_bounds num den :
  0 < den → 0 <= num →
  2 * (- num) - den < 2 * (- roundHalfUpNeg num den * den)
  ∧ 2 * (- roundHalfUpNeg num den * den) <= 2 * (- num) + den.
Proof.
  intros Hden Hnum. unfold roundHalfUpNeg.
  pose proof (Z.div_mod num den ltac:(lia)) as Hdm.
  pose proof (Z.mod_pos_bound num den Hden) as Hmod.
  destruct (Z.ltb_spec den (2 * (num mod den))); nia.
Qed.

(** The quotient of a mantissa by a proper power of two is below 2^52. *)
Lemma ratio_quotient_bound (x : number) s p e num den :
  Prim2SF x = S754_finite s p e → ratio p e = (num, den) →
  num mod den ≠ 0 →
  0 <= num / den ∧ num / den + 1 < 2 ^ 53.
Proof.
  intros Hx Hr Hmod. pose proof (mantissa_bound x s p e Hx) as Hp.
  pose proof (ratio_pos _ _ _ _ Hr) as [Hnum Hden].
  revert Hr. unfold ratio. destruct (Z.leb_spec 0 e) as [|He]; intros [= <- <-].
  - exfalso. apply Hmod. by rewrite Z.mod_1_r.
  - assert (2 ^ 1 <= 2 ^ (- e)) by (apply Z.pow_le_mono_r; lia).
    split; [apply Z.div_pos; lia|].
    assert (Z.pos p / 2 ^ (- e) < 2 ^ 52); [|lia].
    apply Z.div_lt_upper_bound; [lia|]. change (2 ^ 53) with (2 * 2 ^ 52) in Hp.
    change (2 ^ 1) with 2 in *. nia.
Qed.

(** Math.round returns the integer nearest to its argument, the upper one
    of two that are equally near. *)
Lemma mathRound_halfUp (x : number) (q : Q) :
  exactQ x = Some q →
  ∃ (n : Z) (q' : Q),
    exactQ (mathRound x) = Some q' ∧ (q' == inject_Z n)%Q ∧ halfUp q n.
Proof.
  intros Hq. unfold mathRound.
  destruct (Prim2SF x) as [s|s| |s p e] eqn:Hx.
  - exists 0, q. unfold exactQ in Hq. rewrite Hx in Hq.
    injection Hq as <-. split; [|split; [reflexivity|split; [reflexivity|discriminate]]].
    unfold exactQ. by rewrite Hx.
  - unfold exactQ in Hq. by rewrite Hx in Hq.
  - unfold exactQ in Hq. by rewrite Hx in Hq.
  - rewrite (exactQ_finite x s p e Hx) in Hq. injection Hq as <-.
    destruct (ratio p e) as [num den] eqn:Hr. cbn [fst snd].
    pose proof (ratio_pos _ _ _ _ Hr) as [Hnum Hden].
    pose proof (Z.div_mod num den ltac:(lia)) as Hdm.
    destruct (Z.eqb_spec (num mod den) 0) as [Hz|Hnz].
    + exists (if s then - (num / den) else num / den). eexists.
      split; [rewrite (exactQ_finite x s p e Hx), Hr; reflexivity|].
      cbn [fst snd]. unfold halfUp.
      rewrite Qhalf_lt_lower, Qhalf_le_upper by done.
      split; [|destruct s; nia].
      unfold Qeq, inject_Z. cbn [Qnum Qden]. rewrite Z2Pos.id by done.
      destruct s; nia.
    + pose proof (ratio_quotient_bound x s p e num den Hx Hr Hnz) as [Hq0 Hq53].
      destruct s; cbv iota.
      * pose proof (roundHalfUpNeg_bounds num den Hden ltac:(lia)) as Hb.
        assert (Hn : 0 <= roundHalfUpNeg num den < 2 ^ 53).
        { unfold roundHalfUpNeg. destruct (den <? 2 * (num mod den)); lia. }
        assert (Hhalf : halfUp (- num # Z.to_pos den) (- roundHalfUpNeg num den)).
        { unfold halfUp. rewrite Qhalf_lt_lower, Qhalf_le_upper by done. lia. }
        exists (- roundHalfUpNeg num den).
        destruct (Z.eqb_spec (roundHalfUpNeg num den) 0) as [H0|H0].
        -- exists 0%Q. rewrite H0 in *.
           split; [vm_compute; reflexivity|]. split; [reflexivity|done].
        -- destruct (exactQ_ofSample _ Hn) as (q1 & Hq1 & Heq1).
           destruct (exactQ_opp _ _ Hq1) as (q2 & Hq2 & Heq2).
           exists q2. split; [done|]. split; [|done].
           rewrite Heq2, Heq1. unfold Qeq, Qopp, inject_Z. cbn [Qnum Qden]. lia.
      * pose proof (roundHalfUp_bounds num den Hden ltac:(lia)) as Hb.
        assert (Hn : 0 <= roundHalfUp num den < 2 ^ 53).
        { unfold roundHalfUp. destruct (den <=? 2 * (num mod den)); lia. }
        assert (Hhalf : halfUp (num # Z.to_pos den) (roundHalfUp num den)).
        { unfold halfUp. rewrite Qhalf_lt_lower, Qhalf_le_upper by done. lia. }
        exists (roundHalfUp num den).
        destruct (exactQ_ofSample _ Hn) as (q1 & Hq1 & Heq1).
        exists q1. split; [done|]. split; done.
Qed.

End MathRound.

(** ** Products, sums and differences from below and above *)

Section Products.
Local Open Scope Z_scope.

Lemma pow2_lt_inv (a b : Z) : 0 <= b → 2 ^ a < 2 ^ b → a < b.
Proof.
  intros Hb Hlt. destruct (Z.lt_ge_cases a b) as [|Hge]; [done|].
  assert (2 ^ b <= 2 ^ a) by (apply Z.pow_le_mono_r; lia). lia.
Qed.

(** A normal positive number: 53 bits of mantissa. *)
Lemma atLeast_normal (n : Z) (m : positive) (e : Z) :
  valid_binary (S754_finite false m e) = true →
  -1000 <= n → n < Z.pos (digits2_pos m) + e →
  Z.pos (digits2_pos m) = 53 ∧ 2 ^ 52 <= Z.pos m < 2 ^ 53 ∧ n - 53 < e.
Proof.
  intros Hv Hn Hm. apply valid_finite in Hv as (He & Hd & Hnorm).
  assert (Hd53 : Z.pos (digits2_pos m) = 53) by (apply Hnorm; lia).
  pose proof (digits2_pos_bound m) as Hhi.
  pose proof (digits2_pos_lower m) as Hlo.
  rewrite Hd53 in Hhi, Hlo. change (2 ^ (53 - 1)) with (2 ^ 52) in Hlo.
  split; [done|]. split; [lia|]. lia.
Qed.

(** The product of two numbers of at least [2^a] and [2^b] is at least
    [2^(a+b)]. *)
Lemma SFmul_atLeast (a b : Z) (X Y : spec_float) :
  valid_binary X = true → valid_binary Y = true →
  -500 <= a → -500 <= b →
  atLeastPow2 a X → atLeastPow2 b Y →
  atLeastPow2 (a + b) (SFmul prec emax X Y).
Proof.
  intros HvX HvY Ha Hb [->|(mx & ex & -> & Hx)] [->|(my & ey & -> & Hy)];
    try (by left).
  destruct (atLeast_normal a mx ex HvX ltac:(lia) Hx) as (Hdx & Hmx & Hex).
  destruct (atLeast_normal b my ey HvY ltac:(lia) Hy) as (Hdy & Hmy & Hey).
  cbn [SFmul xorb].
  set (p := (mx * my)%positive).
  assert (Hp : 2 ^ 104 <= Z.pos p < 2 ^ 106).
  { unfold p. rewrite Pos2Z.inj_mul.
    change (2 ^ 104) with (2 ^ 52 * 2 ^ 52). change (2 ^ 106) with (2 ^ 53 * 2 ^ 53).
    split; [apply Z.mul_le_mono_nonneg; lia | apply Z.mul_lt_mono_nonneg; lia]. }
  pose proof (digits2_pos_bound p) as Hhi.
  assert (Hd : 104 < Z.pos (digits2_pos p)).
  { apply pow2_lt_inv; lia. }
  destruct (binary_round_aux_bounds false p (ex + ey) ltac:(lia) ltac:(lia))
    as [[-> _]|(m' & e' & -> & He' & Hlow & _)]; [by left|].
  right. exists m', e'. split; [done|].
  pose proof (digits2_pos_bound m') as Hm'.
  assert (Hpow : 2 ^ (Z.pos (digits2_pos p) - 1)
                 < 2 ^ (Z.pos (digits2_pos m') + (e' - (ex + ey)))).
  { rewrite Z.pow_add_r by lia.
    eapply Z.le_lt_trans; [exact Hlow|].
    apply Z.mul_lt_mono_pos_r; [apply Z.pow_pos_nonneg; lia | done]. }
  apply pow2_lt_inv in Hpow; lia.
Qed.

End Products.

Section Sums.
Local Open Scope Z_scope.

Lemma shl_align_fst (m : positive) (e ez : Z) :
  ez <= e → Z.pos (fst (shl_align m e ez)) = Z.pos m * 2 ^ (e - ez).
Proof.
  intros Hle. unfold shl_align.
  destruct (ez - e) as [|d|d] eqn:Hd; cbn [fst]; [| lia |].
  - replace (e - ez) with 0 by lia. lia.
  - rewrite Zpos_shift. do 2 f_equal. lia.
Qed.

(** With at least 53 bits there is nothing to shift left before rounding. *)
Lemma binary_round_wide (s : bool) (p : positive) (e : Z) :
  53 <= Z.pos (digits2_pos p) →
  binary_round prec emax s p e
  = binary_round_aux prec emax s (Z.pos p) e loc_Exact.
Proof.
  intros Hd. unfold binary_round, shl_align.
  assert (Hf : 0 <= fexp prec emax (Z.pos (digits2_pos p) + e) - e).
  { unfold fexp, emin, prec, emax. lia. }
  by destruct (fexp prec emax (Z.pos (digits2_pos p) + e) - e) as [|k|k]; [| |lia].
Qed.

(** A number of [1, 256) plus a number of at least [2^-38] is above it. *)
Lemma SFadd_gt (mg : positive) (eg : Z) (Y : spec_float) :
  valid_binary (S754_finite false mg eg) = true →
  0 < Z.pos (digits2_pos mg) + eg <= 8 →
  valid_binary Y = true → atLeastPow2 (-38) Y →
  valid_binary (SFadd prec emax (S754_finite false mg eg) Y) = true →
  SFltb (S754_finite false mg eg) (SFadd prec emax (S754_finite false mg eg) Y)
  = true.
Proof.
  intros Hvg Hg HvY [->|(mG & eG & -> & HG)] Hvr; [done|].
  destruct (atLeast_normal 0 mg eg Hvg ltac:(lia) ltac:(lia)) as (Hdg & Hmg & Heg).
  destruct (atLeast_normal (-38) mG eG HvY ltac:(lia) HG) as (HdG & HmG & HeG).
  revert Hvr. cbn [SFadd cond_Zopp].
  set (ez := Z.min eg eG).
  pose proof (shl_align_fst mg eg ez ltac:(lia)) as HA.
  pose proof (shl_align_fst mG eG ez ltac:(lia)) as HB.
  set (a := fst (shl_align mg eg ez)) in *.
  set (b := fst (shl_align mG eG ez)) in *.
  change (Z.pos a + Z.pos b) with (Z.pos (a + b)). cbn [binary_normalize].
  assert (Hpa : 0 < 2 ^ (eg - ez)) by (apply Z.pow_pos_nonneg; lia).
  assert (Hpb : 0 < 2 ^ (eG - ez)) by (apply Z.pow_pos_nonneg; lia).
  (* the value of the first term is below 2^8, the second at least 2^-38 *)
  assert (HAhi : Z.pos a < 2 ^ (8 - ez)).
  { rewrite HA. replace (8 - ez) with (53 + (eg - ez) + (8 - 53 - eg)) by lia.
    rewrite !Z.pow_add_r by lia.
    pose proof (Z.pow_pos_nonneg 2 (8 - 53 - eg) ltac:(lia) ltac:(lia)).
    change (2 ^ 53) with 9007199254740992 in *. nia. }
  assert (HBlo : 2 ^ (-38 - ez) <= Z.pos b).
  { rewrite HB. replace (-38 - ez) with ((-38 - eG) + (eG - ez)) by lia.
    destruct (Z.le_gt_cases 0 (-38 - eG)) as [Hc|Hc].
    - rewrite Z.pow_add_r by lia.
      apply Z.mul_le_mono_nonneg_r; [lia|].
      assert (2 ^ (-38 - eG) <= 2 ^ 52) by (apply Z.pow_le_mono_r; lia). lia.
    - assert (2 ^ (-38 - eG + (eG - ez)) <= 2 ^ (eG - ez))
        by (apply Z.pow_le_mono_r; lia).
      nia. }
  set (p := (a + b)%positive).
  assert (Hp : Z.pos p = Z.pos a + Z.pos b) by (unfold p; lia).
  pose proof (digits2_pos_bound p) as Hphi.
  pose proof (digits2_pos_lower p) as Hplo.
  assert (Hd : 53 <= Z.pos (digits2_pos p)).
  { assert (52 < Z.pos (digits2_pos p)); [|lia].
    apply pow2_lt_inv; [lia|]. nia. }
  rewrite binary_round_wide by done.
  destruct (binary_round_aux_bounds false p ez Hd ltac:(lia))
    as [[-> _]|(m' & e' & -> & He' & _ & Hlow & _)]; [done|].
  intros Hvr. unfold SFltb.
  rewrite (SFcompare_lt mg m' eg e' ez Hvg Hvr ltac:(lia) ltac:(lia)); [done|].
  rewrite <- HA. eapply Z.le_lt_trans; [|exact Hlow].
  (* the second term is at least one unit of the last place of the sum *)
  set (d := Z.pos (digits2_pos p)) in *.
  assert (Hulp : 2 ^ (d - 53) <= Z.pos b); [|lia].
  destruct (Z.le_gt_cases (Z.pos b) (2 ^ (8 - ez))) as [Hsmall|Hbig].
  - assert (Z.pos p < 2 ^ (9 - ez)).
    { replace (9 - ez) with (1 + (8 - ez)) by lia.
      rewrite Z.pow_add_r by lia. change (2 ^ 1) with 2. lia. }
    assert (d - 1 < 9 - ez) by (apply pow2_lt_inv; lia).
    assert (2 ^ (d - 53) <= 2 ^ (-38 - ez)) by (apply Z.pow_le_mono_r; lia).
    lia.
  - assert (2 ^ (d - 1) < 2 * Z.pos b) by lia.
    replace (d - 1) with ((d - 53) + 52) in H by lia.
    rewrite Z.pow_add_r in H by lia.
    assert (0 < 2 ^ (d - 53)) by (apply Z.pow_pos_nonneg; lia).
    change (2 ^ 52) with 4503599627370496 in H. nia.
Qed.

End Sums.

Section Differences.
Local Open Scope Z_scope.

(** A number of [1, 256) minus a number of at least [2^-41] is below it. *)
Lemma SFsub_lt (mr : positive) (er : Z) (Y : spec_float) :
  valid_binary (S754_finite false mr er) = true →
  0 < Z.pos (digits2_pos mr) + er <= 8 →
  valid_binary Y = true → atLeastPow2 (-41) Y →
  valid_binary (SFsub prec emax (S754_finite false mr er) Y) = true →
  SFltb (SFsub prec emax (S754_finite false mr er) Y) (S754_finite false mr er)
  = true.
Proof.
  intros Hvr Hr HvY [->|(mC & eC & -> & HC)] Hvres; [done|].
  destruct (atLeast_normal 0 mr er Hvr ltac:(lia) ltac:(lia)) as (Hdr & Hmr & Her).
  destruct (atLeast_normal (-41) mC eC HvY ltac:(lia) HC) as (HdC & HmC & HeC).
  revert Hvres. cbn [SFsub cond_Zopp].
  set (ez := Z.min er eC).
  pose proof (shl_align_fst mr er ez ltac:(lia)) as HA.
  pose proof (shl_align_fst mC eC ez ltac:(lia)) as HB.
  set (a := fst (shl_align mr er ez)) in *.
  set (b := fst (shl_align mC eC ez)) in *.
  assert (Hpa : 0 < 2 ^ (er - ez)) by (apply Z.pow_pos_nonneg; lia).
  assert (Hpb : 0 < 2 ^ (eC - ez)) by (apply Z.pow_pos_nonneg; lia).
  assert (HAhi : Z.pos a < 2 ^ (8 - ez)).
  { rewrite HA. replace (8 - ez) with (53 + (er - ez) + (8 - 53 - er)) by lia.
    rewrite !Z.pow_add_r by lia.
    pose proof (Z.pow_pos_nonneg 2 (8 - 53 - er) ltac:(lia) ltac:(lia)).
    change (2 ^ 53) with 9007199254740992 in *. nia. }
  assert (HBlo : 2 ^ (-41 - ez) <= Z.pos b).
  { rewrite HB. replace (-41 - ez) with ((-41 - eC) + (eC - ez)) by lia.
    destruct (Z.le_gt_cases 0 (-41 - eC)) as [Hc|Hc].
    - rewrite Z.pow_add_r by lia.
      apply Z.mul_le_mono_nonneg_r; [lia|].
      assert (2 ^ (-41 - eC) <= 2 ^ 52) by (apply Z.pow_le_mono_r; lia). lia.
    - assert (2 ^ (-41 - eC + (eC - ez)) <= 2 ^ (eC - ez))
        by (apply Z.pow_le_mono_r; lia).
      nia. }
  destruct (Z.pos a - Z.pos b) as [|q|q] eqn:Hdiff; cbn [binary_normalize].
  - done.
  - pose proof (digits2_pos_bound q) as Hqhi.
    pose proof (digits2_pos_lower q) as Hqlo.
    set (d := Z.pos (digits2_pos q)) in *.
    assert (Hdq : d <= 8 - ez).
    { assert (d - 1 < 8 - ez); [|lia]. apply pow2_lt_inv; lia. }
    destruct (Z.le_gt_cases 53 d) as [Hwide|Hnarrow].
    + rewrite binary_round_wide by done.
      destruct (binary_round_aux_bounds false q ez Hwide ltac:(fold d; lia))
        as [[_ Hov]|(m' & e' & -> & He' & _ & _ & Hup)]; [fold d in Hov; lia|].
      fold d in He', Hup.
      intros Hvres. unfold SFltb.
      rewrite (SFcompare_lt m' mr e' er ez Hvres Hvr ltac:(lia) ltac:(lia)); [done|].
      rewrite <- HA. eapply Z.le_lt_trans; [exact Hup|].
      assert (2 ^ (d - 53) < 2 ^ (-41 - ez)) by (apply Z.pow_lt_mono_r; lia).
      lia.
    + unfold binary_round, shl_align. fold d.
      assert (Hf : fexp prec emax (d + ez) = d + ez - 53).
      { unfold fexp, emin, prec, emax. lia. }
      rewrite Hf.
      destruct (d + ez - 53 - ez) as [|k|k] eqn:Hk; [lia|lia|].
      assert (Hk' : Z.pos k = 53 - d) by lia.
      rewrite binary_round_aux_canonical.
      * intros Hvres. unfold SFltb.
        rewrite (SFcompare_lt _ mr _ er (d + ez - 53) Hvres Hvr
                   ltac:(lia) ltac:(lia)); [done|].
        rewrite Z.sub_diag, Z.mul_1_r, Zpos_shift, Hk'.
        replace (er - (d + ez - 53)) with ((er - ez) + (53 - d)) by lia.
        rewrite Z.pow_add_r, Z.mul_assoc, <- HA by lia.
        apply Z.mul_lt_mono_pos_r; [apply Z.pow_pos_nonneg; lia | lia].
      * rewrite digits2_pos_shift, Pos2Z.inj_add. fold d.
        unfold fexp, emin, prec, emax. lia.
      * lia.
  - unfold binary_round.
    destruct (shl_align q ez _) as [mz ez'].
    pose proof (binary_round_aux_sign true mz ez') as Hs.
    intros _. unfold SFltb.
    by destruct (binary_round_aux prec emax true (Z.pos mz) ez' loc_Exact)
      as [s|s| |s m' e']; [subst s..| |subst s].
Qed.

End Differences.

(** ** A magenta change alone *)

Section Magenta.
Local Open Scope float_scope.

Lemma sub_zero_r (x : number) : x - 0 = x.
Proof.
  apply Prim2SF_inj. rewrite FloatAxioms.sub_spec, Prim2SF_0.
  by destruct (Prim2SF x) as [[|]|[|]| |s m e].
Qed.

Lemma add_zero_r_finite (x : number) s m e :
  Prim2SF x = S754_finite s m e → x + 0 = x.
Proof.
  intros Hx. apply Prim2SF_inj. rewrite FloatAxioms.add_spec, Prim2SF_0, Hx.
  reflexivity.
Qed.

Lemma inside_shape (z : Z) :
  strictlyInside z →
  ∃ (m : positive) (e : Z),
    Prim2SF (ofSample z) = S754_finite false m e
    ∧ (0 < Z.pos (digits2_pos m) + e <= 8)%Z.
Proof.
  intros [Hlo Hhi].
  assert (H : insideShape z = true).
  { assert (Hall : forallb (λ n, insideShape (Z.of_nat n)) (seq 1 254) = true)
      by (vm_compute; reflexivity).
    rewrite forallb_forall in Hall. specialize (Hall (Z.to_nat z)).
    rewrite Z2Nat.id in Hall by lia. apply Hall, in_seq. lia. }
  unfold insideShape in H.
  destruct (Prim2SF (ofSample z)) as [|[|]| |[|] m e]; try discriminate.
  exists m, e. split; [done|].
  apply andb_prop in H as [H1 H2]. apply Z.ltb_lt in H1. apply Z.leb_le in H2. lia.
Qed.

Lemma threshold_atLeast (M : number) :
  (magentaThreshold <=? M) = true → atLeastPow2 (-38) (Prim2SF M).
Proof.
  rewrite FloatAxioms.leb_spec.
  pose proof (Prim2SF_valid M) as Hv.
  assert (HT : ∃ mT, Prim2SF magentaThreshold = S754_finite false mT (-90)).
  { eexists. vm_compute. reflexivity. }
  destruct HT as [mT ->]. unfold SFleb.
  destruct (Prim2SF M) as [s|[|]| |[|] m e]; cbn -[Z.compare Pos.compare_cont];
    try discriminate; [by left|].
  intros Hcmp. right. exists m, e. split; [done|].
  assert (He : (-90 <= e)%Z).
  { destruct (Z.compare_spec (-90) e); [lia | lia | discriminate]. }
  apply valid_finite in Hv as (_ & _ & Hn). rewrite Hn by lia. lia.
Qed.

Lemma threshold_positive (M : number) :
  (magentaThreshold <=? M) = true → (0 <? M) = true.
Proof.
  intros HM. apply threshold_atLeast in HM.
  rewrite FloatAxioms.ltb_spec, Prim2SF_0.
  by destruct HM as [->|(m & e & -> & _)].
Qed.

Lemma strength_atLeast : atLeastPow2 0 (Prim2SF STRENGTH).
Proof. right. eexists _, _. split; [vm_compute; reflexivity|]. vm_compute. reflexivity. Qed.

Lemma xtalk_atLeast : atLeastPow2 (-3) (Prim2SF XTALK).
Proof. right. eexists _, _. split; [vm_compute; reflexivity|]. vm_compute. reflexivity. Qed.

Lemma gain_atLeast (M : number) :
  (magentaThreshold <=? M) = true →
  atLeastPow2 (-38) (Prim2SF (M * STRENGTH))
  ∧ atLeastPow2 (-41) (Prim2SF (M * STRENGTH * XTALK)).
Proof.
  intros HM.
  assert (HG : atLeastPow2 (-38) (Prim2SF (M * STRENGTH))).
  { rewrite FloatAxioms.mul_spec.
    apply (SFmul_atLeast (-38) 0); try apply Prim2SF_valid; try lia.
    - by apply threshold_atLeast.
    - apply strength_atLeast. }
  split; [done|].
  rewrite FloatAxioms.mul_spec.
  apply (SFmul_atLeast (-38) (-3)); try apply Prim2SF_valid; try lia; [done|].
  apply xtalk_atLeast.
Qed.

(** Above the threshold a magenta change alone raises green and lowers red
    and blue, before clamping, on every sample strictly inside the range. *)
Lemma magenta_signs (M : number) (r g b : Z) :
  (magentaThreshold <=? M) = true →
  strictlyInside r → strictlyInside g → strictlyInside b →
  crosstalkSign (mkCMY 0 M 0) r g b.
Proof.
  intros HM Hr Hg Hb.
  destruct (gain_atLeast M HM) as [HG HC].
  destruct (inside_shape r Hr) as (mr & er & Hpr & Hsr).
  destruct (inside_shape g Hg) as (mg & eg & Hpg & Hsg).
  destruct (inside_shape b Hb) as (mb & eb & Hpb & Hsb).
  unfold crosstalkSign, newR, newG, newB, gainR, gainG, gainB. cbn [c m y].
  change (0 * STRENGTH * XTALK) with 0. change (0 * STRENGTH) with 0.
  rewrite !sub_zero_r.
  rewrite (add_zero_r_finite _ _ _ _ Hpr), (add_zero_r_finite _ _ _ _ Hpb).
  rewrite !FloatAxioms.ltb_spec.
  repeat split.
  - pose proof (Prim2SF_valid (ofSample g + M * STRENGTH)) as Hv.
    pose proof (Prim2SF_valid (ofSample g)) as Hvg.
    rewrite FloatAxioms.add_spec in *. rewrite Hpg in *.
    apply SFadd_gt; try done. apply Prim2SF_valid.
  - pose proof (Prim2SF_valid (ofSample r - M * STRENGTH * XTALK)) as Hv.
    pose proof (Prim2SF_valid (ofSample r)) as Hvr.
    rewrite FloatAxioms.sub_spec in *. rewrite Hpr in *.
    apply SFsub_lt; try done. apply Prim2SF_valid.
  - pose proof (Prim2SF_valid (ofSample b - M * STRENGTH * XTALK)) as Hv.
    pose proof (Prim2SF_valid (ofSample b)) as Hvb.
    rewrite FloatAxioms.sub_spec in *. rewrite Hpb in *.
    apply SFsub_lt; try done. apply Prim2SF_valid.
Qed.

End Magenta.

(** ** The render pass *)

Section RenderPass.

Lemma transform_heap (P : list Z) :
  let h : heap := {[ 0%nat := P; 1%nat := replicate (length P) 0%Z ]} in
  h !! 0%nat = Some P ∧ h !! 1%nat = Some (replicate (length P) 0%Z).
Proof.
  cbv zeta. split.
  - apply lookup_insert_eq.
  - rewrite lookup_insert_ne by done. apply lookup_singleton_eq.
Qed.

(** The render pass is the loop on a zero-filled buffer. *)
Lemma transform_listLoop (P : list Z) (delta : CMYValues) :
  transform P delta
  = listLoop (length P) P delta 0 (replicate (length P) 0%Z).
Proof.
  destruct (transform_heap P) as [HP HD]. unfold transform.
  by rewrite (processImageBuffer_destination 0%nat 1%nat delta ltac:(done)
                _ P _ HP HD).
Qed.

Lemma length_transform (P : list Z) (delta : CMYValues) :
  length (transform P delta) = length P.
Proof. by rewrite transform_listLoop, length_listLoop, length_replicate. Qed.

(** A pass with the zero delta into a destination of equal length copies
    the source. *)
Lemma zero_delta_pass (h : heap) (source destination : ref)
    (P D : list Z) :
  source ≠ destination →
  h !! source = Some P → h !! destination = Some D →
  Forall u8 P → length D = length P →
  processImageBuffer source destination (mkCMY 0 0 0) h !! destination
  = Some P.
Proof.
  intros Hne HP HD Hu8 Hlen.
  destruct (pass_length _ _ (mkCMY 0 0 0) Hne h P D HP HD) as (D' & HD' & Hlen').
  rewrite HD'. f_equal. apply list_eq. intros j.
  destruct (decide (j < length P)%nat) as [Hj|Hj].
  - pose proof (Nat.div_mod_eq j 4) as Hdiv.
    pose proof (Nat.mod_upper_bound j 4 ltac:(lia)) as Hmod.
    set (k := (j / 4)%nat) in *. set (ch := (j mod 4)%nat) in *.
    pose proof (pass_sample _ _ (mkCMY 0 0 0) Hne h P D k ch HP HD) as Hs.
    rewrite <- Hdiv in Hs.
    rewrite (sampleAt_lookup _ _ _ _ HD') in Hs.
    rewrite Hs by lia.
    destruct (lookup_lt_is_Some_2 P j Hj) as [z Hz].
    pose proof (Forall_u8_lookup _ _ _ Hu8 Hz) as Hzu8.
    destruct (zero_delta_sample z Hzu8) as (HR & HG & HB).
    rewrite Hz. f_equal. rewrite Hdiv in Hz.
    destruct ch as [|[|[|[|ch]]]]; [| | | |lia]; unfold outAt.
    + rewrite Nat.add_0_r in Hz. unfold outR.
      by rewrite (sampleNum_Some _ _ _ Hz).
    + unfold outG. by rewrite (sampleNum_Some _ _ _ Hz).
    + unfold outB. by rewrite (sampleNum_Some _ _ _ Hz).
    + unfold outA. rewrite (sampleNum_Some _ _ _ Hz).
      by apply sample_roundtrip.
  - rewrite !lookup_ge_None_2 by lia. done.
Qed.

(** A pass into a distinct destination of equal length copies the alpha
    sample of every pixel it reaches, whatever the delta. *)
Lemma alpha_pass (h : heap) (source destination : ref)
    (delta : CMYValues) (P D : list Z) (k : nat) :
  source ≠ destination →
  h !! source = Some P → h !! destination = Some D →
  Forall u8 P → length D = length P →
  (4 * k < length P)%nat →
  sampleAt (processImageBuffer source destination delta h) destination
    (4 * k + 3)
  = P !! (4 * k + 3)%nat.
Proof.
  intros Hne HP HD Hu8 Hlen Hk.
  destruct (decide (4 * k + 3 < length P)%nat) as [Hj|Hj].
  - rewrite (pass_sample _ _ delta Hne h P D k 3 HP HD) by lia.
    destruct (lookup_lt_is_Some_2 P _ Hj) as [z Hz].
    rewrite Hz. f_equal. unfold outAt, outA.
    rewrite (sampleNum_Some _ _ _ Hz).
    apply sample_roundtrip. by eapply Forall_u8_lookup.
  - destruct (pass_length _ _ delta Hne h P D HP HD) as (D' & HD' & Hlen').
    rewrite (sampleAt_lookup _ _ _ _ HD').
    rewrite !lookup_ge_None_2 by lia. done.
Qed.

(** Whatever the source holds and whatever the delta, the render pass
    returns 8-bit samples only. *)
Lemma transform_samples_u8 (P : list Z) (delta : CMYValues) :
  Forall u8 (transform P delta).
Proof.
  apply Forall_lookup_2. intros j z Hj.
  pose proof (lookup_lt_Some _ _ _ Hj) as Hlt.
  rewrite length_transform in Hlt.
  rewrite transform_listLoop in Hj.
  pose proof (Nat.div_mod_eq j 4) as Hdiv.
  pose proof (Nat.mod_upper_bound j 4 ltac:(lia)) as Hmod.
  set (k := (j / 4)%nat) in *. set (ch := (j mod 4)%nat) in *.
  pose proof (listLoop_lookup P delta k (length P) 0 ch
                (replicate (length P) 0%Z)) as Hs.
  rewrite !Nat.add_0_l, <- Hdiv, length_replicate in Hs.
  rewrite Hs in Hj by lia.
  assert (Hz : z = outAt P delta (4 * k) ch) by congruence.
  rewrite Hz. unfold outAt, outR, outG, outB, outA.
  destruct ch as [|[|[|?]]]; apply ToUint8Clamp_u8.
Qed.

End RenderPass.

(** ** Arithmetic of numbers *)

Section NumberFacts.

Local Open Scope float_scope.

(** Multiplication of numbers is commutative, NaN and zeros included. *)
Lemma number_mul_comm (x y : number) : x * y = y * x.
Proof.
  apply Prim2SF_inj. rewrite !FloatAxioms.mul_spec.
  destruct (Prim2SF x) as [sx|sx| |sx mx ex], (Prim2SF y) as [sy|sy| |sy my ey];
    simpl; rewrite ?(xorb_comm sx sy); try reflexivity.
  by rewrite (Pos.mul_comm mx my), (Z.add_comm ex ey).
Qed.

End NumberFacts.

(** ** The claims *)

Section Claims.

Local Open Scope float_scope.

(** C1: for every pixel of the source the pass computes the gains
    [delta.C * 1.8], [delta.M * 1.8], [delta.Y * 1.8] and stores, at the
    offsets of the pixel's red, green and blue samples, the full linear
    combination of the claim clamped once to [0, 255] (and converted by the
    store into the 8-bit array). *)
Theorem pass_writes_mixed_pixel (h : heap) (source destination : ref)
    (delta : CMYValues) (P D : list Z) (k : nat) (r g b : Z) :
  source ≠ destination →
  h !! source = Some P → h !! destination = Some D →
  P !! (4 * k)%nat = Some r → P !! (4 * k + 1)%nat = Some g →
  P !! (4 * k + 2)%nat = Some b →
  (4 * k + 2 < length D)%nat →
  let gainRed := delta.(c) * 1.8 in
  let gainGreen := delta.(m) * 1.8 in
  let gainBlue := delta.(y) * 1.8 in
  let h' := processImageBuffer source destination delta h in
  sampleAt h' destination (4 * k)
  = Some (ToUint8Clamp (clamp
      (ofSample r + gainRed - 0.15 * gainGreen - 0.15 * gainBlue)))
  ∧ sampleAt h' destination (4 * k + 1)
  = Some (ToUint8Clamp (clamp
      (ofSample g + gainGreen - 0.15 * gainRed - 0.15 * gainBlue)))
  ∧ sampleAt h' destination (4 * k + 2)
  = Some (ToUint8Clamp (clamp
      (ofSample b + gainBlue - 0.15 * gainRed - 0.15 * gainGreen))).
Proof.
  intros Hne HP HD Hr Hg Hb Hlen; cbv zeta.
  assert (Hk : (4 * k < length P)%nat) by (by eapply lookup_lt_Some).
  pose proof (pass_sample _ _ delta Hne h P D k 0 HP HD Hk) as H0.
  pose proof (pass_sample _ _ delta Hne h P D k 1 HP HD Hk) as H1.
  pose proof (pass_sample _ _ delta Hne h P D k 2 HP HD Hk) as H2.
  rewrite Nat.add_0_r in H0.
  rewrite H0, H1, H2 by lia. unfold outAt, outR, outG, outB.
  rewrite (sampleNum_Some _ _ _ Hr), (sampleNum_Some _ _ _ Hg),
    (sampleNum_Some _ _ _ Hb).
  rewrite !(number_mul_comm 0.15). done.
Qed.

(** C2: the delta calculator returns [target.X - base.X] on each of the
    three channels, for every pair of settings: it is a total function of
    its two arguments alone and applies no clamping. *)
Theorem calculateDelta_channels (base target : CMYValues) :
  (calculateDelta base target).(c) = target.(c) - base.(c)
  ∧ (calculateDelta base target).(m) = target.(m) - base.(m)
  ∧ (calculateDelta base target).(y) = target.(y) - base.(y).
Proof. repeat split. Qed.

(** C5: with a destination that is not the source, a pass leaves the source
    buffer, and every buffer but the destination, as it was. *)
Theorem source_not_mutated (h : heap) (source destination : ref)
    (delta : CMYValues) :
  source ≠ destination →
  processImageBuffer source destination delta h !! source = h !! source
  ∧ ∀ a : ref, a ≠ destination →
      processImageBuffer source destination delta h !! a = h !! a.
Proof.
  intros Hne. split; [|intros a Ha]; by apply pixelLoop_other.
Qed.

(** C3: the render pass with the all-zero delta returns a buffer of 8-bit
    samples exactly as it was, alpha included, and so does a pass with the
    all-zero delta into any distinct destination of equal length. *)
Theorem zero_delta_identity (P : list Z) :
  Forall u8 P →
  transform P (mkCMY 0 0 0) = P
  ∧ ∀ (h : heap) (source destination : ref) (D : list Z),
      source ≠ destination →
      h !! source = Some P → h !! destination = Some D →
      length D = length P →
      processImageBuffer source destination (mkCMY 0 0 0) h !! destination
      = Some P.
Proof.
  intros Hu8. split.
  - destruct (transform_heap P) as [HP HD]. unfold transform.
    rewrite (zero_delta_pass _ 0%nat 1%nat P _ ltac:(done) HP HD Hu8); [done|].
    apply length_replicate.
  - intros h source destination D Hne HP HD Hlen.
    by apply (zero_delta_pass h source destination P D).
Qed.

(** C4: whatever the delta, the render pass of a buffer of 8-bit samples
    returns the alpha sample of every pixel unchanged, and so does a pass
    into any distinct destination of equal length, at every pixel offset it
    processes. *)
Theorem alpha_carried_through (P : list Z) (delta : CMYValues) (k : nat) :
  Forall u8 P →
  (4 * k < length P)%nat →
  transform P delta !! (4 * k + 3)%nat = P !! (4 * k + 3)%nat
  ∧ ∀ (h : heap) (source destination : ref) (D : list Z),
      source ≠ destination →
      h !! source = Some P → h !! destination = Some D →
      length D = length P →
      sampleAt (processImageBuffer source destination delta h) destination
        (4 * k + 3)
      = sampleAt h source (4 * k + 3).
Proof.
  intros Hu8 Hk. split.
  - destruct (transform_heap P) as [HP HD].
    pose proof (alpha_pass _ 0%nat 1%nat delta P _ k ltac:(done) HP HD Hu8
                  (length_replicate _ _) Hk) as Ha.
    rewrite (sampleAt_lookup _ _ _ _
               (processImageBuffer_destination 0%nat 1%nat delta ltac:(done)
                  _ P _ HP HD)) in Ha.
    by rewrite transform_listLoop.
  - intros h source destination D Hne HP HD Hlen.
    rewrite (sampleAt_lookup h source _ P HP).
    by apply (alpha_pass h source destination delta P D k).
Qed.

(** C6: the pixel (128, 128, 128, 255) under the delta C 0, M 10, Y 0 comes
    out as (125, 146, 125, 255): the green gain is 18, green becomes 146,
    red and blue become 125.3 before the store, which holds 125. *)
Theorem concrete_scenario :
  let d := mkCMY 0 10 0 in
  transform [128; 128; 128; 255]%Z d = [125; 146; 125; 255]%Z
  ∧ gainG d = 18 ∧ gainR d = 0 ∧ gainB d = 0
  ∧ newG d (ofSample 128) = 146
  ∧ newR d (ofSample 128) = 125.3
  ∧ newB d (ofSample 128) = 125.3
  ∧ clamp 125.3 = 125.3
  ∧ ToUint8Clamp 125.3 = 125%Z.
Proof. vm_compute. repeat split. Qed.


(** C7 as stated fails: a positive magenta change too small to move a
    sample in double precision leaves green where it was. *)
Lemma tiny_magenta_is_absorbed :
  ¬ (∀ (d : CMYValues) (r g b : Z),
        strictlyInside r → strictlyInside g → strictlyInside b →
        (0 <? d.(m)) = true → d.(c) = 0 → d.(y) = 0 →
        crosstalkSign d r g b).
Proof.
  intros H.
  assert (Hin : strictlyInside 128) by (unfold strictlyInside; lia).
  destruct (H (mkCMY 0 1e-20 0) 128%Z 128%Z 128%Z Hin Hin Hin
              eq_refl eq_refl eq_refl) as [Hg _].
  vm_compute in Hg. discriminate Hg.
Qed.

(** C7, amended: for every pixel whose samples lie strictly inside (0, 255)
    and every delta with C = Y = 0 and M at least 2^-38 (plus infinity
    included), the values before clamping satisfy newG > g, newR < r and
    newB < b. *)
Theorem magenta_increase_shifts_channels (delta : CMYValues) (r g b : Z) :
  delta.(c) = 0 → delta.(y) = 0 →
  (magentaThreshold <=? delta.(m)) = true →
  strictlyInside r → strictlyInside g → strictlyInside b →
  (0 <? delta.(m)) = true
  ∧ (ofSample g <? newG delta (ofSample g)) = true
  ∧ (newR delta (ofSample r) <? ofSample r) = true
  ∧ (newB delta (ofSample b) <? ofSample b) = true.
Proof.
  destruct delta as [dc dm dy]. cbn [c m y]. intros -> -> HM Hr Hg Hb.
  split; [by apply threshold_positive|].
  by apply (magenta_signs dm r g b).
Qed.


(** C10: every colour sample a pass stores is an integer of [0, 255]: the
    clamp helper hands the store NaN, stored as 0, or a number between 0 and
    255 that may have a fraction, and the store rounds it to the nearest
    integer (the even one of two equally near). *)
Theorem stored_colour_samples_are_8bit (h : heap) (source destination : ref)
    (delta : CMYValues) (P D : list Z) (k ch : nat) :
  source ≠ destination →
  h !! source = Some P → h !! destination = Some D →
  (4 * k < length P)%nat → (ch < 3)%nat → (4 * k + ch < length D)%nat →
  ∃ z : Z,
    sampleAt (processImageBuffer source destination delta h) destination
      (4 * k + ch) = Some z
    ∧ z = ToUint8Clamp (clamp (mixAt P delta (4 * k) ch))
    ∧ u8 z
    ∧ (Prim2SF (clamp (mixAt P delta (4 * k) ch)) = S754_nan ∧ z = 0%Z
       ∨ ∃ q : Q, exactQ (clamp (mixAt P delta (4 * k) ch)) = Some q
                  ∧ (0 <= q)%Q ∧ (q <= 255)%Q ∧ halfEven q z).
Proof.
  intros Hne HP HD Hk Hch Hlen.
  exists (ToUint8Clamp (clamp (mixAt P delta (4 * k) ch))).
  split.
  { rewrite (pass_sample _ _ delta Hne h P D k ch HP HD) by lia.
    by destruct ch as [|[|[|ch]]]; [| | |lia]. }
  split; [done|]. split; [apply ToUint8Clamp_u8|].
  destruct (clamp_range (mixAt P delta (4 * k) ch)) as [Hnan|(q & Hq & H0 & H255)].
  - left. split; [done|]. unfold ToUint8Clamp. by rewrite Hnan.
  - right. exists q. repeat split; try done; by apply ToUint8Clamp_halfEven.
Qed.


(** ** The claims at the documented scenario *)

Lemma pass_writes_mixed_pixel_witness :
  sampleAt (processImageBuffer 0 1 (mkCMY 0 10 0) greyHeap) 1 0 = Some 125%Z
  ∧ sampleAt (processImageBuffer 0 1 (mkCMY 0 10 0) greyHeap) 1 1 = Some 146%Z
  ∧ sampleAt (processImageBuffer 0 1 (mkCMY 0 10 0) greyHeap) 1 2 = Some 125%Z.
Proof.
  apply (pass_writes_mixed_pixel greyHeap 0 1 (mkCMY 0 10 0)
           [128; 128; 128; 255]%Z [0; 0; 0; 0]%Z 0 128 128 128);
    first [ discriminate | reflexivity | simpl; lia ].
Defined.

Lemma zero_delta_identity_witness :
  transform [128; 128; 128; 255]%Z (mkCMY 0 0 0) = [128; 128; 128; 255]%Z.
Proof.
  apply (proj1 (zero_delta_identity [128; 128; 128; 255]%Z
                  ltac:(repeat constructor; unfold u8; lia))).
Defined.

Lemma alpha_carried_through_witness :
  transform [128; 128; 128; 255]%Z (mkCMY 0 10 0) !! 3%nat = Some 255%Z.
Proof.
  apply (proj1 (alpha_carried_through [128; 128; 128; 255]%Z (mkCMY 0 10 0) 0
                  ltac:(repeat constructor; unfold u8; lia)
                  ltac:(simpl; lia))).
Defined.

Lemma source_not_mutated_witness :
  processImageBuffer 0 1 (mkCMY 0 10 0) greyHeap !! 0%nat = greyHeap !! 0%nat.
Proof.
  apply (proj1 (source_not_mutated greyHeap 0 1 (mkCMY 0 10 0)
                  ltac:(discriminate))).
Defined.

Lemma magenta_increase_shifts_channels_witness :
  (0 <? 10) = true
  ∧ (ofSample 128 <? newG (mkCMY 0 10 0) (ofSample 128)) = true
  ∧ (newR (mkCMY 0 10 0) (ofSample 128) <? ofSample 128) = true
  ∧ (newB (mkCMY 0 10 0) (ofSample 128) <? ofSample 128) = true.
Proof.
  apply (magenta_increase_shifts_channels (mkCMY 0 10 0) 128 128 128);
    first [ reflexivity | unfold strictlyInside; lia ].
Defined.


Lemma stored_colour_samples_are_8bit_witness :
  ∃ z : Z,
    sampleAt (processImageBuffer 0 1 (mkCMY 0 10 0) greyHeap) 1 (4 * 0 + 0)
    = Some z
    ∧ z = ToUint8Clamp
            (clamp (mixAt [128; 128; 128; 255]%Z (mkCMY 0 10 0) (4 * 0) 0))
    ∧ u8 z
    ∧ (Prim2SF (clamp (mixAt [128; 128; 128; 255]%Z (mkCMY 0 10 0) (4 * 0) 0))
       = S754_nan ∧ z = 0%Z
       ∨ ∃ q : Q,
           exactQ (clamp (mixAt [128; 128; 128; 255]%Z (mkCMY 0 10 0) (4 * 0) 0))
           = Some q
           ∧ (0 <= q)%Q ∧ (q <= 255)%Q ∧ halfEven q z).
Proof.
  apply (stored_colour_samples_are_8bit greyHeap 0 1 (mkCMY 0 10 0)
           [128; 128; 128; 255]%Z [0; 0; 0; 0]%Z 0 0);
    first [ discriminate | reflexivity | simpl; lia ].
Defined.


(** ** Further evaluations *)

(** A base above the target gives a negative delta, unclamped. *)
Example delta_can_be_negative :
  calculateDelta (mkCMY 40 50 50) (mkCMY 0 20.5 200) = mkCMY (-40) (-29.5) 150.
Proof. vm_compute. reflexivity. Qed.

(** When the destination is the source itself the pass overwrites it: the
    distinctness of the two buffers is what keeps the original intact. *)
Example aliased_pass_overwrites_source :
  processImageBuffer 0 0 (mkCMY 0 10 0) greyHeap !! 0%nat
  = Some [125; 146; 125; 255]%Z.
Proof. vm_compute. reflexivity. Qed.

(** Saturation alone does not separate two passes from one doubled pass:
    with crosstalk terms that are whole numbers they agree. *)
Example saturated_passes_can_compose :
  (255 <? newR (mkCMY 100 0 0) (ofSample 250)) = true
  ∧ transform (transform [250; 128; 128; 255]%Z (mkCMY 100 0 0)) (mkCMY 100 0 0)
    = transform [250; 128; 128; 255]%Z (double (mkCMY 100 0 0)).
Proof. vm_compute. split; reflexivity. Qed.

(** Extreme and undefined deltas saturate or zero the colour samples and
    leave alpha alone. *)
Example extreme_deltas :
  transform [1; 254; 128; 255]%Z (mkCMY 400 0 0) = [255; 146; 20; 255]%Z
  ∧ transform [128; 128; 128; 255]%Z (mkCMY nan 0 0) = [0; 0; 0; 255]%Z
  ∧ transform [128; 128; 128; 255]%Z (mkCMY infinity infinity 0)
    = [0; 0; 0; 255]%Z.
Proof. vm_compute. repeat split. Qed.

(** A buffer whose length is not a multiple of 4: the last, partial pixel is
    processed as far as it reaches. *)
Example ragged_buffer :
  transform [10; 20; 30; 40; 50; 60]%Z (mkCMY 0 10 0)
  = [7; 38; 27; 40; 47; 78]%Z.
Proof. vm_compute. reflexivity. Qed.


(** Decimal halves go towards plus infinity, also when the double that
    stores the decimal lies just below the half, as for 0.35: the product by
    10 is rounded to 3.5 before [Math.round] sees it. *)
Example format_decimal_halves :
  formatValue 0.35 = 0.4
  ∧ formatValue (-0.35) = -0.3
  ∧ formatValue 0.05 = 0.1
  ∧ 0.35 * 10 = 3.5
  ∧ (∃ q : Q, exactQ 0.35 = Some q ∧ (q < 35 # 100)%Q).
Proof.
  repeat split; try (vm_compute; reflexivity).
  eexists. split; [vm_compute; reflexivity|]. reflexivity.
Qed.

End Claims.

(** * The application around the engine *)

Import App AppSpec.

(** ** The order of numbers *)

Section Order.

Local Open Scope float_scope.

Lemma SFcompare_antisym (x y : spec_float) :
  SFcompare y x = option_map CompOpp (SFcompare x y).
Proof.
  destruct x as [[|]|[|]| |[|] mx ex], y as [[|]|[|]| |[|] my ey];
    try reflexivity; cbn -[Z.compare Pos.compare_cont];
    fold (Pos.compare mx my); fold (Pos.compare my mx);
    rewrite (Z.compare_antisym ex ey), (Pos.compare_antisym mx my);
    destruct (ex ?= ey)%Z; cbn -[Pos.compare]; try reflexivity;
    destruct (mx ?= my)%positive; reflexivity.
Qed.

Lemma SFcompare_None (x y : spec_float) :
  SFcompare x y = None → x = S754_nan ∨ y = S754_nan.
Proof.
  destruct x as [| | |? ? ?], y as [| | |? ? ?]; cbn; intros H;
    try discriminate; auto.
Qed.

Lemma ltb_false_leb (a b : number) :
  is_nan a = false → is_nan b = false → (a <? b) = false → (b <=? a) = true.
Proof.
  rewrite !is_nan_spec, FloatAxioms.ltb_spec, FloatAxioms.leb_spec.
  unfold SFltb, SFleb. rewrite (SFcompare_antisym (Prim2SF a) (Prim2SF b)).
  intros Ha Hb.
  destruct (SFcompare (Prim2SF a) (Prim2SF b)) as [[| |]|] eqn:Hc;
    cbn; try done.
  apply SFcompare_None in Hc as [Hc|Hc]; rewrite Hc in *; done.
Qed.

Lemma leb_ltb_false (a b : number) :
  (a <=? b) = true → (b <? a) = false.
Proof.
  rewrite FloatAxioms.ltb_spec, FloatAxioms.leb_spec.
  unfold SFltb, SFleb. rewrite (SFcompare_antisym (Prim2SF a) (Prim2SF b)).
  destruct (SFcompare (Prim2SF a) (Prim2SF b)) as [[| |]|]; cbn; done.
Qed.

Lemma ltb_leb (a b : number) : (a <? b) = true → (a <=? b) = true.
Proof.
  rewrite FloatAxioms.ltb_spec, FloatAxioms.leb_spec. unfold SFltb, SFleb.
  destruct (SFcompare (Prim2SF a) (Prim2SF b)) as [[| |]|]; done.
Qed.

Lemma leb_refl (a : number) : is_nan a = false → (a <=? a) = true.
Proof.
  intros Ha. apply ltb_false_leb; try assumption.
  rewrite FloatAxioms.ltb_spec. unfold SFltb.
  pose proof (SFcompare_antisym (Prim2SF a) (Prim2SF a)) as H.
  destruct (SFcompare (Prim2SF a) (Prim2SF a)) as [[| |]|]; cbn in H; done.
Qed.

Lemma leb_not_nan (a b : number) :
  (a <=? b) = true → is_nan a = false ∧ is_nan b = false.
Proof.
  rewrite !is_nan_spec, FloatAxioms.leb_spec. unfold SFleb.
  destruct (Prim2SF a) as [| | |? ? ?], (Prim2SF b) as [| | |? ? ?]; cbn; done.
Qed.

(** [Math.max(lo, Math.min(hi, v))] lies between the limits, whatever the
    number [v]. *)
Lemma limit_range (lo hi v : number) :
  (lo <=? hi) = true → is_nan v = false →
  (lo <=? mathMax lo (mathMin hi v)) = true
  ∧ (mathMax lo (mathMin hi v) <=? hi) = true.
Proof.
  intros Hle Hv. destruct (leb_not_nan _ _ Hle) as [Hlo Hhi].
  assert (Hmin : is_nan (mathMin hi v) = false
                 ∧ (mathMin hi v <=? hi) = true).
  { unfold mathMin. rewrite Hhi, Hv. cbn [orb].
    destruct (hi <? v) eqn:H1; [by auto using leb_refl|].
    destruct (v <? hi) eqn:H2; [by auto using ltb_leb|].
    destruct (isNegZero hi); [by auto using leb_refl|].
    by auto using ltb_false_leb. }
  destruct Hmin as [Hn Hm]. revert Hn Hm.
  generalize (mathMin hi v) as w. intros w Hn Hm.
  unfold mathMax. rewrite Hlo, Hn. cbn [orb].
  destruct (lo <? w) eqn:H1; [by auto using ltb_leb|].
  destruct (w <? lo) eqn:H2; [by auto using leb_refl|].
  destruct (isNegZero lo); [|by auto using leb_refl].
  by auto using ltb_false_leb.
Qed.

(** The limits of a filter channel, case by case. *)
Lemma limit_cases (v : number) :
  mathMax 0 (mathMin 200 v)
  = if is_nan v then nan
    else if 200 <? v then 200 else if 0 <? v then v else 0.
Proof.
  unfold mathMin.
  change (is_nan 200) with false. change (isNegZero 200) with false.
  cbn [orb]. destruct (is_nan v) eqn:Hn; [reflexivity|].
  destruct (200 <? v); [reflexivity|].
  assert (Hmin : (if v <? 200 then v else v) = v) by (by destruct (v <? 200)).
  rewrite Hmin. unfold mathMax.
  change (is_nan 0) with false. change (isNegZero 0) with false.
  rewrite Hn. cbn [orb]. destruct (0 <? v); [reflexivity|].
  by destruct (v <? 0).
Qed.

End Order.

(** ** Sums and differences that are not numbers, and those that are *)

Section NotANumber.

Local Open Scope float_scope.

Lemma nan_eq (x : number) : is_nan x = true → x = nan.
Proof.
  rewrite is_nan_spec. intros H. apply Prim2SF_inj.
  destruct (Prim2SF x); try discriminate. reflexivity.
Qed.

Lemma add_nan_l (x : number) : nan + x = nan.
Proof. apply Prim2SF_inj. rewrite FloatAxioms.add_spec. reflexivity. Qed.

Lemma add_nan_r (x : number) : x + nan = nan.
Proof.
  apply Prim2SF_inj. rewrite FloatAxioms.add_spec.
  change (Prim2SF nan) with S754_nan. by destruct (Prim2SF x).
Qed.

Lemma sub_nan_l (x : number) : nan - x = nan.
Proof. apply Prim2SF_inj. rewrite FloatAxioms.sub_spec. reflexivity. Qed.

Lemma sub_nan_r (x : number) : x - nan = nan.
Proof.
  apply Prim2SF_inj. rewrite FloatAxioms.sub_spec.
  change (Prim2SF nan) with S754_nan. by destruct (Prim2SF x).
Qed.

Lemma mul_nan_l (x : number) : nan * x = nan.
Proof. apply Prim2SF_inj. rewrite FloatAxioms.mul_spec. reflexivity. Qed.

Lemma binary_normalize_not_nan (z e : Z) (s : bool) :
  binary_normalize prec emax z e s ≠ S754_nan.
Proof.
  destruct z as [|p|p]; cbn [binary_normalize]; [done| |];
    unfold binary_round;
    destruct (shl_align _ _ _) as [mz ez];
    match goal with
    | |- binary_round_aux _ _ ?s (Z.pos ?m) ?e _ ≠ _ =>
        pose proof (binary_round_aux_sign s m e) as H
    end;
    intros Hn; rewrite Hn in H; exact H.
Qed.

(** Adding a finite number to a number, or taking one away, gives a
    number. *)
Lemma add_finite_not_nan (x y : number) s m e :
  Prim2SF y = S754_finite s m e → is_nan x = false → is_nan (x + y) = false.
Proof.
  intros Hy. rewrite !is_nan_spec, FloatAxioms.add_spec, Hy.
  unfold SF64add.
  destruct (Prim2SF x) as [| | |sx mx ex]; cbn [SFadd]; try done.
  intros _.
  match goal with
  | |- context [binary_normalize ?p ?em ?z ?e ?s] =>
      pose proof (binary_normalize_not_nan z e s) as H;
      destruct (binary_normalize p em z e s)
  end; done.
Qed.

Lemma sub_finite_not_nan (x y : number) s m e :
  Prim2SF y = S754_finite s m e → is_nan x = false → is_nan (x - y) = false.
Proof.
  intros Hy. rewrite !is_nan_spec, FloatAxioms.sub_spec, Hy.
  unfold SF64sub.
  destruct (Prim2SF x) as [| | |sx mx ex]; cbn [SFsub]; try done.
  intros _.
  match goal with
  | |- context [binary_normalize ?p ?em ?z ?e ?s] =>
      pose proof (binary_normalize_not_nan z e s) as H;
      destruct (binary_normalize p em z e s)
  end; done.
Qed.

(** A finite number less itself is +0. *)
Lemma sub_diag (x : number) :
  (0 <=? x) = true → (x <? infinity) = true → x - x = 0.
Proof.
  rewrite FloatAxioms.leb_spec, FloatAxioms.ltb_spec. intros H0 Hi.
  apply Prim2SF_inj. rewrite FloatAxioms.sub_spec.
  change (Prim2SF 0) with (S754_zero false) in *.
  change (Prim2SF infinity) with (S754_infinity false) in Hi.
  unfold SF64sub.
  destruct (Prim2SF x) as [[|]|[|]| |sx mx ex]; try done.
  cbn [SFsub]. rewrite Z.sub_diag. reflexivity.
Qed.

End NotANumber.

(** ** The clamp and the conversion of the store *)

Section StoreClamp.

Local Open Scope Z_scope.

(** The conversion of the store does the clamping again: the stored sample
    is the same with and without [clamp]. *)
Lemma store_clamp (v : number) : ToUint8Clamp (clamp v) = ToUint8Clamp v.
Proof.
  unfold clamp.
  pose proof (mathMin_255 v) as Hmin.
  pose proof (mathMax_0 v) as Hv0.
  pose proof (Prim2SF_valid v) as Hvalid.
  assert (H255 : ToUint8Clamp (mathMax 0 255) = 255)
    by (vm_compute; reflexivity).
  assert (H0 : ToUint8Clamp 0 = 0) by (vm_compute; reflexivity).
  destruct (Prim2SF v) as [s|[|]| |[|] p e] eqn:Hv; rewrite Hmin;
    try (rewrite Hv0, H0; unfold ToUint8Clamp; rewrite Hv; reflexivity);
    try (rewrite H255; unfold ToUint8Clamp; rewrite Hv; reflexivity).
  - transitivity 0; [vm_compute; reflexivity|].
    unfold ToUint8Clamp. rewrite Hv. reflexivity.
  - assert (Hbig : 255 * snd (ratio p e) <= fst (ratio p e) →
                   ToUint8Clamp v = 255).
    { intros Hb. unfold ToUint8Clamp. rewrite Hv.
      destruct (ratio p e) as [num den]. cbn [fst snd] in Hb.
      destruct (Z.leb_spec (255 * den) num); [reflexivity|lia]. }
    destruct (Z.compare_spec e (-45)) as [->|He|He];
      [| by rewrite Hv0 | ].
    + destruct (Pos.compare_spec p mantissa255) as [Hp|Hp|Hp];
        try (by rewrite Hv0).
      rewrite H255. symmetry. apply Hbig. unfold ratio.
      change (0 <=? -45) with false. cbn [fst snd].
      apply Pos2Z.pos_lt_pos in Hp. revert Hp.
      change (Z.pos mantissa255) with 8972014882652160.
      change (2 ^ (- -45)) with 35184372088832.
      change (255 * 35184372088832) with 8972014882652160.
      lia.
    + rewrite H255. symmetry. apply Hbig.
      destruct (valid_finite false p e Hvalid) as (_ & _ & Hd).
      pose proof (digits2_pos_lower p) as Hp. rewrite Hd in Hp by lia.
      change (2 ^ (53 - 1)) with 4503599627370496 in Hp.
      unfold ratio. destruct (Z.leb_spec 0 e) as [H0e|H0e]; cbn [fst snd].
      * assert (1 <= 2 ^ e) by (apply (Z.pow_le_mono_r 2 0 e); lia).
        nia.
      * assert (2 ^ (- e) <= 2 ^ 44) by (apply Z.pow_le_mono_r; lia).
        assert (2 ^ 44 = 17592186044416) by reflexivity. lia.
Qed.

End StoreClamp.


(** ** The positions of the slider, one by one *)

Section Grid.

Lemma gridStep_all : forallb gridStep (zrange 0 401) = true.
Proof. vm_compute. reflexivity. Qed.

Lemma gridPair_all :
  (let zs := zrange 0 401 in forallb (λ i, forallb (gridPair i) zs) zs) = true.
Proof. vm_compute. reflexivity. Qed.

Lemma gridDelta_all : forallb gridDelta (zrange (-400) 801) = true.
Proof. vm_compute. reflexivity. Qed.

End Grid.

Section GridFacts.

Local Open Scope Z_scope.

Lemma zrange_In (n : nat) : ∀ lo z,
  lo <= z < lo + Z.of_nat n → In z (zrange lo n).
Proof.
  induction n as [|n IH]; intros lo z Hz; [lia|].
  cbn [zrange]. destruct (decide (z = lo)) as [->|Hne]; [by left|].
  right. apply IH. lia.
Qed.

Lemma gridStep_at (n : Z) : 0 <= n <= 400 → gridStep n = true.
Proof.
  intros Hn. pose proof gridStep_all as H.
  rewrite forallb_forall in H. apply H, zrange_In. lia.
Qed.

Lemma gridPair_at (i j : Z) :
  0 <= i <= 400 → 0 <= j <= 400 →
  (half j - half i)%float = halfZ (j - i).
Proof.
  intros Hi Hj. pose proof gridPair_all as H. cbv zeta in H.
  rewrite forallb_forall in H.
  specialize (H i (zrange_In 401 0 i ltac:(lia))).
  rewrite forallb_forall in H.
  specialize (H j (zrange_In 401 0 j ltac:(lia))).
  by apply FloatAxioms.Leibniz.eqb_spec in H.
Qed.

Lemma gridDelta_at (z : Z) :
  -400 <= z <= 400 →
  formatValue (halfZ z) = halfZ z
  ∧ (0 <? halfZ z)%float = (0 <? z)
  ∧ (0 < z → (magentaThreshold <=? halfZ z)%float = true).
Proof.
  intros Hz. pose proof gridDelta_all as H.
  rewrite forallb_forall in H.
  specialize (H z (zrange_In 801 (-400) z ltac:(lia))).
  unfold gridDelta in H. apply andb_prop in H as [H H3].
  apply andb_prop in H as [H1 H2].
  apply FloatAxioms.Leibniz.eqb_spec in H1. apply eqb_prop in H2.
  repeat split; try assumption.
  intros Hpos. apply Z.ltb_lt in Hpos. by rewrite Hpos in H3.
Qed.

(** The buttons and the slider keep a position a position. *)
Lemma limit_onGrid (n : Z) :
  0 <= n <= 400 →
  mathMax 0 (mathMin 200 (half n + 1)) = half (Z.min (n + 2) 400)
  ∧ mathMax 0 (mathMin 200 (half n - 1)) = half (Z.max (n - 2) 0)
  ∧ mathMax 0 (mathMin 200 (half n)) = half n
  ∧ (half n <=? 199)%float = (n <=? 398)
  ∧ (1 <=? half n)%float = (2 <=? n).
Proof.
  intros Hn. pose proof (gridStep_at n Hn) as H. unfold gridStep in H.
  apply andb_prop in H as [H H5]. apply andb_prop in H as [H H4].
  apply andb_prop in H as [H H3]. apply andb_prop in H as [H1 H2].
  apply FloatAxioms.Leibniz.eqb_spec in H1, H2, H3.
  apply eqb_prop in H4, H5. by repeat split.
Qed.

End GridFacts.

(** ** The settings of the application *)

Section Settings.

Local Open Scope float_scope.

Implicit Types (st : AppState) (k : key) (v x : number).

Lemma getKey_setKey (t : CMYValues) k x : getKey (setKey t k x) k = x.
Proof. by destruct k. Qed.

Lemma getKey_setKey_ne (t : CMYValues) k k' x :
  k' ≠ k → getKey (setKey t k x) k' = getKey t k'.
Proof. by destruct k, k'. Qed.

Lemma setKey_getKey (t : CMYValues) k : setKey t k (getKey t k) = t.
Proof. by destruct t, k. Qed.

Lemma setKey_setKey (t : CMYValues) k x x' :
  setKey (setKey t k x) k x' = setKey t k x'.
Proof. by destruct k. Qed.

Lemma getKey_setKey_cases (t : CMYValues) k k' x :
  getKey (setKey t k x) k' = x ∨ getKey (setKey t k x) k' = getKey t k'.
Proof. destruct k, k'; auto. Qed.

Lemma limit_inRange v :
  is_nan v = false → inRange200 (mathMax 0 (mathMin 200 v)).
Proof. intros Hv. by apply limit_range. Qed.

Lemma inRange_not_nan x : inRange200 x → is_nan x = false.
Proof. intros [_ H]. by apply leb_not_nan in H as [H _]. Qed.

Lemma inRange_sub_diag x : inRange200 x → x - x = 0.
Proof.
  intros [H0 H200]. apply sub_diag; [assumption|].
  revert H200. rewrite FloatAxioms.leb_spec, FloatAxioms.ltb_spec.
  change (Prim2SF infinity) with (S754_infinity false).
  destruct (Prim2SF x) as [|[|]| |[|] ? ?]; try done.
Qed.

Lemma update_all (holds : number → Prop) st k v :
  allSettings holds st → holds (mathMax 0 (mathMin 200 v)) →
  allSettings holds (updateTarget k v st)
  ∧ allSettings holds (updateInitial k v st).
Proof.
  intros Hst Hl.
  split; intros k'; destruct (Hst k') as [Hi Ht]; cbn;
    (split; [first [exact Hi | destruct (getKey_setKey_cases
                                  (initialCMY st) k k'
                                  (mathMax 0 (mathMin 200 v))) as [->| ->];
                                assumption]
            | destruct (getKey_setKey_cases (targetCMY st) k k'
                          (mathMax 0 (mathMin 200 v))) as [->| ->];
              assumption]).
Qed.

Lemma channelValue_all (holds : number → Prop) st k :
  allSettings holds st → holds (channelValue st k).
Proof.
  intros Hst. unfold channelValue. destruct (Hst k).
  by destruct (isInitialLocked st).
Qed.

(** An event keeps a property of the settings that the limited values of
    the buttons and of the slider have. *)
Lemma handle_all (holds : number → Prop) st ev :
  allSettings holds st →
  (∀ k, holds (mathMax 0 (mathMin 200 (channelValue st k + 1)))
        ∧ holds (mathMax 0 (mathMin 200 (channelValue st k - 1)))) →
  match ev with
  | Slide _ v => holds (mathMax 0 (mathMin 200 v))
  | _ => True
  end →
  allSettings holds (handle st ev).
Proof.
  intros Hst Hbtn Hev.
  assert (Hch : ∀ k v, holds (mathMax 0 (mathMin 200 v)) →
                       allSettings holds (channelOnChange st k v st)).
  { intros k v Hv. unfold channelOnChange.
    destruct (update_all holds st k v Hst Hv).
    by destruct (isInitialLocked st). }
  destruct ev as [k|k|k v| | | | | |]; cbn; try exact Hst.
  - apply Hch, Hbtn.
  - apply Hch, Hbtn.
  - by apply Hch.
  - destruct (isInitialLocked st); [|exact Hst].
    intros k. cbn. by destruct (Hst k).
Qed.

Lemma handle_inRange st ev :
  settingsInRange st → numeric ev → settingsInRange (handle st ev).
Proof.
  intros Hst Hev. apply handle_all; [exact Hst| |].
  - intros k.
    pose proof (inRange_not_nan _ (channelValue_all _ st k Hst)) as Hn.
    split; apply limit_inRange.
    + by apply (add_finite_not_nan _ 1 false 4503599627370496 (-52)).
    + by apply (sub_finite_not_nan _ 1 false 4503599627370496 (-52)).
  - destruct ev; try exact I. by apply limit_inRange.
Qed.

Lemma handle_onGrid st ev :
  settingsOnGrid st → gridEvent ev → settingsOnGrid (handle st ev).
Proof.
  intros Hst Hev. apply handle_all; [exact Hst| |].
  - intros k. destruct (channelValue_all _ st k Hst) as (n & Hn & ->).
    destruct (limit_onGrid n Hn) as (-> & -> & _).
    split; eexists; (split; [|reflexivity]); lia.
  - destruct ev as [| |k v| | | | | |]; try exact I.
    destruct Hev as (n & Hn & ->).
    destruct (limit_onGrid n Hn) as (_ & _ & -> & _). by exists n.
Qed.

Lemma getKey_delta st k :
  getKey (delta st) k = getKey (targetCMY st) k - getKey (initialCMY st) k.
Proof. by destruct k. Qed.

(** The delta of settings at positions of the slider is a number of half
    units, and is displayed as it is. *)
Lemma delta_onGrid st k :
  settingsOnGrid st →
  ∃ z, (-400 <= z <= 400)%Z ∧ getKey (delta st) k = halfZ z.
Proof.
  intros Hst. destruct (Hst k) as [(i & Hi & Hie) (j & Hj & Hje)].
  exists (j - i)%Z. split; [lia|].
  rewrite getKey_delta, Hie, Hje. by apply gridPair_at.
Qed.

End Settings.

(** ** The render pass of the application *)

Section Render.

Implicit Types (sg : Stage) (img : ImageData) (d : CMYValues).

Lemma fresh_buffer (hp : heap) : hp !! fresh (dom hp) = None.
Proof. apply not_elem_of_dom, is_fresh. Qed.

(** One render: the original and every buffer that exists are left as they
    are, and the canvas gets the original or its transform. *)
Lemma applyFilter_spec (b : bool) d sg img (P : list Z) :
  originalImageDataRef sg = Some img →
  buffers sg !! data img = Some P →
  length P = 4 * width img * height img →
  originalImageDataRef (applyFilter b d sg) = Some img
  ∧ (∀ a, is_Some (buffers sg !! a) →
          buffers (applyFilter b d sg) !! a = buffers sg !! a)
  ∧ canvasPixels (applyFilter b d sg) = if b then P else transform P d.
Proof.
  intros Himg HP Hlen. unfold applyFilter. rewrite Himg.
  destruct b; cbn -[Nat.mul].
  - split; [done|]. split; [done|].
    unfold putImageData. by rewrite HP.
  - set (r := fresh (dom (buffers sg))).
    pose proof (fresh_buffer (buffers sg)) as Hr. fold r in Hr.
    assert (Hne : data img ≠ r) by (intros Heq; rewrite Heq, Hr in HP; done).
    split; [done|]. split.
    + intros a [L Ha]. unfold processImageBuffer.
      rewrite pixelLoop_other by (intros ->; rewrite Hr in Ha; done).
      rewrite lookup_insert_ne by (intros <-; rewrite Hr in Ha; done).
      reflexivity.
    + unfold putImageData. cbn -[Nat.mul].
      rewrite (processImageBuffer_destination (data img) r d Hne _ P
                 (replicate (4 * width img * height img) 0%Z));
        [| by rewrite lookup_insert_ne | by rewrite lookup_insert_eq].
      cbn -[Nat.mul]. rewrite <- Hlen. symmetry. apply transform_listLoop.
Qed.

Lemma renders_keep (rs : list (bool * CMYValues)) : ∀ sg img (P : list Z),
  originalImageDataRef sg = Some img →
  buffers sg !! data img = Some P →
  length P = 4 * width img * height img →
  originalImageDataRef (renders rs sg) = Some img
  ∧ ∀ a, is_Some (buffers sg !! a) →
         buffers (renders rs sg) !! a = buffers sg !! a.
Proof.
  induction rs as [|[b d] rs IH]; intros sg img P Himg HP Hlen; [done|].
  unfold renders. cbn [fold_left fst snd]. fold (renders rs (applyFilter b d sg)).
  destruct (applyFilter_spec b d sg img P Himg HP Hlen) as (H1 & H2 & _).
  destruct (IH (applyFilter b d sg) img P H1) as [H3 H4];
    [by rewrite H2|assumption|].
  split; [assumption|]. intros a Ha.
  rewrite H4 by (by rewrite H2). by apply H2.
Qed.

End Render.

(** ** Samples that are missing, and deltas that are not numbers *)

Section Missing.

Local Open Scope float_scope.

Lemma clamp_nan : ToUint8Clamp (clamp nan) = 0%Z.
Proof. vm_compute. reflexivity. Qed.

Lemma sampleNum_None (P : list Z) j : length P ≤ j → sampleNum P j = nan.
Proof.
  intros Hj. unfold sampleNum. by rewrite (proj2 (lookup_ge_None P j)).
Qed.

Lemma newR_nan d : newR d nan = nan.
Proof. unfold newR. by rewrite add_nan_l, !sub_nan_l. Qed.

Lemma newG_nan d : newG d nan = nan.
Proof. unfold newG. by rewrite add_nan_l, !sub_nan_l. Qed.

Lemma newB_nan d : newB d nan = nan.
Proof. unfold newB. by rewrite add_nan_l, !sub_nan_l. Qed.

(** A sample that the source does not have is stored as 0. *)
Lemma outAt_missing (P : list Z) d i ch :
  length P ≤ i + ch → ch < 4 → outAt P d i ch = 0%Z.
Proof.
  intros Hlen Hch. unfold outAt, outR, outG, outB, outA.
  destruct ch as [|[|[|[|ch]]]]; try lia.
  - rewrite sampleNum_None by lia. by rewrite newR_nan, clamp_nan.
  - rewrite sampleNum_None by lia. by rewrite newG_nan, clamp_nan.
  - rewrite sampleNum_None by lia. by rewrite newB_nan, clamp_nan.
  - rewrite sampleNum_None by lia. reflexivity.
Qed.

(** A delta with a channel that is not a number makes every mixing
    expression not a number. *)
Lemma mix_nan d (x : number) :
  is_nan d.(c) || is_nan d.(m) || is_nan d.(y) = true →
  newR d x = nan ∧ newG d x = nan ∧ newB d x = nan.
Proof.
  intros H. unfold newR, newG, newB, gainR, gainG, gainB.
  apply orb_prop in H as [H|H]; [apply orb_prop in H as [H|H]|];
    apply nan_eq in H; rewrite H;
    rewrite ?mul_nan_l, ?add_nan_l, ?add_nan_r, ?sub_nan_l, ?sub_nan_r;
    by rewrite ?mul_nan_l, ?add_nan_l, ?add_nan_r, ?sub_nan_l, ?sub_nan_r.
Qed.

End Missing.


(** ** The pass on buffers of any length *)

Section WholePass.

Variables (P : list Z) (delta : CMYValues).

(** The loop never writes at or after the end of the last source pixel. *)
Lemma listLoop_lookup_ge fuel : ∀ q j (D : list Z),
  4 * ((length P + 3) / 4) ≤ j →
  listLoop fuel P delta (4 * q) D !! j = D !! j.
Proof.
  induction fuel as [|fuel IH]; intros q j D Hj; [reflexivity|].
  cbn [listLoop]. destruct (4 * q <? length P) eqn:Hlt; [|reflexivity].
  apply Nat.ltb_lt in Hlt.
  assert (4 * q + 3 < j).
  { pose proof (Nat.div_mod_eq (length P + 3) 4) as Hd.
    pose proof (Nat.mod_upper_bound (length P + 3) 4 ltac:(lia)). lia. }
  replace (4 * q + 4) with (4 * (q + 1)) by lia.
  rewrite IH by assumption. unfold stepList.
  rewrite !list_lookup_insert_ne by lia. reflexivity.
Qed.

(** The sample of the transform at an offset inside the source. *)
Lemma transform_lookup j :
  j < length P →
  transform P delta !! j = Some (outAt P delta (4 * (j / 4)) (j mod 4)).
Proof.
  intros Hj. rewrite transform_listLoop.
  pose proof (Nat.div_mod_eq j 4) as Hd.
  pose proof (Nat.mod_upper_bound j 4 ltac:(lia)) as Hm.
  replace j with (0 + 4 * (j / 4) + j mod 4) at 1 by lia.
  rewrite (listLoop_lookup P delta (j / 4)); try reflexivity; try lia.
  rewrite length_replicate. lia.
Qed.

(** Every sample a destination of the length of the source receives is
    written by the loop: what the destination held does not matter. *)
Lemma listLoop_full (D : list Z) :
  length D = length P →
  listLoop (length P) P delta 0 D = transform P delta.
Proof.
  intros Hlen. apply list_eq. intros j.
  destruct (decide (j < length P)) as [Hj|Hj].
  - rewrite transform_lookup by assumption.
    pose proof (Nat.div_mod_eq j 4) as Hd.
    pose proof (Nat.mod_upper_bound j 4 ltac:(lia)) as Hm.
    replace j with (0 + 4 * (j / 4) + j mod 4) at 1 by lia.
    rewrite (listLoop_lookup P delta (j / 4)); try reflexivity; lia.
  - rewrite !(proj2 (lookup_ge_None _ _)); [reflexivity| |].
    + rewrite length_transform. lia.
    + rewrite length_listLoop. lia.
Qed.

End WholePass.

(** ** Source and destination the same buffer *)

Section Aliased.

Variables (a : ref) (delta : CMYValues) (P : list Z).

Lemma getIndex_agrees (h : heap) (L : list Z) i j :
  h !! a = Some L → agreesFrom P i L → i ≤ j →
  ToNumber (getIndex h a j) = sampleNum P j.
Proof.
  intros Hh [_ Hag] Hj. unfold getIndex, sampleNum.
  rewrite Hh, (Hag j Hj). reflexivity.
Qed.

Lemma pixelStep_aliased i (h : heap) (L : list Z) :
  h !! a = Some L → agreesFrom P i L →
  pixelStep a a delta i h !! a = Some (stepList P delta i L).
Proof.
  intros Hh Hag. unfold pixelStep, stepList.
  rewrite (getIndex_agrees h L i i), (getIndex_agrees h L i (i + 1)),
    (getIndex_agrees h L i (i + 2)) by (assumption || lia).
  set (h1 := setIndex h a i _).
  set (h2 := setIndex h1 a (i + 1) _).
  set (h3 := setIndex h2 a (i + 2) _).
  assert (H1 : h1 !! a = Some (<[i := outR P delta i]> L))
    by (unfold h1; rewrite (setIndex_same _ _ _ _ L); done).
  assert (H2 : h2 !! a = Some (<[i + 1 := outG P delta i]>
                                  (<[i := outR P delta i]> L)))
    by (unfold h2; erewrite setIndex_same; [|exact H1]; done).
  assert (H3 : h3 !! a = Some (<[i + 2 := outB P delta i]>
                                 (<[i + 1 := outG P delta i]>
                                    (<[i := outR P delta i]> L))))
    by (unfold h3; erewrite setIndex_same; [|exact H2]; done).
  erewrite setIndex_same; [|exact H3]. do 2 f_equal.
  unfold outA, sampleNum, getIndex. rewrite H3.
  rewrite !list_lookup_insert_ne by lia.
  destruct Hag as [_ Hag]. rewrite (Hag (i + 3)) by lia. reflexivity.
Qed.

Lemma stepList_agrees i (L : list Z) :
  agreesFrom P i L → agreesFrom P (i + 4) (stepList P delta i L).
Proof.
  intros [Hlen Hag]. split.
  - rewrite length_stepList. exact Hlen.
  - intros j Hj. unfold stepList.
    rewrite !list_lookup_insert_ne by lia. apply Hag. lia.
Qed.

Lemma pixelLoop_aliased fuel : ∀ i (h : heap) (L : list Z),
  h !! a = Some L → agreesFrom P i L →
  pixelLoop fuel a a delta i h !! a = Some (listLoop fuel P delta i L).
Proof.
  induction fuel as [|fuel IH]; intros i h L Hh Hag; [exact Hh|].
  cbn [pixelLoop listLoop]. unfold lengthOf. rewrite Hh.
  destruct Hag as [Hlen Hag]. rewrite Hlen.
  destruct (i <? length P); [|exact Hh].
  apply IH.
  - apply pixelStep_aliased; [exact Hh|split; assumption].
  - apply stepList_agrees. split; assumption.
Qed.

End Aliased.

(** ** Sources put end to end *)

Section Tiles.

Variables (P Q : list Z) (delta : CMYValues).

Lemma sampleNum_app_l j : j < length P → sampleNum (P ++ Q) j = sampleNum P j.
Proof. intros Hj. unfold sampleNum. by rewrite lookup_app_l. Qed.

Lemma sampleNum_app_r j :
  sampleNum (P ++ Q) (length P + j) = sampleNum Q j.
Proof.
  unfold sampleNum. rewrite lookup_app_r by lia.
  by replace (length P + j - length P) with j by lia.
Qed.

Lemma outAt_app_l i ch :
  i + 4 ≤ length P → outAt (P ++ Q) delta i ch = outAt P delta i ch.
Proof.
  intros Hi. unfold outAt, outR, outG, outB, outA.
  by rewrite !sampleNum_app_l by lia.
Qed.

Lemma outAt_app_r i ch :
  outAt (P ++ Q) delta (length P + i) ch = outAt Q delta i ch.
Proof.
  unfold outAt, outR, outG, outB, outA.
  rewrite <- !Nat.add_assoc. by rewrite !sampleNum_app_r.
Qed.

End Tiles.

Section ZeroDelta.

Lemma transform_zero (P : list Z) :
  Forall u8 P → transform P (mkCMY 0 0 0) = P.
Proof.
  intros HP. unfold transform.
  destruct (transform_heap P) as [H0 H1]. cbv zeta in H0, H1.
  rewrite (zero_delta_pass _ 0 1 P (replicate (length P) 0%Z));
    try done. by rewrite length_replicate.
Qed.

End ZeroDelta.

(** ** Statements about the pass beyond the documented contract *)

Section EnginePass.

(** X1. A pass into a destination of the length of the source, the two not
    the same buffer, leaves the destination equal to the transform of the
    source: every sample is overwritten, and what the destination held
    before has no part in the result. *)
Theorem pass_overwrites_destination (h : heap) (source destination : ref)
    (delta : CMYValues) (P D : list Z) :
  source ≠ destination →
  h !! source = Some P → h !! destination = Some D →
  length D = length P →
  processImageBuffer source destination delta h !! destination
  = Some (transform P delta).
Proof.
  intros Hne HP HD Hlen.
  rewrite (processImageBuffer_destination source destination delta Hne h P D)
    by assumption.
  f_equal. by apply listLoop_full.
Qed.

Lemma pass_overwrites_destination_witness :
  processImageBuffer 0 1 (mkCMY 0 10 0)
    {[ 0%nat := [128; 128; 128; 255]%Z; 1%nat := [7; 7; 7; 7]%Z ]} !! 1%nat
  = Some (transform [128; 128; 128; 255]%Z (mkCMY 0 10 0)).
Proof.
  apply (pass_overwrites_destination _ 0 1 (mkCMY 0 10 0)
           [128; 128; 128; 255]%Z [7; 7; 7; 7]%Z);
    [discriminate | reflexivity | reflexivity | reflexivity].
Defined.

(** X2. A pass with the same buffer as source and destination gives the
    transform of what the buffer held: processing in place is the same as
    processing into a fresh buffer. *)
Theorem in_place_pass (h : heap) (a : ref) (delta : CMYValues)
    (P : list Z) :
  h !! a = Some P →
  processImageBuffer a a delta h !! a = Some (transform P delta).
Proof.
  intros HP. unfold processImageBuffer, lengthOf. rewrite HP.
  rewrite (pixelLoop_aliased a delta P (length P) 0 h P HP).
  - f_equal. by apply listLoop_full.
  - split; [reflexivity|]. intros j _. reflexivity.
Qed.

Lemma in_place_pass_witness :
  processImageBuffer 0 0 (mkCMY 0 10 0)
    {[ 0%nat := [128; 128; 128; 255]%Z ]} !! 0%nat
  = Some (transform [128; 128; 128; 255]%Z (mkCMY 0 10 0)).
Proof.
  apply (in_place_pass _ 0 (mkCMY 0 10 0) [128; 128; 128; 255]%Z).
  reflexivity.
Defined.

(** X3. A pass never changes the length of the destination and never
    writes at or after the end of the last source pixel: the samples of the
    destination from offset [4 * ceil (source.length / 4)] on are kept, so
    an empty source changes nothing. *)
Theorem pass_keeps_tail (h : heap) (source destination : ref)
    (delta : CMYValues) (P D : list Z) :
  source ≠ destination →
  h !! source = Some P → h !! destination = Some D →
  ∃ D', processImageBuffer source destination delta h !! destination
        = Some D'
        ∧ length D' = length D
        ∧ (∀ j, 4 * ((length P + 3) / 4) ≤ j → D' !! j = D !! j)
        ∧ (P = [] → D' = D).
Proof.
  intros Hne HP HD. eexists. split.
  { by apply (processImageBuffer_destination source destination delta Hne
                h P D). }
  split; [apply length_listLoop|]. split.
  - intros j Hj. by apply (listLoop_lookup_ge P delta (length P) 0 j D).
  - intros ->. reflexivity.
Qed.

Lemma pass_keeps_tail_witness :
  ∃ D', processImageBuffer 0 1 (mkCMY 0 10 0)
          {[ 0%nat := [128; 128; 128; 255]%Z;
             1%nat := [1; 2; 3; 4; 5; 6]%Z ]} !! 1%nat = Some D'
        ∧ length D' = 6
        ∧ (∀ j, 4 * ((4 + 3) / 4) ≤ j → D' !! j = [1; 2; 3; 4; 5; 6]%Z !! j)
        ∧ ([128; 128; 128; 255]%Z = [] → D' = [1; 2; 3; 4; 5; 6]%Z).
Proof.
  apply (pass_keeps_tail _ 0 1 (mkCMY 0 10 0) [128; 128; 128; 255]%Z
           [1; 2; 3; 4; 5; 6]%Z);
    [discriminate | reflexivity | reflexivity].
Defined.

(** X4. A sample that the last pixel of the source lacks (a source whose
    length is not a multiple of four) is read as [undefined]: the
    destination, if it has the place, receives 0 there, for a colour channel
    and for alpha alike and whatever the delta. *)
Theorem missing_samples_store_zero (h : heap) (source destination : ref)
    (delta : CMYValues) (P D : list Z) (k ch : nat) :
  source ≠ destination →
  h !! source = Some P → h !! destination = Some D →
  4 * k < length P → length P ≤ 4 * k + ch → ch < 4 →
  4 * k + ch < length D →
  sampleAt (processImageBuffer source destination delta h) destination
    (4 * k + ch) = Some 0%Z.
Proof.
  intros Hne HP HD Hk Hch H4 HD4.
  rewrite (pass_sample source destination delta Hne h P D k ch)
    by assumption.
  f_equal. by apply outAt_missing.
Qed.

Lemma missing_samples_store_zero_witness :
  sampleAt (processImageBuffer 0 1 (mkCMY 0 10 0)
              {[ 0%nat := [128; 128]%Z; 1%nat := [9; 9; 9; 9]%Z ]}) 1
    (4 * 0 + 2) = Some 0%Z.
Proof.
  apply (missing_samples_store_zero _ 0 1 (mkCMY 0 10 0) [128; 128]%Z
           [9; 9; 9; 9]%Z 0 2);
    first [discriminate | reflexivity | (cbn; lia)].
Defined.

(** X5. The explicit [clamp] of the loop body never changes what is stored:
    the conversion of the typed array maps the clamped and the unclamped
    number to the same sample, for every number including NaN and the
    infinities. *)
Theorem clamp_is_redundant_before_store (h : heap) (a : ref) (i : nat)
    (v : number) :
  setIndex h a i (VNumber (clamp v)) = setIndex h a i (VNumber v).
Proof. unfold setIndex. cbn [ToNumber]. by rewrite store_clamp. Qed.

(** X6. The transform of two sources put end to end, the first a whole
    number of pixels, is the two transforms put end to end: a pixel of the
    result depends on the same pixel of the source and on the delta only. *)
Theorem transform_app (P Q : list Z) (delta : CMYValues) (n : nat) :
  length P = 4 * n →
  transform (P ++ Q) delta = transform P delta ++ transform Q delta.
Proof.
  intros Hn. apply list_eq. intros j.
  destruct (decide (j < length P)) as [HjP|HjP].
  - rewrite lookup_app_l by (by rewrite length_transform).
    rewrite !transform_lookup by (rewrite ?length_app; lia).
    f_equal. apply outAt_app_l.
    pose proof (Nat.div_mod_eq j 4).
    pose proof (Nat.mod_upper_bound j 4 ltac:(lia)). lia.
  - rewrite lookup_app_r by (rewrite length_transform; lia).
    rewrite length_transform.
    destruct (decide (j < length P + length Q)) as [HjQ|HjQ].
    + rewrite !transform_lookup by (rewrite ?length_app; lia).
      f_equal.
      assert (Hdiv : j / 4 = n + (j - length P) / 4).
      { rewrite Hn. replace j with ((j - 4 * n) + n * 4) at 1 by lia.
        rewrite Nat.div_add by lia. lia. }
      assert (Hmod : j mod 4 = (j - length P) mod 4).
      { rewrite Hn. replace j with ((j - 4 * n) + n * 4) at 1 by lia.
        by rewrite Nat.Div0.mod_add. }
      rewrite Hdiv, Hmod.
      replace (4 * (n + (j - length P) / 4))
        with (length P + 4 * ((j - length P) / 4)) by lia.
      apply outAt_app_r.
    + rewrite !(proj2 (lookup_ge_None _ _)); [reflexivity| |].
      * rewrite length_transform. lia.
      * rewrite length_transform, length_app. lia.
Qed.

Lemma transform_app_witness :
  transform ([128; 128; 128; 255] ++ [10; 20; 30; 40])%Z (mkCMY 0 10 0)
  = transform [128; 128; 128; 255]%Z (mkCMY 0 10 0)
    ++ transform [10; 20; 30; 40]%Z (mkCMY 0 10 0).
Proof.
  apply (transform_app [128; 128; 128; 255]%Z [10; 20; 30; 40]%Z
           (mkCMY 0 10 0) 1).
  reflexivity.
Defined.

(** X7. A delta with a channel that is not a number is not rejected: every
    colour sample of the result is 0, and alpha is carried through. *)
Theorem nan_delta_blacks_out (P : list Z) (delta : CMYValues) (j : nat) :
  is_nan delta.(c) || is_nan delta.(m) || is_nan delta.(y) = true →
  Forall u8 P → j < length P →
  transform P delta !! j = if (j mod 4 =? 3)%nat then P !! j else Some 0%Z.
Proof.
  intros Hnan Hu8 Hj. rewrite transform_lookup by assumption.
  pose proof (Nat.div_mod_eq j 4) as Hd.
  pose proof (Nat.mod_upper_bound j 4 ltac:(lia)) as Hm.
  unfold outAt, outR, outG, outB, outA.
  destruct (j mod 4) as [|[|[|[|r]]]] eqn:Hr; try lia; cbn [Nat.eqb].
  - destruct (mix_nan delta (sampleNum P (4 * (j / 4))) Hnan) as (-> & _).
    by rewrite clamp_nan.
  - destruct (mix_nan delta (sampleNum P (4 * (j / 4) + 1)) Hnan)
      as (_ & -> & _).
    by rewrite clamp_nan.
  - destruct (mix_nan delta (sampleNum P (4 * (j / 4) + 2)) Hnan)
      as (_ & _ & ->).
    by rewrite clamp_nan.
  - replace (4 * (j / 4) + 3) with j by lia.
    destruct (lookup_lt_is_Some_2 P j Hj) as [z Hz].
    rewrite (sampleNum_Some P j z Hz), Hz. f_equal.
    apply sample_roundtrip. by apply (Forall_u8_lookup P j).
Qed.

Lemma nan_delta_blacks_out_witness :
  transform [128; 128; 128; 255]%Z (mkCMY 0 nan 0) !! 2%nat = Some 0%Z.
Proof.
  apply (nan_delta_blacks_out [128; 128; 128; 255]%Z (mkCMY 0 nan 0) 2).
  - reflexivity.
  - repeat constructor; cbv; discriminate.
  - cbn; lia.
Defined.

End EnginePass.

(** ** Statements about the settings of the application *)

Section AppSettings.

Local Open Scope float_scope.

(** X8. Whatever the user does, every base and every target setting stays
    between 0 and 200, provided the slider delivers numbers. *)
Theorem settings_stay_in_range (st : AppState) (evs : list event) :
  settingsInRange st → Forall numeric evs → settingsInRange (run st evs).
Proof.
  revert st. induction evs as [|ev evs IH]; intros st Hst Hevs; [exact Hst|].
  inversion Hevs; subst. apply IH; [|assumption]. by apply handle_inRange.
Qed.

Lemma settings_stay_in_range_witness :
  settingsInRange
    (run initialState
       [PressPlus Kc; Slide Km 250.5; ClickSetBase; PressMinus Ky;
        Slide Kc (-3)]).
Proof.
  apply (settings_stay_in_range initialState).
  - intros k. destruct k; vm_compute; auto.
  - repeat constructor.
Defined.


(** X9. Editing a channel of the base sets the target of that channel to
    the same value: the delta of the channel becomes 0, or NaN when the value
    delivered is NaN, which the limits let through; the delta of the other
    channels is as it was. *)
Theorem base_edit_zeroes_delta (st : AppState) (k : key) (v : number) :
  getKey (delta (updateInitial k v st)) k = (if is_nan v then nan else 0)
  ∧ ∀ k', k' ≠ k →
          getKey (delta (updateInitial k v st)) k' = getKey (delta st) k'.
Proof.
  split.
  - rewrite getKey_delta. cbn. rewrite !getKey_setKey.
    destruct (is_nan v) eqn:Hv.
    + rewrite (nan_eq v Hv). reflexivity.
    + by apply inRange_sub_diag, limit_inRange.
  - intros k' Hne. rewrite !getKey_delta. cbn.
    by rewrite !getKey_setKey_ne.
Qed.

(** X10. While the base is locked, nothing but unlocking it or loading an
    image changes the base: the buttons, the slider, the reset and the
    compare button leave it as it is. *)
Theorem locked_base_is_kept (st : AppState) (evs : list event) :
  isInitialLocked st = true → forallb keepsLock evs = true →
  initialCMY (run st evs) = initialCMY st
  ∧ isInitialLocked (run st evs) = true.
Proof.
  revert st. induction evs as [|ev evs IH]; intros st Hl Hevs; [done|].
  cbn [forallb] in Hevs. apply andb_prop in Hevs as [Hev Hevs].
  assert (Hstep : initialCMY (handle st ev) = initialCMY st
                  ∧ isInitialLocked (handle st ev) = true).
  { destruct ev; try discriminate; cbn; unfold channelOnChange;
      rewrite ?Hl; by cbn. }
  destruct Hstep as [Hi Hl']. unfold run. cbn [fold_left].
  destruct (IH (handle st ev) Hl' Hevs) as [H1 H2].
  split; [by rewrite <- Hi|assumption].
Qed.

Lemma locked_base_is_kept_witness :
  initialCMY (run initialState [PressPlus Km; Slide Ky 12.5; ClickReset;
                                HoldCompare; PressMinus Kc])
  = initialCMY initialState.
Proof.
  apply (locked_base_is_kept initialState); reflexivity.
Defined.

(** X11. The value a channel shows after the slider delivered [v] is [v]
    cut to the limits: 200 above 200, 0 at or below 0 (also for -0), [v]
    itself in between, and NaN is let through. *)
Theorem slider_value_is_limited (st : AppState) (k : key) (v : number) :
  channelValue (handle st (Slide k v)) k
  = if is_nan v then nan
    else if 200 <? v then 200 else if 0 <? v then v else 0.
Proof.
  rewrite <- limit_cases. cbn. unfold channelOnChange, channelValue.
  destruct (isInitialLocked st) eqn:Hl; cbn; rewrite Hl;
    apply getKey_setKey.
Qed.

(** X12. With the settings at positions of the slider, a channel that is
    at least one unit from both limits returns to its value when the plus
    button is followed by the minus button, or the minus by the plus; while
    the base is locked the whole state returns. *)
Theorem plus_and_minus_cancel (st : AppState) (k : key) :
  settingsOnGrid st →
  (1 <=? channelValue st k) = true → (channelValue st k <=? 199) = true →
  channelValue (run st [PressPlus k; PressMinus k]) k = channelValue st k
  ∧ channelValue (run st [PressMinus k; PressPlus k]) k = channelValue st k
  ∧ (isInitialLocked st = true →
     run st [PressPlus k; PressMinus k] = st
     ∧ run st [PressMinus k; PressPlus k] = st).
Proof.
  intros Hst Hlo Hhi.
  destruct (channelValue_all _ st k Hst) as (n & Hn & Hv).
  destruct (limit_onGrid n Hn) as (Hp & Hm & _ & H199 & H1).
  rewrite Hv in Hlo, Hhi. rewrite Hhi in H199. rewrite Hlo in H1.
  symmetry in H199, H1. apply Z.leb_le in H199, H1.
  destruct (limit_onGrid (n + 2) ltac:(lia)) as (_ & Hm2 & _).
  destruct (limit_onGrid (n - 2) ltac:(lia)) as (Hp2 & _).
  rewrite Z.min_l in Hp by lia. rewrite Z.max_l in Hm by lia.
  replace (Z.max (n + 2 - 2) 0) with n in Hm2 by lia.
  replace (Z.min (n - 2 + 2) 400) with n in Hp2 by lia.
  unfold run. cbn [fold_left handle handleIncrement handleDecrement negb].
  unfold channelOnChange, channelValue in *.
  destruct st as [ini tgt [|] shw];
    cbn -[half mathMax mathMin] in *; unfold updateTarget, updateInitial;
    cbn -[half mathMax mathMin];
    rewrite ?getKey_setKey, ?Hv, ?Hp, ?Hm, ?Hm2, ?Hp2, ?setKey_setKey;
    (split; [reflexivity|]); (split; [reflexivity|]); try done.
  intros _. rewrite <- Hv, !setKey_getKey. by split.
Qed.

Lemma plus_and_minus_cancel_witness :
  run initialState [PressPlus Km; PressMinus Km] = initialState.
Proof.
  apply (plus_and_minus_cancel initialState Km).
  - intros k. destruct k; cbn; split.
    + by exists 0%Z.
    + by exists 0%Z.
    + by exists 100%Z.
    + by exists 100%Z.
    + by exists 100%Z.
    + by exists 100%Z.
  - reflexivity.
  - reflexivity.
  - reflexivity.
Defined.

(** X13. With the settings at positions of the slider and a slider that
    delivers positions, the delta of every channel is, after any sequence of
    events, an exact number of half units between -200 and 200, and
    [formatValue] displays it unchanged. *)
Theorem displayed_delta_is_exact (st : AppState) (evs : list event)
    (k : key) :
  settingsOnGrid st → Forall gridEvent evs →
  ∃ z, (-400 <= z <= 400)%Z
       ∧ getKey (delta (run st evs)) k = halfZ z
       ∧ formatValue (getKey (delta (run st evs)) k)
         = getKey (delta (run st evs)) k.
Proof.
  intros Hst Hevs.
  assert (Hrun : settingsOnGrid (run st evs)).
  { revert st Hst. induction evs as [|ev evs IH]; intros st Hst; [exact Hst|].
    inversion Hevs; subst. apply IH; [assumption|]. by apply handle_onGrid. }
  destruct (delta_onGrid (run st evs) k Hrun) as (z & Hz & Hd).
  exists z. rewrite Hd. destruct (gridDelta_at z Hz) as (Hf & _).
  split; [exact Hz|]. split; [reflexivity|exact Hf].
Qed.

Lemma displayed_delta_is_exact_witness :
  ∃ z, (-400 <= z <= 400)%Z
       ∧ getKey (delta (run initialState [PressPlus Km; Slide Ky 12.5])) Ky
         = halfZ z
       ∧ formatValue
           (getKey (delta (run initialState [PressPlus Km; Slide Ky 12.5]))
              Ky)
         = getKey (delta (run initialState [PressPlus Km; Slide Ky 12.5])) Ky.
Proof.
  apply (displayed_delta_is_exact initialState
           [PressPlus Km; Slide Ky 12.5] Ky).
  - intros k. destruct k; cbn; split.
    + by exists 0%Z.
    + by exists 0%Z.
    + by exists 100%Z.
    + by exists 100%Z.
    + by exists 100%Z.
    + by exists 100%Z.
  - repeat constructor. by exists 25%Z.
Defined.

(** X14. With the settings at positions of the slider, cyan and yellow at
    their base and the magenta delta positive, the delta is large enough for
    the crosstalk signs: before clamping green is above the source and red
    and blue are below, for samples strictly inside the range. *)
Theorem slider_magenta_shifts_channels (st : AppState) (r g b : Z) :
  settingsOnGrid st →
  getKey (targetCMY st) Kc = getKey (initialCMY st) Kc →
  getKey (targetCMY st) Ky = getKey (initialCMY st) Ky →
  (0 <? getKey (delta st) Km) = true →
  strictlyInside r → strictlyInside g → strictlyInside b →
  crosstalkSign (delta st) r g b.
Proof.
  intros Hst Hc Hy Hm Hr Hg Hb.
  assert (Hzero : ∀ k, getKey (targetCMY st) k = getKey (initialCMY st) k →
                       getKey (delta st) k = 0).
  { intros k Hk. rewrite getKey_delta, Hk.
    destruct (Hst k) as [(i & Hi & ->) _].
    rewrite (gridPair_at i i) by assumption. by rewrite Z.sub_diag. }
  destruct (delta_onGrid st Km Hst) as (z & Hz & Hd).
  destruct (gridDelta_at z Hz) as (_ & Hsign & Hthr).
  rewrite Hd, Hsign in Hm. apply Z.ltb_lt in Hm. specialize (Hthr Hm).
  pose proof (Hzero Kc Hc) as H0c. pose proof (Hzero Ky Hy) as H0y.
  assert (Hdelta : delta st = mkCMY 0 (halfZ z) 0).
  { cbn in H0c, H0y, Hd. unfold delta, calculateDelta in *. cbn in *.
    by rewrite H0c, H0y, Hd. }
  rewrite Hdelta. by apply magenta_signs.
Qed.

Lemma slider_magenta_shifts_channels_witness :
  crosstalkSign (delta (handle initialState (PressPlus Km))) 128 128 128.
Proof.
  apply (slider_magenta_shifts_channels
           (handle initialState (PressPlus Km)) 128 128 128);
    try reflexivity; try (cbv; auto).
  intros k. destruct k; cbn; split.
  - by exists 0%Z.
  - by exists 0%Z.
  - by exists 100%Z.
  - by exists 102%Z.
  - by exists 100%Z.
  - by exists 100%Z.
Defined.

End AppSettings.

(** ** Statements about the render pass and the sizing of the application *)

Section AppRender.

(** X15. However many renders there are, with whatever deltas and with the
    original shown or not, the cached original and every buffer that existed
    before are left as they were: a render writes into a buffer of its own
    only. *)
Theorem renders_leave_buffers (rs : list (bool * CMYValues)) (sg : Stage)
    (img : ImageData) (P : list Z) :
  originalImageDataRef sg = Some img →
  buffers sg !! data img = Some P →
  length P = 4 * width img * height img →
  originalImageDataRef (renders rs sg) = Some img
  ∧ ∀ a, is_Some (buffers sg !! a) →
         buffers (renders rs sg) !! a = buffers sg !! a.
Proof. apply renders_keep. Qed.

Lemma renders_leave_buffers_witness :
  originalImageDataRef
    (renders [(false, mkCMY 0 10 0); (true, mkCMY 0 0 0);
              (false, mkCMY 5 0 (-5))]
       (mkStage {[ 0%nat := [128; 128; 128; 255]%Z ]}
          (Some (mkImageData 1 1 0)) []))
  = Some (mkImageData 1 1 0).
Proof.
  apply (renders_leave_buffers
           [(false, mkCMY 0 10 0); (true, mkCMY 0 0 0);
            (false, mkCMY 5 0 (-5))]
           (mkStage {[ 0%nat := [128; 128; 128; 255]%Z ]}
              (Some (mkImageData 1 1 0)) [])
           (mkImageData 1 1 0) [128; 128; 128; 255]%Z);
    reflexivity.
Defined.

(** X16. What the canvas shows after a render is the cached original if the
    original is asked for, and otherwise the transform of the cached
    original by the delta of that render: the renders before it, whatever
    they were, have no part in it. *)
Theorem canvas_shows_last_render (rs : list (bool * CMYValues)) (b : bool)
    (d : CMYValues) (sg : Stage) (img : ImageData) (P : list Z) :
  originalImageDataRef sg = Some img →
  buffers sg !! data img = Some P →
  length P = 4 * width img * height img →
  canvasPixels (applyFilter b d (renders rs sg))
  = if b then P else transform P d.
Proof.
  intros Himg HP Hlen.
  destruct (renders_keep rs sg img P Himg HP Hlen) as [H1 H2].
  apply (applyFilter_spec b d (renders rs sg) img P); try assumption.
  by rewrite H2.
Qed.

Lemma canvas_shows_last_render_witness :
  canvasPixels
    (applyFilter false (mkCMY 0 10 0)
       (renders [(false, mkCMY 7 0 0); (true, mkCMY 0 0 0)]
          (mkStage {[ 0%nat := [128; 128; 128; 255]%Z ]}
             (Some (mkImageData 1 1 0)) [])))
  = transform [128; 128; 128; 255]%Z (mkCMY 0 10 0).
Proof.
  apply (canvas_shows_last_render
           [(false, mkCMY 7 0 0); (true, mkCMY 0 0 0)] false (mkCMY 0 10 0)
           (mkStage {[ 0%nat := [128; 128; 128; 255]%Z ]}
              (Some (mkImageData 1 1 0)) [])
           (mkImageData 1 1 0) [128; 128; 128; 255]%Z);
    reflexivity.
Defined.

(** X17. After the reset of the target the delta is 0 on the three channels
    and the render shows the cached original sample for sample, with the
    compare button held or not. *)
Theorem reset_shows_original (st : AppState) (sg : Stage) (img : ImageData)
    (P : list Z) :
  settingsInRange st →
  originalImageDataRef sg = Some img →
  buffers sg !! data img = Some P →
  length P = 4 * width img * height img →
  Forall u8 P →
  delta (resetTarget st) = mkCMY 0 0 0
  ∧ canvasPixels (render (resetTarget st) sg) = P.
Proof.
  intros Hst Himg HP Hlen Hu8.
  assert (Hd : delta (resetTarget st) = mkCMY 0 0 0).
  { unfold delta, resetTarget, calculateDelta. cbn.
    destruct (Hst Kc) as [Hc _], (Hst Km) as [Hm _], (Hst Ky) as [Hy _].
    cbn in Hc, Hm, Hy.
    by rewrite (inRange_sub_diag _ Hc), (inRange_sub_diag _ Hm),
         (inRange_sub_diag _ Hy). }
  split; [exact Hd|]. unfold render. rewrite Hd.
  destruct (applyFilter_spec (showOriginal (resetTarget st)) (mkCMY 0 0 0)
              sg img P Himg HP Hlen) as (_ & _ & ->).
  destruct (showOriginal (resetTarget st)); [reflexivity|].
  by apply transform_zero.
Qed.

Lemma reset_shows_original_witness :
  canvasPixels
    (render (resetTarget (handle initialState (PressPlus Km)))
       (mkStage {[ 0%nat := [128; 128; 128; 255]%Z ]}
          (Some (mkImageData 1 1 0)) []))
  = [128; 128; 128; 255]%Z.
Proof.
  apply (reset_shows_original (handle initialState (PressPlus Km))
           (mkStage {[ 0%nat := [128; 128; 128; 255]%Z ]}
              (Some (mkImageData 1 1 0)) [])
           (mkImageData 1 1 0) [128; 128; 128; 255]%Z);
    try reflexivity.
  - intros k. destruct k; vm_compute; auto.
  - repeat constructor; cbv; discriminate.
Defined.

(** X18. An image with neither side above 1200 keeps its size. *)
Theorem small_image_keeps_size (w h : number) :
  (w <=? MAX_SIZE)%float = true → (h <=? MAX_SIZE)%float = true →
  fitDimensions w h = (w, h).
Proof.
  intros Hw Hh. unfold fitDimensions.
  rewrite (leb_ltb_false _ _ Hw), (leb_ltb_false _ _ Hh).
  by destruct (h <? w)%float.
Qed.

Lemma small_image_keeps_size_witness :
  fitDimensions 1200 800 = (1200, 800)%float.
Proof. apply (small_image_keeps_size 1200 800); reflexivity. Defined.

End AppRender.

(** ** Quotients: rounding from an inexact position *)

Section Quotients.

Local Open Scope Z_scope.

(** Rounding a mantissa of at least 53 bits in the normal range, whatever
    lies beyond its last bit: the result is an infinity or at most one unit
    of the last kept place above the mantissa. *)
Lemma binary_round_aux_upper (s : bool) (p : positive) (e : Z)
    (l : location) :
  53 <= Z.pos (digits2_pos p) →
  -1074 <= Z.pos (digits2_pos p) + e - 53 →
  (binary_round_aux prec emax s (Z.pos p) e l = S754_infinity s
   ∧ 971 <= e + (Z.pos (digits2_pos p) - 53))
  ∨ ∃ (m' : positive) (e' : Z),
      binary_round_aux prec emax s (Z.pos p) e l = S754_finite s m' e'
      ∧ e + (Z.pos (digits2_pos p) - 53) <= e'
      ∧ Z.pos m' * 2 ^ (e' - e) <= Z.pos p + 2 ^ (Z.pos (digits2_pos p) - 53).
Proof.
  intros Hd He.
  pose proof (digits2_pos_bound p) as Hhi.
  pose proof (digits2_pos_lower p) as Hlo.
  set (d := Z.pos (digits2_pos p)) in *. set (k := d - 53).
  assert (Hk : 0 <= k) by (unfold k; lia).
  assert (HK : 0 < 2 ^ k) by (by apply Z.pow_pos_nonneg).
  assert (Hd1 : 2 ^ (d - 1) = 2 ^ 52 * 2 ^ k).
  { rewrite <- Z.pow_add_r by lia. f_equal. unfold k. lia. }
  assert (Hd2 : 2 ^ d = 2 ^ 53 * 2 ^ k).
  { rewrite <- Z.pow_add_r by lia. f_equal. unfold k. lia. }
  unfold binary_round_aux, shr_fexp. cbn [Zdigits2]. fold d.
  assert (Hf : fexp prec emax (d + e) - e = k).
  { unfold fexp, emin, prec, emax, k. lia. }
  rewrite Hf.
  destruct (shr_spec (shr_record_of_loc (Z.pos p) l) e k)
    as (mrs1 & Hshr1 & Hm1); [rewrite shr_m_of_loc; lia | done |].
  rewrite Hshr1. rewrite shr_m_of_loc in Hm1.
  set (m1 := shr_m mrs1) in *.
  pose proof (Z.div_mod (Z.pos p) (2 ^ k) ltac:(lia)) as Hdm.
  pose proof (Z.mod_pos_bound (Z.pos p) (2 ^ k) HK) as Hmod.
  rewrite <- Hm1 in Hdm.
  assert (Hm1b : 2 ^ 52 <= m1 < 2 ^ 53) by nia.
  set (m2 := round_nearest_even m1 (loc_of_shr_record mrs1)).
  assert (Hm2 : m2 = m1 ∨ m2 = m1 + 1) by apply round_nearest_even_cases.
  assert (Hm2b : 2 ^ 52 <= m2 <= 2 ^ 53) by lia.
  destruct m2 as [|q|q] eqn:Hq; [lia| |lia].
  cbn [Zdigits2].
  assert (Hcase : Z.pos q < 2 ^ 53 ∨ Z.pos q = 2 ^ 53) by lia.
  destruct Hcase as [Hlt|Heq].
  - assert (Hdq : Z.pos (digits2_pos q) = 53)
      by (apply digits2_pos_unique; change (53 - 1) with 52; lia).
    rewrite Hdq.
    assert (Hf2 : fexp prec emax (53 + (e + k)) - (e + k) = 0).
    { unfold fexp, emin, prec, emax. unfold k. lia. }
    rewrite Hf2. cbn [shr shr_record_of_loc shr_m].
    destruct (Z.leb_spec (e + k) (emax - prec)) as [|Hov];
      [|left; split; [done|]; unfold emax, prec in Hov; lia].
    right. exists q, (e + k). split; [done|]. split; [lia|].
    replace (e + k - e) with k by lia. nia.
  - assert (Hdq : Z.pos (digits2_pos q) = 54)
      by (apply digits2_pos_unique; change (54 - 1) with 53;
          change (2 ^ 54) with (2 * 2 ^ 53); lia).
    rewrite Hdq.
    assert (Hf2 : fexp prec emax (54 + (e + k)) - (e + k) = 1).
    { unfold fexp, emin, prec, emax. unfold k. lia. }
    rewrite Hf2.
    destruct (shr_spec (shr_record_of_loc (Z.pos q) loc_Exact) (e + k) 1)
      as (mrs2 & Hshr2 & Hm3); [cbn; lia | lia |].
    rewrite Hshr2. cbn [shr_m shr_record_of_loc] in Hm3.
    rewrite Heq in Hm3.
    change (2 ^ 53 / 2 ^ 1) with (Z.pos 4503599627370496) in Hm3.
    rewrite Hm3.
    destruct (Z.leb_spec (e + k + 1) (emax - prec)) as [|Hov];
      [|left; split; [done|]; unfold emax, prec in Hov; lia].
    right. exists 4503599627370496%positive, (e + k + 1).
    split; [done|]. split; [lia|].
    replace (e + k + 1 - e) with (k + 1) by lia.
    rewrite Z.pow_add_r by lia. change (2 ^ 1) with 2.
    change (Z.pos 4503599627370496) with (2 ^ 52). nia.
Qed.

(** A mantissa of 53 bits. *)
Lemma digits_53 (m : positive) :
  2 ^ 52 <= Z.pos m < 2 ^ 53 → Z.pos (digits2_pos m) = 53.
Proof. intros H. apply digits2_pos_unique. by change (53 - 1) with 52. Qed.

(** The quotient of two positive normal numbers, away from the ends of the
    range: at most the exact quotient and one part in [2^52] more. *)
Lemma SFdiv_upper (m1 m2 : positive) (e1 e2 : Z) :
  2 ^ 52 <= Z.pos m1 < 2 ^ 53 → 2 ^ 52 <= Z.pos m2 < 2 ^ 53 →
  -200 <= e1 - e2 <= 200 →
  ∃ (mR : positive) (eR : Z),
    SFdiv prec emax (S754_finite false m1 e1) (S754_finite false m2 e2)
    = S754_finite false mR eR
    ∧ e1 - e2 - 53 <= eR
    ∧ 2 ^ 52 * (Z.pos mR * 2 ^ (eR - (e1 - e2 - 53))) * Z.pos m2
      <= (2 ^ 52 + 1) * (Z.pos m1 * 2 ^ 53).
Proof.
  intros H1 H2 He. unfold SFdiv, SFdiv_core_binary. cbn [Zdigits2 xorb].
  rewrite (digits_53 m1 H1), (digits_53 m2 H2).
  set (e' := e1 - e2 - 53).
  assert (He' : Z.min (fexp prec emax (53 + e1 - (53 + e2))) (e1 - e2) = e').
  { unfold fexp, emin, prec, emax, e'. lia. }
  rewrite He'.
  assert (Hs : e1 - e2 - e' = 53) by (unfold e'; lia).
  rewrite Hs. rewrite Z.shiftl_mul_pow2 by lia.
  set (P53 := 2 ^ 53) in *. set (P52 := 2 ^ 52) in *.
  assert (HP : P53 = 2 * P52) by reflexivity.
  assert (HP52 : 0 < P52) by reflexivity.
  pose proof (Z_div_mod (Z.pos m1 * P53) (Z.pos m2) ltac:(lia)) as Hdm.
  destruct (Z.div_eucl (Z.pos m1 * P53) (Z.pos m2)) as [q r].
  destruct Hdm as [Hq Hr].
  assert (Hqlo : P52 <= q) by nia.
  assert (Hqhi : q < 2 * P53) by nia.
  destruct q as [|qp|qp]; [lia| |lia].
  pose proof (digits2_pos_bound qp) as Hdhi.
  pose proof (digits2_pos_lower qp) as Hdlo.
  assert (Hd : 53 <= Z.pos (digits2_pos qp) <= 54).
  { split.
    - assert (52 < Z.pos (digits2_pos qp)); [|lia].
      apply pow2_lt_inv; [lia|]. fold P52. lia.
    - assert (Z.pos (digits2_pos qp) - 1 < 54); [|lia].
      apply pow2_lt_inv; [lia|]. change (2 ^ 54) with (2 * P53). lia. }
  destruct (binary_round_aux_upper false qp e' (new_location (Z.pos m2) r))
    as [[_ Hinf]|(mR & eR & HR & HeR & Hup)]; [lia|unfold e'; lia| |].
  { unfold e' in Hinf. lia. }
  exists mR, eR. split; [exact HR|]. split; [lia|].
  set (d := Z.pos (digits2_pos qp)) in *.
  set (A := Z.pos mR * 2 ^ (eR - e')) in *.
  set (u := 2 ^ (d - 53)) in *.
  assert (Hu : P52 * u <= Z.pos qp).
  { unfold u, P52. rewrite <- Z.pow_add_r by lia.
    by replace (52 + (d - 53)) with (d - 1) by lia. }
  assert (HA : P52 * A <= (P52 + 1) * Z.pos qp) by lia.
  assert (Hm2 : 0 < Z.pos m2) by lia.
  transitivity ((P52 + 1) * Z.pos qp * Z.pos m2); [nia|]. nia.
Qed.

(** The product of two positive normal numbers, away from the ends of the
    range: at most the exact product and one part in [2^52] more. *)
Lemma SFmul_upper (m1 m2 : positive) (e1 e2 : Z) :
  2 ^ 52 <= Z.pos m1 < 2 ^ 53 → 2 ^ 52 <= Z.pos m2 < 2 ^ 53 →
  -500 <= e1 + e2 <= 500 →
  ∃ (mF : positive) (eF : Z),
    SFmul prec emax (S754_finite false m1 e1) (S754_finite false m2 e2)
    = S754_finite false mF eF
    ∧ e1 + e2 <= eF
    ∧ 2 ^ 52 * (Z.pos mF * 2 ^ (eF - (e1 + e2)))
      <= (2 ^ 52 + 1) * (Z.pos m1 * Z.pos m2).
Proof.
  intros H1 H2 He. cbn [SFmul xorb].
  set (P53 := 2 ^ 53) in *. set (P52 := 2 ^ 52) in *.
  assert (HP : P53 = 2 * P52) by reflexivity.
  assert (HP52 : 0 < P52) by reflexivity.
  pose proof (digits2_pos_bound (m1 * m2)) as Hdhi.
  pose proof (digits2_pos_lower (m1 * m2)) as Hdlo.
  rewrite Pos2Z.inj_mul in Hdhi, Hdlo.
  assert (Hplo : P52 * P52 <= Z.pos m1 * Z.pos m2) by nia.
  assert (Hphi : Z.pos m1 * Z.pos m2 < P53 * P53) by nia.
  assert (Hd : 105 <= Z.pos (digits2_pos (m1 * m2)) <= 106).
  { split.
    - assert (104 < Z.pos (digits2_pos (m1 * m2))); [|lia].
      apply pow2_lt_inv; [lia|].
      change (2 ^ 104) with (P52 * P52). lia.
    - assert (Z.pos (digits2_pos (m1 * m2)) - 1 < 106); [|lia].
      apply pow2_lt_inv; [lia|]. change (2 ^ 106) with (P53 * P53). lia. }
  destruct (binary_round_aux_upper false (m1 * m2) (e1 + e2) loc_Exact)
    as [[_ Hinf]|(mF & eF & HF & HeF & Hup)]; [lia|lia| |].
  { lia. }
  exists mF, eF. split; [exact HF|]. split; [lia|].
  rewrite Pos2Z.inj_mul in Hup.
  set (d := Z.pos (digits2_pos (m1 * m2))) in *.
  set (B := Z.pos mF * 2 ^ (eF - (e1 + e2))) in *.
  set (u := 2 ^ (d - 53)) in *.
  assert (Hu : P52 * u <= Z.pos m1 * Z.pos m2).
  { unfold u, P52. rewrite <- Z.pow_add_r by lia.
    by replace (52 + (d - 53)) with (d - 1) by lia. }
  lia.
Qed.

End Quotients.

(** ** The scaled side of an image *)

Section ScaledSide.

Local Open Scope Z_scope.

Lemma normal_mantissa (x : number) s m e :
  Prim2SF x = S754_finite s m e → -1074 < e → 2 ^ 52 <= Z.pos m < 2 ^ 53.
Proof.
  intros Hx He. pose proof (Prim2SF_valid x) as Hv. rewrite Hx in Hv.
  destruct (valid_finite s m e Hv) as (_ & _ & Hd). specialize (Hd He).
  pose proof (digits2_pos_bound m) as Hhi.
  pose proof (digits2_pos_lower m) as Hlo.
  rewrite Hd in Hhi, Hlo. by change (53 - 1) with 52 in Hlo.
Qed.

(** The number of a positive integer below [2^53]. *)
Lemma ofSample_normal (z : Z) :
  1 <= z < 2 ^ 53 →
  ∃ (m : positive) (e : Z),
    Prim2SF (ofSample z) = S754_finite false m e
    ∧ -52 <= e <= 0 ∧ Z.pos m = z * 2 ^ (- e)
    ∧ 2 ^ 52 <= Z.pos m < 2 ^ 53.
Proof.
  intros Hz. destruct z as [|p|p]; try lia.
  destruct (Prim2SF_ofSample p ltac:(lia)) as (m & e & Hm & He & Hv).
  exists m, e. repeat split; try assumption; try lia;
    apply (normal_mantissa _ _ _ _ Hm); lia.
Qed.

Lemma Prim2SF_1200 :
  Prim2SF 1200 = S754_finite false 5277655813324800 (-42).
Proof. reflexivity. Qed.

(** The side [A * (1200 / B)] of the sizing is below the integer [L] when
    the exact value is below it by more than two parts in [2^52]. *)
Lemma scaled_side_below (A B L : Z) :
  1 <= A < 2 ^ 32 → 1200 < B < 2 ^ 32 → 1 <= L < 2 ^ 32 →
  1200 * ((2 ^ 52 + 1) * (2 ^ 52 + 1)) * A < L * 2 ^ 104 * B →
  (ofSample A * (1200 / ofSample B) <? ofSample L)%float = true.
Proof.
  intros HA HB HL Hlt.
  assert (H32 : 2 ^ 32 < 2 ^ 53) by reflexivity.
  destruct (ofSample_normal A ltac:(lia)) as (ma & ea & HmA & Hea & HvA & HnA).
  destruct (ofSample_normal B ltac:(lia)) as (mb & eb & HmB & Heb & HvB & HnB).
  destruct (ofSample_normal L ltac:(lia)) as (ml & el & HmL & Hel & HvL & HnL).
  pose proof (Prim2SF_valid (1200 / ofSample B)) as HvalR.
  pose proof (FloatAxioms.div_spec 1200 (ofSample B)) as HR.
  rewrite Prim2SF_1200, HmB in HR. unfold SF64div in HR.
  destruct (SFdiv_upper 5277655813324800 mb (-42) eb)
    as (mR & eR & HdivR & HeR & HupR); [done|assumption|lia|].
  rewrite HdivR in HR. rewrite HR in HvalR.
  pose proof (normal_mantissa _ _ _ _ HR ltac:(lia)) as HnR.
  set (P52 := 2 ^ 52) in *. set (P53 := 2 ^ 53) in *.
  assert (HP : P53 = 2 * P52) by reflexivity.
  assert (HP52 : 0 < P52) by reflexivity.
  set (g := eR - (-42 - eb - 53)) in *.
  assert (Hg0 : 0 <= g) by (unfold g; lia).
  assert (HPg : 0 < 2 ^ g) by (by apply Z.pow_pos_nonneg).
  set (Pg := 2 ^ g) in *.
  change (Z.pos 5277655813324800) with (1200 * 2 ^ 42) in HupR.
  (* the exponent of the quotient is near that of its unrounded value *)
  assert (Hg : g < 3).
  { apply pow2_lt_inv; [lia|]. fold Pg. change (2 ^ 3) with 8.
    assert (P52 * (P52 * Pg) * P52 <= (P52 + 1) * (1200 * 2 ^ 42 * P53)).
    { etransitivity; [|exact HupR].
      apply Z.mul_le_mono_nonneg; try nia. }
    change (1200 * 2 ^ 42) with 5277655813324800 in *.
    unfold P52, P53 in *.
    change (2 ^ 52) with 4503599627370496 in *.
    change (2 ^ 53) with 9007199254740992 in *. nia. }
  pose proof (Prim2SF_valid (ofSample A * (1200 / ofSample B))) as HvalF.
  pose proof (FloatAxioms.mul_spec (ofSample A) (1200 / ofSample B)) as HF.
  rewrite HmA, HR in HF. unfold SF64mul in HF.
  destruct (SFmul_upper ma mR ea eR)
    as (mF & eF & HmulF & HeF & HupF); [assumption|assumption|unfold g in *; lia|].
  rewrite HmulF in HF. rewrite HF in HvalF.
  rewrite FloatAxioms.ltb_spec, HF, HmL. unfold SFltb.
  pose proof (Prim2SF_valid (ofSample L)) as HvalL. rewrite HmL in HvalL.
  rewrite (SFcompare_lt mF ml eF el (-200) HvalF HvalL);
    [reflexivity|unfold g in *; lia|lia|].
  (* the comparison, in units of [2^-200] *)
  set (a := - ea) in *. set (c := - eb) in *.
  assert (Ha : 0 <= a <= 52) by (unfold a; lia).
  assert (Hc : 0 <= c <= 52) by (unfold c; lia).
  set (Bv := Z.pos mF * 2 ^ (eF - (ea + eR))) in *.
  assert (HBv : Z.pos mF * 2 ^ (eF - -200) = Bv * 2 ^ (105 - a) * Pg * 2 ^ c).
  { unfold Bv, Pg. rewrite <- !Z.mul_assoc, <- !Z.pow_add_r by (unfold g, a, c in *; lia).
    f_equal. f_equal. unfold g, a, c. lia. }
  assert (HLv : Z.pos ml * 2 ^ (el - -200) = L * 2 ^ 200).
  { rewrite HvL, <- Z.mul_assoc, <- Z.pow_add_r by lia. f_equal. f_equal. lia. }
  rewrite HBv, HLv.
  set (Pa := 2 ^ a) in *. set (Pc := 2 ^ c) in *.
  assert (HPa : 0 < Pa) by (apply Z.pow_pos_nonneg; lia).
  assert (HPc : 0 < Pc) by (apply Z.pow_pos_nonneg; lia).
  set (Qa := 2 ^ (105 - a)).
  assert (HQa : 0 < Qa) by (apply Z.pow_pos_nonneg; lia).
  assert (HPQ : Pa * Qa = 2 ^ 105).
  { unfold Pa, Qa. rewrite <- Z.pow_add_r by lia. f_equal. lia. }
  assert (HBv0 : 0 <= Bv).
  { unfold Bv. apply Z.mul_nonneg_nonneg; [lia|]. apply Z.pow_nonneg. lia. }
  (* the two roundings together *)
  assert (H1 : P52 * P52 * (Bv * Pg * Z.pos mb)
               <= (P52 + 1) * (P52 + 1) * (Z.pos ma * (1200 * 2 ^ 42 * P53))).
  { transitivity ((P52 + 1) * Z.pos ma * (P52 * (Z.pos mR * Pg) * Z.pos mb)).
    - replace (P52 * P52 * (Bv * Pg * Z.pos mb))
        with (P52 * Bv * (P52 * Pg * Z.pos mb)) by ring.
      replace ((P52 + 1) * Z.pos ma * (P52 * (Z.pos mR * Pg) * Z.pos mb))
        with ((P52 + 1) * (Z.pos ma * Z.pos mR) * (P52 * Pg * Z.pos mb))
        by ring.
      apply Z.mul_le_mono_nonneg_r; [|exact HupF].
      apply Z.mul_nonneg_nonneg; [|lia]. apply Z.mul_nonneg_nonneg; lia.
    - replace ((P52 + 1) * (P52 + 1) * (Z.pos ma * (1200 * 2 ^ 42 * P53)))
        with ((P52 + 1) * Z.pos ma * ((P52 + 1) * (1200 * 2 ^ 42 * P53)))
        by ring.
      apply Z.mul_le_mono_nonneg_l; [|exact HupR].
      apply Z.mul_nonneg_nonneg; lia. }
  rewrite HvA, HvB in H1. fold a c Pa Pc in H1.
  change (P52 * P52) with (2 ^ 104) in H1.
  change (1200 * 2 ^ 42 * P53) with (1200 * 2 ^ 95) in H1.
  set (K := (P52 + 1) * (P52 + 1)) in *.
  set (P104 := 2 ^ 104) in *. set (P95 := 2 ^ 95) in *.
  assert (HP104 : 0 < P104) by reflexivity.
  assert (HP95 : 0 < P95) by reflexivity.
  assert (H2 : P104 * B * (Bv * Pg * Pc) < P104 * B * (L * Pa * P95)).
  { apply Z.le_lt_trans with (K * (A * Pa * (1200 * P95))).
    - etransitivity; [|exact H1]. apply Z.eq_le_incl. ring.
    - replace (K * (A * Pa * (1200 * P95)))
        with (1200 * K * A * (Pa * P95)) by ring.
      replace (P104 * B * (L * Pa * P95))
        with (L * P104 * B * (Pa * P95)) by ring.
      apply Z.mul_lt_mono_pos_r; [|exact Hlt]. apply Z.mul_pos_pos; lia. }
  apply Z.mul_lt_mono_pos_l in H2; [|apply Z.mul_pos_pos; lia].
  replace (Bv * Qa * Pg * Pc) with (Bv * Pg * Pc * Qa) by ring.
  apply Z.lt_le_trans with (L * Pa * P95 * Qa).
  - by apply Z.mul_lt_mono_pos_r.
  - apply Z.eq_le_incl.
    replace (L * Pa * P95 * Qa) with (L * (Pa * Qa) * P95) by ring.
    rewrite HPQ. unfold P95. rewrite <- Z.mul_assoc, <- Z.pow_add_r by lia.
    reflexivity.
Qed.

End ScaledSide.

Section Integers.

Local Open Scope Z_scope.

Lemma ofSample_not_nan (a : Z) :
  1 <= a < 2 ^ 53 → is_nan (ofSample a) = false.
Proof.
  intros Ha. destruct (ofSample_normal a Ha) as (m & e & Hm & _).
  by rewrite is_nan_spec, Hm.
Qed.

Lemma ofSample_lt (a b : Z) :
  1 <= a → a < b → b < 2 ^ 53 → (ofSample a <? ofSample b)%float = true.
Proof.
  intros Ha Hab Hb.
  destruct (ofSample_normal a ltac:(lia)) as (ma & ea & Hma & Hea & Hva & _).
  destruct (ofSample_normal b ltac:(lia)) as (mb & eb & Hmb & Heb & Hvb & _).
  pose proof (Prim2SF_valid (ofSample a)) as Vala. rewrite Hma in Vala.
  pose proof (Prim2SF_valid (ofSample b)) as Valb. rewrite Hmb in Valb.
  rewrite FloatAxioms.ltb_spec, Hma, Hmb. unfold SFltb.
  rewrite (SFcompare_lt ma mb ea eb (-52) Vala Valb); [reflexivity|lia|lia|].
  rewrite Hva, Hvb, <- !Z.mul_assoc, <- !Z.pow_add_r by lia.
  replace (- ea + (ea - -52)) with 52 by lia.
  replace (- eb + (eb - -52)) with 52 by lia. lia.
Qed.

(** The order of the numbers of two positive integers is the order of the
    integers. *)
Lemma ofSample_ltb (a b : Z) :
  1 <= a < 2 ^ 53 → 1 <= b < 2 ^ 53 →
  (ofSample a <? ofSample b)%float = (a <? b).
Proof.
  intros Ha Hb. destruct (Z.ltb_spec a b) as [Hlt|Hge].
  - apply ofSample_lt; lia.
  - apply leb_ltb_false.
    destruct (Z.eq_dec a b) as [->|Hne].
    + by apply leb_refl, ofSample_not_nan.
    + apply ltb_leb, ofSample_lt; lia.
Qed.

End Integers.

(** ** Statements about the sizing of an uploaded image *)

Section AppSizing.

Local Open Scope Z_scope.

(** X19. For an image of [W] by [H] pixels (integers, as the sides of an
    image are), both sides that the sizing hands to the canvas are numbers
    below 1201, whatever the rounding of the quotient and of the product:
    their integer parts are at most 1200. *)
Theorem sized_sides_stay_below_1201 (W H : Z) :
  1 <= W < 2 ^ 32 → 1 <= H < 2 ^ 32 →
  ((fitDimensions (ofSample W) (ofSample H)).1 <? 1201)%float = true
  ∧ ((fitDimensions (ofSample W) (ofSample H)).2 <? 1201)%float = true.
Proof.
  intros HW HH.
  assert (H32 : 2 ^ 32 < 2 ^ 53) by reflexivity.
  assert (Hnum : 1200 * ((2 ^ 52 + 1) * (2 ^ 52 + 1)) < 1201 * 2 ^ 104)
    by reflexivity.
  assert (Hside : ∀ A B, 1 <= A < 2 ^ 32 → 1200 < B < 2 ^ 32 → A <= B →
            (ofSample A * (1200 / ofSample B) <? 1201)%float = true).
  { intros A B HA HB HAB.
    apply (scaled_side_below A B 1201);
      [assumption|assumption|split; [lia|reflexivity]|].
    apply Z.le_lt_trans with (1200 * ((2 ^ 52 + 1) * (2 ^ 52 + 1)) * B).
    - apply Z.mul_le_mono_nonneg_l; [done|lia].
    - apply Z.mul_lt_mono_pos_r; [lia|exact Hnum]. }
  assert (Hsmall : ∀ A, 1 <= A <= 1200 →
            (ofSample A <? 1201)%float = true).
  { intros A HA. change 1201%float with (ofSample 1201).
    rewrite ofSample_ltb by (split; [lia|]; first [lia|reflexivity]).
    apply Z.ltb_lt. lia. }
  unfold fitDimensions.
  rewrite (ofSample_ltb H W) by lia.
  change MAX_SIZE with (ofSample 1200).
  rewrite !(ofSample_ltb 1200) by (split; [lia|]; first [lia|reflexivity]).
  destruct (Z.ltb_spec H W) as [Hlt|Hge].
  - destruct (Z.ltb_spec 1200 W) as [Hbig|Hfit]; cbn [fst snd].
    + split; [reflexivity|]. apply Hside; lia.
    + split; apply Hsmall; lia.
  - destruct (Z.ltb_spec 1200 H) as [Hbig|Hfit]; cbn [fst snd].
    + split; [|reflexivity]. apply Hside; lia.
    + split; apply Hsmall; lia.
Qed.

Lemma sized_sides_stay_below_1201_witness :
  ((fitDimensions (ofSample 4000) (ofSample 3000)).1 <? 1201)%float = true
  ∧ ((fitDimensions (ofSample 4000) (ofSample 3000)).2 <? 1201)%float = true.
Proof.
  apply (sized_sides_stay_below_1201 4000 3000);
    (split; [lia|reflexivity]).
Defined.

(** X20. For an image at least 1201 times as long as it is wide, either
    way round, the shorter side that the sizing hands to the canvas is a
    number below 1. *)
Theorem extreme_aspect_side_below_one (W H : Z) :
  1 <= H → 1201 * H <= W → W < 2 ^ 32 →
  ((fitDimensions (ofSample W) (ofSample H)).2 <? 1)%float = true
  ∧ ((fitDimensions (ofSample H) (ofSample W)).1 <? 1)%float = true.
Proof.
  intros HH HW HW32.
  assert (H32 : 2 ^ 32 < 2 ^ 53) by reflexivity.
  assert (Hnum : 1200 * ((2 ^ 52 + 1) * (2 ^ 52 + 1)) < 1201 * 2 ^ 104)
    by reflexivity.
  assert (Hside : (ofSample H * (1200 / ofSample W) <? 1)%float = true).
  { change 1%float with (ofSample 1).
    apply (scaled_side_below H W 1); [lia|lia|split; [lia|reflexivity]|].
    apply Z.lt_le_trans with (1201 * 2 ^ 104 * H).
    - apply Z.mul_lt_mono_pos_r; [lia|exact Hnum].
    - replace (1201 * 2 ^ 104 * H) with (2 ^ 104 * (1201 * H)) by ring.
      replace (1 * 2 ^ 104 * W) with (2 ^ 104 * W) by ring.
      apply Z.mul_le_mono_nonneg_l; [done|exact HW]. }
  unfold fitDimensions.
  rewrite (ofSample_ltb H W), (ofSample_ltb W H) by lia.
  change MAX_SIZE with (ofSample 1200).
  rewrite !(ofSample_ltb 1200) by (split; [lia|]; first [lia|reflexivity]).
  destruct (Z.ltb_spec H W) as [_|Hge]; [|lia].
  destruct (Z.ltb_spec W H) as [Hlt|_]; [lia|].
  destruct (Z.ltb_spec 1200 W) as [_|Hfit]; [|lia].
  cbn [fst snd]. by split.
Qed.

Lemma extreme_aspect_side_below_one_witness :
  ((fitDimensions (ofSample 2402) (ofSample 2)).2 <? 1)%float = true
  ∧ ((fitDimensions (ofSample 2) (ofSample 2402)).1 <? 1)%float = true.
Proof.
  apply (extreme_aspect_side_below_one 2402 2); [lia | lia | reflexivity].
Defined.

(** The bound is not 1200: a square image can come out one part in
    [2^52] off, on either side of 1200. *)
Example square_image_sides :
  fitDimensions (ofSample 2191) (ofSample 2191)
  = (0x1.2bfffffffffffp+10, 1200)%float
  ∧ fitDimensions (ofSample 2129) (ofSample 2129)
    = (0x1.2c00000000001p+10, 1200)%float.
Proof. split; reflexivity. Qed.

End AppSizing.

(** * Repeated passes and the display helper *)

From Stdlib Require Import Qabs Lqa.

Import Saturation Dyadic.

(** ** Rounding, with the subnormal range included *)

Section Near.

Local Open Scope Z_scope.

Lemma shr_nonpos (mrs : shr_record) (e k : Z) :
  k <= 0 → shr mrs e k = (mrs, e).
Proof. intros Hk. destruct k as [|k|k]; [done|lia|done]. Qed.

(** Rounding a mantissa that is shifted right by [k] places, because it has
    more than 53 bits or reaches below the least exponent: the result is a
    zero, an infinity or within [2^k] of the mantissa. *)
Lemma binary_round_aux_near (s : bool) (p : positive) (e : Z)
    (l : location) :
  let k := Z.max (Z.pos (digits2_pos p) - 53) (-1074 - e) in
  0 <= k →
  (binary_round_aux prec emax s (Z.pos p) e l = S754_zero s
   ∧ Z.pos p < 2 ^ k)
  ∨ (binary_round_aux prec emax s (Z.pos p) e l = S754_infinity s
     ∧ 971 <= e + k)
  ∨ ∃ (m' : positive) (e' : Z),
      binary_round_aux prec emax s (Z.pos p) e l = S754_finite s m' e'
      ∧ e + k <= e'
      ∧ Z.pos p - 2 ^ k < Z.pos m' * 2 ^ (e' - e) <= Z.pos p + 2 ^ k.
Proof.
  intros k Hk.
  pose proof (digits2_pos_bound p) as Hhi.
  set (d := Z.pos (digits2_pos p)) in *.
  assert (HK : 0 < 2 ^ k) by (by apply Z.pow_pos_nonneg).
  assert (Hdk : 2 ^ d <= 2 ^ 53 * 2 ^ k).
  { rewrite <- Z.pow_add_r by lia. apply Z.pow_le_mono_r; lia. }
  unfold binary_round_aux, shr_fexp. cbn [Zdigits2]. fold d.
  assert (Hf : fexp prec emax (d + e) - e = k).
  { unfold fexp, emin, prec, emax, k. lia. }
  rewrite Hf.
  destruct (shr_spec (shr_record_of_loc (Z.pos p) l) e k)
    as (mrs1 & Hshr1 & Hm1); [rewrite shr_m_of_loc; lia | done |].
  rewrite Hshr1. rewrite shr_m_of_loc in Hm1.
  set (m1 := shr_m mrs1) in *.
  pose proof (Z.div_mod (Z.pos p) (2 ^ k) ltac:(lia)) as Hdm.
  pose proof (Z.mod_pos_bound (Z.pos p) (2 ^ k) HK) as Hmod.
  rewrite <- Hm1 in Hdm.
  assert (Hm1b : 0 <= m1 < 2 ^ 53) by nia.
  set (m2 := round_nearest_even m1 (loc_of_shr_record mrs1)).
  assert (Hm2 : m2 = m1 ∨ m2 = m1 + 1) by apply round_nearest_even_cases.
  assert (He1 : -1074 <= e + k) by (unfold k; lia).
  destruct m2 as [|q|q] eqn:Hq; [| |lia].
  - (* the mantissa is rounded to nothing *)
    left. cbn [Zdigits2].
    rewrite shr_nonpos by (unfold fexp, emin, prec, emax; lia).
    cbn. split; [reflexivity|]. nia.
  - right. cbn [Zdigits2].
    assert (Hcase : Z.pos q < 2 ^ 53 ∨ Z.pos q = 2 ^ 53) by lia.
    destruct Hcase as [Hlt|Heq].
    + assert (Hdq : Z.pos (digits2_pos q) <= 53).
      { pose proof (digits2_pos_lower q) as Hl.
        assert (Z.pos (digits2_pos q) - 1 < 53); [|lia].
        apply pow2_lt_inv; lia. }
      rewrite shr_nonpos by (unfold fexp, emin, prec, emax; lia).
      cbn [shr_record_of_loc shr_m].
      destruct (Z.leb_spec (e + k) (emax - prec)) as [|Hov];
        [|left; split; [done|]; unfold emax, prec in Hov; lia].
      right. exists q, (e + k). split; [done|]. split; [lia|].
      replace (e + k - e) with k by lia. nia.
    + assert (Hdq : Z.pos (digits2_pos q) = 54)
        by (apply digits2_pos_unique; change (54 - 1) with 53;
            change (2 ^ 54) with (2 * 2 ^ 53); lia).
      rewrite Hdq.
      assert (Hf2 : fexp prec emax (54 + (e + k)) - (e + k) = 1).
      { unfold fexp, emin, prec, emax. lia. }
      rewrite Hf2.
      destruct (shr_spec (shr_record_of_loc (Z.pos q) loc_Exact) (e + k) 1)
        as (mrs2 & Hshr2 & Hm3); [cbn; lia | lia |].
      rewrite Hshr2. cbn [shr_m shr_record_of_loc] in Hm3.
      rewrite Heq in Hm3.
      change (2 ^ 53 / 2 ^ 1) with (Z.pos 4503599627370496) in Hm3.
      rewrite Hm3.
      destruct (Z.leb_spec (e + k + 1) (emax - prec)) as [|Hov];
        [|left; split; [done|]; unfold emax, prec in Hov; lia].
      right. exists 4503599627370496%positive, (e + k + 1).
      split; [done|]. split; [lia|].
      replace (e + k + 1 - e) with (k + 1) by lia.
      rewrite Z.pow_add_r by lia. change (2 ^ 1) with 2.
      change (Z.pos 4503599627370496) with (2 ^ 52).
      change (2 ^ 53) with (2 * 2 ^ 52) in *. nia.
Qed.

End Near.

(** ** The product by ten and the quotient by ten *)

Section Tens.

Local Open Scope Z_scope.

Lemma Prim2SF_10 :
  Prim2SF 10 = S754_finite false 5629499534213120 (-49).
Proof. reflexivity. Qed.

Lemma scaled_finite (s : bool) (m : positive) (e : Z) :
  scaled (S754_finite s m e) = cond_Zopp s (Z.pos m * 2 ^ (e + 1200)).
Proof. reflexivity. Qed.

Lemma cond_Zopp_abs (s : bool) (a b : Z) :
  Z.abs (cond_Zopp s a - cond_Zopp s b) = Z.abs (a - b).
Proof. destruct s; cbn; lia. Qed.

Lemma cond_Zopp_mul (s : bool) (c a : Z) :
  c * cond_Zopp s a = cond_Zopp s (c * a).
Proof. destruct s; cbn; lia. Qed.

(** The product of a finite number of at most [2^20] by 10 is a zero or a
    finite number within [2^-28] of ten times the number. *)
Lemma mul10_near (s : bool) (m : positive) (e : Z) :
  valid_binary (S754_finite s m e) = true →
  Z.pos m * 2 ^ (e + 1200) <= 2 ^ 1220 →
  ∃ R : spec_float,
    SFmul prec emax (S754_finite s m e)
      (S754_finite false 5629499534213120 (-49)) = R
    ∧ (R = S754_zero s ∨ ∃ m' e', R = S754_finite s m' e')
    ∧ Z.abs (scaled R - 10 * scaled (S754_finite s m e)) <= 2 ^ 1172.
Proof.
  intros Hv Hle. eexists. split; [reflexivity|].
  cbn [SFmul]. rewrite xorb_false_r.
  destruct (valid_finite s m e Hv) as (He & _ & _).
  set (m10 := 5629499534213120%positive).
  set (e0 := e + -49).
  pose proof (digits2_pos_bound (m * m10)) as Hdhi.
  pose proof (digits2_pos_lower (m * m10)) as Hdlo.
  set (d := Z.pos (digits2_pos (m * m10))) in *.
  rewrite Pos2Z.inj_mul in Hdhi, Hdlo.
  assert (Hm10 : Z.pos m10 = 10 * 2 ^ 49) by reflexivity.
  assert (Hd : 53 <= d).
  { assert (52 < d); [|lia]. apply pow2_lt_inv; [lia|].
    assert (2 ^ 52 <= Z.pos m10)
      by (rewrite Hm10; change (2 ^ 52) with (8 * 2 ^ 49); lia).
    nia. }
  set (S0 := 2 ^ (e0 + 1200)).
  assert (HS0 : 0 < S0) by (apply Z.pow_pos_nonneg; unfold e0; lia).
  assert (HV : Z.pos m * Z.pos m10 * S0 = 10 * (Z.pos m * 2 ^ (e + 1200))).
  { unfold S0, e0. rewrite Hm10.
    replace (e + 1200) with (49 + (e + -49 + 1200)) by lia.
    rewrite (Z.pow_add_r 2 49 (e + -49 + 1200)) by lia. ring. }
  set (k := Z.max (d - 53) (-1074 - e0)).
  assert (Hk : 0 <= k) by (unfold k; lia).
  (* one unit of the last kept place, in units of [2^-1200] *)
  assert (Hulp : 2 ^ k * S0 <= 2 ^ 1172).
  { unfold k. destruct (Z.max_spec (d - 53) (-1074 - e0)) as [[Hmx ->]|[Hmx ->]].
    - unfold S0. rewrite <- Z.pow_add_r by (unfold e0 in *; lia).
      apply Z.pow_le_mono_r; lia.
    - assert (H52 : 2 ^ 52 * (2 ^ (d - 53) * S0) <= 10 * 2 ^ 1220).
      { replace (2 ^ 52 * (2 ^ (d - 53) * S0)) with (2 ^ (d - 1) * S0).
        - transitivity (Z.pos m * Z.pos m10 * S0); [|lia].
          apply Z.mul_le_mono_nonneg_r; lia.
        - rewrite Z.mul_assoc, <- Z.pow_add_r by lia.
          do 2 f_equal. lia. }
      change (2 ^ 1220) with (2 ^ 48 * 2 ^ 1172) in H52.
      change (2 ^ 52) with (16 * 2 ^ 48) in H52.
      assert (0 < 2 ^ 1172) by reflexivity.
      assert (0 < 2 ^ 48) by reflexivity. nia. }
  pose proof (binary_round_aux_near s (m * m10) e0 loc_Exact) as Hnear.
  cbv zeta in Hnear. fold d in Hnear. fold k in Hnear.
  specialize (Hnear Hk). rewrite !Pos2Z.inj_mul in Hnear.
  rewrite ?Pos2Z.inj_mul.
  destruct Hnear as [[HR Hz]|[[HR Hinf]|(m' & e' & HR & He' & Hlo & Hup)]].
  - rewrite HR. split; [by left|].
    rewrite scaled_finite, cond_Zopp_mul. cbn [scaled].
    replace (0 - cond_Zopp s (10 * (Z.pos m * 2 ^ (e + 1200))))
      with (cond_Zopp s 0 - cond_Zopp s (10 * (Z.pos m * 2 ^ (e + 1200))))
      by (by destruct s).
    rewrite cond_Zopp_abs, <- HV.
    assert (Z.pos m * Z.pos m10 * S0 <= 2 ^ k * S0); [|lia].
    apply Z.mul_le_mono_nonneg_r; lia.
  - exfalso. unfold k in Hinf.
    assert (Hbig : 1024 <= d + e0) by lia.
    assert (2 ^ 2223 <= 2 ^ (d - 1) * S0).
    { unfold S0. rewrite <- Z.pow_add_r by (unfold e0; lia).
      apply Z.pow_le_mono_r; lia. }
    assert (2 ^ (d - 1) * S0 <= Z.pos m * Z.pos m10 * S0)
      by (apply Z.mul_le_mono_nonneg_r; lia).
    assert (10 * 2 ^ 1220 < 2 ^ 2223) by reflexivity. lia.
  - rewrite HR. split; [right; by eauto|].
    rewrite !scaled_finite, cond_Zopp_mul, cond_Zopp_abs, <- HV.
    replace (Z.pos m' * 2 ^ (e' + 1200))
      with (Z.pos m' * 2 ^ (e' - e0) * S0).
    + rewrite <- Z.mul_sub_distr_r, Z.abs_mul, (Z.abs_eq S0) by lia.
      transitivity (2 ^ k * S0); [|exact Hulp].
      apply Z.mul_le_mono_nonneg_r; lia.
    + unfold S0. rewrite <- Z.mul_assoc, <- Z.pow_add_r by (unfold e0 in *; lia).
      do 2 f_equal. lia.
Qed.

(** The quotient by 10 of a finite number between [2^-48] and [2^24] in
    magnitude is a finite number, and ten times it is within [2^-27] of the
    number. *)
Lemma div10_near (s : bool) (m : positive) (e : Z) :
  2 ^ 52 <= Z.pos m < 2 ^ 53 → -100 <= e <= -28 →
  ∃ (mR : positive) (eR : Z),
    SFdiv prec emax (S754_finite s m e)
      (S754_finite false 5629499534213120 (-49)) = S754_finite s mR eR
    ∧ Z.abs (10 * scaled (S754_finite s mR eR) - scaled (S754_finite s m e))
      <= 2 ^ 1173.
Proof.
  intros Hm He. unfold SFdiv, SFdiv_core_binary. cbn [Zdigits2].
  rewrite xorb_false_r.
  set (m10 := 5629499534213120%positive).
  assert (Hm10 : Z.pos m10 = 10 * 2 ^ 49) by reflexivity.
  assert (H10 : 2 ^ 52 <= Z.pos m10 < 2 ^ 53).
  { rewrite Hm10. change (2 ^ 52) with (8 * 2 ^ 49).
    change (2 ^ 53) with (16 * 2 ^ 49). lia. }
  rewrite (digits_53 m Hm), (digits_53 m10 H10).
  set (e' := e - 4).
  assert (He' : Z.min (fexp prec emax (53 + e - (53 + -49))) (e - -49) = e').
  { unfold fexp, emin, prec, emax, e'. lia. }
  rewrite He'.
  assert (Hs : e - -49 - e' = 53) by (unfold e'; lia).
  rewrite Hs, Z.shiftl_mul_pow2 by lia.
  set (P53 := 2 ^ 53) in *. set (P52 := 2 ^ 52) in *.
  assert (HP : P53 = 2 * P52) by reflexivity.
  assert (HP52 : 0 < P52) by reflexivity.
  pose proof (Z_div_mod (Z.pos m * P53) (Z.pos m10) ltac:(lia)) as Hdm.
  destruct (Z.div_eucl (Z.pos m * P53) (Z.pos m10)) as [q r].
  destruct Hdm as [Hq Hr].
  assert (Hqlo : P52 <= q) by nia.
  assert (Hqhi : q < 2 * P53) by nia.
  destruct q as [|qp|qp]; [lia| |lia].
  pose proof (digits2_pos_bound qp) as Hdhi.
  pose proof (digits2_pos_lower qp) as Hdlo.
  assert (Hd : 53 <= Z.pos (digits2_pos qp) <= 54).
  { split.
    - assert (52 < Z.pos (digits2_pos qp)); [|lia].
      apply pow2_lt_inv; [lia|]. fold P52. lia.
    - assert (Z.pos (digits2_pos qp) - 1 < 54); [|lia].
      apply pow2_lt_inv; [lia|]. change (2 ^ 54) with (2 * P53). lia. }
  pose proof (binary_round_aux_near s qp e' (new_location (Z.pos m10) r))
    as Hnear.
  cbv zeta in Hnear.
  set (d := Z.pos (digits2_pos qp)) in *.
  assert (Hk : Z.max (d - 53) (-1074 - e') = d - 53) by (unfold e'; lia).
  rewrite Hk in Hnear. specialize (Hnear ltac:(lia)).
  assert (Hu : 1 <= 2 ^ (d - 53) <= 2).
  { assert (d - 53 = 0 ∨ d - 53 = 1) as [-> | ->] by lia; done. }
  destruct Hnear as [[_ Hz]|[[_ Hinf]|(mR & eR & HR & HeR & Hlo & Hup)]];
    [lia | unfold e' in Hinf; lia |].
  exists mR, eR. split; [exact HR|].
  rewrite !scaled_finite, cond_Zopp_mul, cond_Zopp_abs.
  set (A := Z.pos mR * 2 ^ (eR - e')) in *.
  set (S0 := 2 ^ (e' + 1200)).
  assert (HS0 : 0 < S0) by (apply Z.pow_pos_nonneg; unfold e'; lia).
  assert (HF : Z.pos mR * 2 ^ (eR + 1200) = A * S0).
  { unfold A, S0. rewrite <- Z.mul_assoc, <- Z.pow_add_r by (unfold e' in *; lia).
    do 2 f_equal. lia. }
  assert (HRv : 2 ^ 49 * (Z.pos m * 2 ^ (e + 1200)) = Z.pos m * P53 * S0).
  { unfold S0, P53, e'.
    replace (e + 1200) with (4 + (e - 4 + 1200)) by lia.
    rewrite (Z.pow_add_r 2 4 (e - 4 + 1200)) by lia.
    change (2 ^ 53) with (2 ^ 49 * 2 ^ 4). ring. }
  (* the distance, 2^49 times over *)
  assert (Hdist : Z.abs (A * Z.pos m10 - Z.pos m * P53) <= 3 * Z.pos m10) by nia.
  assert (H49 : 2 ^ 49 * Z.abs (10 * (Z.pos mR * 2 ^ (eR + 1200))
                               - Z.pos m * 2 ^ (e + 1200))
                <= 3 * Z.pos m10 * S0).
  { rewrite <- (Z.abs_eq (2 ^ 49)) at 1 by done.
    rewrite <- Z.abs_mul, Z.mul_sub_distr_l, HRv, HF.
    replace (2 ^ 49 * (10 * (A * S0))) with (A * Z.pos m10 * S0)
      by (rewrite Hm10; ring).
    rewrite <- Z.mul_sub_distr_r, Z.abs_mul, (Z.abs_eq S0) by lia.
    apply Z.mul_le_mono_nonneg_r; lia. }
  assert (HS0le : S0 <= 2 ^ 1168).
  { unfold S0. apply Z.pow_le_mono_r; unfold e'; lia. }
  rewrite Hm10 in H49.
  assert (H30 : 30 * 2 ^ 1168 <= 2 ^ 1173).
  { change (2 ^ 1173) with (32 * 2 ^ 1168).
    apply Z.mul_le_mono_nonneg_r; [by apply Z.pow_nonneg|done]. }
  set (X := Z.abs (10 * (Z.pos mR * 2 ^ (eR + 1200))
                   - Z.pos m * 2 ^ (e + 1200))) in *.
  replace (3 * (10 * 2 ^ 49) * S0) with (2 ^ 49 * (30 * S0)) in H49 by ring.
  apply Z.mul_le_mono_pos_l in H49; [|done].
  lia.
Qed.

End Tens.

(** ** Values as rationals and as integers of units *)

Section Units.

(** A zero or a finite number. *)
Lemma exactQ_shape (x : number) (q : Q) :
  exactQ x = Some q →
  (∃ s, Prim2SF x = S754_zero s) ∨ ∃ s m e, Prim2SF x = S754_finite s m e.
Proof.
  unfold exactQ. destruct (Prim2SF x) as [s| | |s m e]; try done; eauto.
Qed.

Lemma shape_exactQ (x : number) :
  (∃ s, Prim2SF x = S754_zero s) ∨ (∃ s m e, Prim2SF x = S754_finite s m e) →
  ∃ q, exactQ x = Some q.
Proof.
  unfold exactQ. intros [[s ->]|(s & m & e & ->)]; [by eauto|].
  destruct (ratio m e). by eauto.
Qed.

(** The value of a number, in units of [2^-1200]. *)
Lemma exactQ_scaled (x : number) (q : Q) :
  exactQ x = Some q →
  (q * inject_Z (2 ^ 1200) == inject_Z (scaled (Prim2SF x)))%Q.
Proof.
  unfold exactQ. pose proof (Prim2SF_valid x) as Hv.
  destruct (Prim2SF x) as [s| | |s m e]; try done.
  - intros [= <-]. reflexivity.
  - destruct (valid_finite s m e Hv) as (He & _).
    unfold ratio.
    assert (Hmul : ∀ a : Z, (if s then - a else a)%Z = cond_Zopp s a)
      by (by destruct s).
    destruct (Z.leb_spec 0 e) as [H0|H0]; intros [= <-];
      unfold Qeq, Qmult, inject_Z, scaled; cbn [Qnum Qden].
    + change (Z.pos (Z.to_pos 1 * 1)) with 1%Z.
      rewrite !Z.mul_1_r, Hmul.
      replace (e + 1200)%Z with (e + 1200)%Z by done.
      rewrite Z.pow_add_r by lia. destruct s; cbn [cond_Zopp]; ring.
    + assert (Hden : (0 < 2 ^ (- e))%Z) by (apply Z.pow_pos_nonneg; lia).
      rewrite Pos.mul_1_r, Z2Pos.id, Z.mul_1_r, Hmul by done.
      assert (Hsplit : (2 ^ 1200 = 2 ^ (e + 1200) * 2 ^ (- e))%Z).
      { rewrite <- Z.pow_add_r by lia. f_equal. lia. }
      rewrite Hsplit. destruct s; cbn [cond_Zopp]; ring.
Qed.

End Units.

(** ** The display helper, step by step *)

Section DisplaySteps.

Local Open Scope Z_scope.

Lemma abs_cond_Zopp (s : bool) (a : Z) : Z.abs (cond_Zopp s a) = Z.abs a.
Proof. destruct s; cbn; lia. Qed.

Lemma mul10_scaled (val : number) :
  (∃ s, Prim2SF val = S754_zero s)
  ∨ (∃ s m e, Prim2SF val = S754_finite s m e) →
  Z.abs (scaled (Prim2SF val)) <= 2 ^ 1220 →
  ((∃ s, Prim2SF (val * 10) = S754_zero s)
   ∨ ∃ s m e, Prim2SF (val * 10) = S754_finite s m e)
  ∧ Z.abs (scaled (Prim2SF (val * 10)) - 10 * scaled (Prim2SF val))
    <= 2 ^ 1172.
Proof.
  intros Hshape Hle. rewrite FloatAxioms.mul_spec, Prim2SF_10.
  unfold SF64mul. pose proof (Prim2SF_valid val) as Hv.
  destruct Hshape as [[s Hs]|(s & m & e & Hs)]; rewrite Hs in *.
  - cbn. split; [left; by eauto|done].
  - destruct (mul10_near s m e Hv) as (R & HR & HshapeR & Hb).
    { rewrite scaled_finite, abs_cond_Zopp in Hle.
      rewrite Z.abs_eq in Hle; [exact Hle|].
      apply Z.mul_nonneg_nonneg; [lia|]. by apply Z.pow_nonneg. }
    rewrite HR. split; [|exact Hb].
    destruct HshapeR as [->|(m' & e' & ->)]; by eauto 6.
Qed.

Lemma div10_scaled (r : number) (n : Z) :
  (∃ s, Prim2SF r = S754_zero s)
  ∨ (∃ s m e, Prim2SF r = S754_finite s m e) →
  scaled (Prim2SF r) = n * 2 ^ 1200 → Z.abs n <= 2 ^ 24 →
  ((∃ s, Prim2SF (r / 10) = S754_zero s)
   ∨ ∃ s m e, Prim2SF (r / 10) = S754_finite s m e)
  ∧ Z.abs (10 * scaled (Prim2SF (r / 10)) - scaled (Prim2SF r))
    <= 2 ^ 1173.
Proof.
  intros Hshape Hn Hle. rewrite FloatAxioms.div_spec, Prim2SF_10.
  unfold SF64div.
  destruct Hshape as [[s Hs]|(s & m & e & Hs)].
  - rewrite Hs. cbn. split; [left; by eauto|done].
  - pose proof (Prim2SF_valid r) as Hv. rewrite Hs in Hv, Hn.
    destruct (valid_finite s m e Hv) as (He & _).
    pose proof (mantissa_bound r s m e Hs) as Hm53.
    rewrite scaled_finite in Hn.
    set (S0 := 2 ^ (e + 1200)) in *.
    assert (HS0 : 0 < S0) by (apply Z.pow_pos_nonneg; lia).
    assert (HP : 0 < 2 ^ 1200) by reflexivity.
    assert (Hmag : Z.pos m * S0 = Z.abs n * 2 ^ 1200).
    { apply (f_equal Z.abs) in Hn. rewrite abs_cond_Zopp in Hn.
      rewrite (Z.abs_mul n), (Z.abs_eq (2 ^ 1200)) in Hn by lia.
      rewrite <- Hn. symmetry. apply Z.abs_eq. nia. }
    assert (Hn1 : 1 <= Z.abs n) by nia.
    (* the exponent, from the size of the integer *)
    assert (Hlo : -53 < e).
    { assert (1200 < e + 1253); [|lia].
      apply pow2_lt_inv; [lia|].
      replace (e + 1253) with (53 + (e + 1200)) by lia.
      rewrite Z.pow_add_r by lia. fold S0. nia. }
    pose proof (normal_mantissa r s m e Hs ltac:(lia)) as Hnorm.
    assert (Hhi : e < -27).
    { assert (e + 1252 < 1225); [|lia].
      apply pow2_lt_inv; [lia|].
      replace (e + 1252) with (52 + (e + 1200)) by lia.
      rewrite Z.pow_add_r by lia. fold S0.
      change (2 ^ 1225) with (2 * (2 ^ 24 * 2 ^ 1200)).
      assert (Z.abs n * 2 ^ 1200 <= 2 ^ 24 * 2 ^ 1200)
        by (apply Z.mul_le_mono_nonneg_r; lia).
      assert (0 < 2 ^ 24 * 2 ^ 1200) by reflexivity.
      nia. }
    rewrite Hs.
    destruct (div10_near s m e Hnorm ltac:(lia)) as (mR & eR & HR & Hb).
    rewrite HR. split; [right; by eauto|exact Hb].
Qed.

End DisplaySteps.

Section Display.

Local Open Scope Q_scope.

Lemma units_1220 : inject_Z (2 ^ 1220) == 1048576 * inject_Z (2 ^ 1200).
Proof. unfold Qeq. vm_compute. reflexivity. Qed.

Lemma units_1172 :
  inject_Z (2 ^ 1172) == (1 # 268435456) * inject_Z (2 ^ 1200).
Proof. unfold Qeq. vm_compute. reflexivity. Qed.

Lemma units_1173 :
  inject_Z (2 ^ 1173) == (1 # 134217728) * inject_Z (2 ^ 1200).
Proof. unfold Qeq. vm_compute. reflexivity. Qed.

Lemma units_pos : 0 < inject_Z (2 ^ 1200).
Proof. reflexivity. Qed.

Lemma abs_le_Q (a b : Z) :
  (Z.abs a <= b)%Z → - inject_Z b <= inject_Z a <= inject_Z b.
Proof.
  intros H. rewrite <- inject_Z_opp, <- !Zle_Qle. lia.
Qed.

(** The display helper on a number of at most [2^20] in magnitude: the
    product by 10 is within [2^-28] of ten times the number, the integer that
    [Math.round] gives is the nearest to the product, the upper one of two
    equally near, and the quotient by 10 is within [1/20 + 2^-28] of the
    number. *)
Lemma formatValue_near (val : number) (v : Q) :
  exactQ val = Some v → - 1048576 <= v <= 1048576 →
  ∃ (n : Z) (q q' f : Q),
    exactQ (val * 10) = Some q
    ∧ 10 * v - (1 # 268435456) <= q <= 10 * v + (1 # 268435456)
    ∧ halfUp q n
    ∧ exactQ (mathRound (val * 10)) = Some q' ∧ q' == inject_Z n
    ∧ exactQ (formatValue val) = Some f
    ∧ v - ((1 # 20) + (1 # 268435456)) <= f
      <= v + ((1 # 20) + (1 # 268435456)).
Proof.
  intros Hv [Hlo Hhi].
  pose proof units_pos as HB. pose proof units_1220 as H1220.
  pose proof units_1172 as H1172. pose proof units_1173 as H1173.
  pose proof (exactQ_scaled val v Hv) as HvB.
  set (B := inject_Z (2 ^ 1200)) in *.
  set (V := scaled (Prim2SF val)) in *.
  (* the product *)
  assert (HV : (Z.abs V <= 2 ^ 1220)%Z).
  { assert (Hq : - inject_Z (2 ^ 1220) <= inject_Z V <= inject_Z (2 ^ 1220)).
    { assert (v * B <= 1048576 * B) by (apply Qmult_le_compat_r; lra).
      assert (- (1048576) * B <= v * B) by (apply Qmult_le_compat_r; lra).
      lra. }
    rewrite <- inject_Z_opp, <- !Zle_Qle in Hq. lia. }
  destruct (mul10_scaled val (exactQ_shape val v Hv) HV) as [HshapeP HP].
  destruct (shape_exactQ _ HshapeP) as [q Hq].
  pose proof (exactQ_scaled _ q Hq) as HqB. fold B in HqB.
  set (Qs := scaled (Prim2SF (val * 10))) in *.
  apply abs_le_Q in HP.
  unfold Z.sub in HP.
  rewrite inject_Z_plus, inject_Z_opp, inject_Z_mult in HP. fold V in HP.
  change (inject_Z 10) with 10 in HP.
  assert (Hqv : 10 * v - (1 # 268435456) <= q <= 10 * v + (1 # 268435456)).
  { split; apply (Qmult_le_r _ _ B HB); lra. }
  (* the integer *)
  destruct (mathRound_halfUp (val * 10) q Hq) as (n & q' & Hq' & Hqn & Hhalf).
  pose proof (exactQ_scaled _ q' Hq') as Hq'B. fold B in Hq'B.
  set (r := mathRound (val * 10)) in *.
  assert (HR : scaled (Prim2SF r) = (n * 2 ^ 1200)%Z).
  { apply inject_Z_injective. rewrite inject_Z_mult. fold B.
    rewrite <- Hq'B, Hqn. reflexivity. }
  assert (Hn : (Z.abs n <= 2 ^ 24)%Z).
  { destruct Hhalf as [Hh1 Hh2].
    assert (Hnq : - inject_Z 10485761 <= inject_Z n <= inject_Z 10485761).
    { change (inject_Z 10485761) with 10485761. lra. }
    rewrite <- inject_Z_opp, <- !Zle_Qle in Hnq.
    change (2 ^ 24)%Z with 16777216%Z. lia. }
  (* the quotient *)
  destruct (div10_scaled r n (exactQ_shape r q' Hq') HR Hn) as [HshapeF HF].
  change (r / 10)%float with (formatValue val) in HshapeF, HF.
  destruct (shape_exactQ _ HshapeF) as [f Hf].
  pose proof (exactQ_scaled _ f Hf) as HfB. fold B in HfB.
  apply abs_le_Q in HF.
  unfold Z.sub in HF.
  rewrite inject_Z_plus, inject_Z_opp, inject_Z_mult in HF.
  change (inject_Z 10) with 10 in HF.
  exists n, q, q', f. repeat (split; [assumption|]).
  destruct Hhalf as [Hh1 Hh2].
  assert (Hh1' : (q - (1 # 2)) * B <= inject_Z n * B)
    by (apply Qmult_le_compat_r; lra).
  assert (Hh2' : inject_Z n * B <= (q + (1 # 2)) * B)
    by (apply Qmult_le_compat_r; lra).
  rewrite Hqn in Hq'B.
  split; apply (Qmult_le_r _ _ B HB); lra.
Qed.

End Display.

(** ** Statements about repeated passes and about the display helper *)

Section Composition.



End Composition.

Section DisplayHelper.

Local Open Scope float_scope.

(** C9 as stated fails: the result is not always the number nearest to
    the multiple of 0.1 nearest to the value.  The integer 2007771134134385,
    itself a multiple of 0.1 and a double, comes back a quarter lower,
    because the product by 10 is rounded to a double before [Math.round] sees
    it; for the same reason the double 0.35, which lies nearer 0.3 than 0.4,
    comes back as 0.4; and 1e308 comes back as infinity, the product having
    overflowed. *)
Lemma formatValue_is_not_nearest_tenth :
  ¬ (∀ (val : number) (v : Q),
        exactQ val = Some v →
        ∃ (n : Z) (f : Q),
          nearestInt (10 * v) n
          ∧ exactQ (formatValue val) = Some f
          ∧ ∀ (x : number) (y : Q),
              exactQ x = Some y →
              (Qabs (f - inject_Z n / 10) <= Qabs (y - inject_Z n / 10))%Q)
  ∧ (∃ v f : Q,
        exactQ 2007771134134385 = Some v
        ∧ (v == inject_Z 2007771134134385)%Q
        ∧ exactQ (formatValue 2007771134134385) = Some f
        ∧ (f == v - (1 # 4))%Q)
  ∧ (∃ v : Q,
        exactQ 0.35 = Some v
        ∧ (v - (3 # 10) < (4 # 10) - v)%Q
        ∧ formatValue 0.35 = 0.4)
  ∧ formatValue 1e308 = infinity.
Proof.
  split; [|split; [|split]].
  - intros H.
    destruct (H 2007771134134385 (8031084536537540 # 4))
      as (n & f & [Hn1 Hn2] & Hf & Hnear); [vm_compute; reflexivity|].
    assert (Hn : n = 20077711341343850%Z).
    { unfold Qle in Hn1, Hn2. cbn in Hn1, Hn2. lia. }
    subst n. vm_compute in Hf. injection Hf as <-.
    specialize (Hnear 2007771134134385 (8031084536537540 # 4)
                  ltac:(vm_compute; reflexivity)).
    vm_compute in Hnear. by apply Hnear.
  - eexists _, _. split; [vm_compute; reflexivity|].
    split; [reflexivity|]. split; [vm_compute; reflexivity|]. reflexivity.
  - eexists. split; [vm_compute; reflexivity|].
    split; [reflexivity|]. vm_compute. reflexivity.
  - vm_compute. reflexivity.
Qed.

(** C9, amended: for a value of at most [2^20] in magnitude the display
    helper returns the quotient by 10 of the integer nearest to the double
    product of the value by 10, the upper one of two equally near; that
    product is within [2^-28] of ten times the value and the result is
    within [1/20 + 2^-28] of the value.  Whatever the value, if the product
    is finite the result is that quotient.  format(12.34) is 12.3 and
    format(-0.05) is the zero (with a minus sign) that rounding a half
    upwards gives, not -0.1. *)
Theorem formatValue_rounds_to_tenths :
  (∀ (val : number) (v : Q),
      exactQ val = Some v → (- 1048576 <= v <= 1048576)%Q →
      ∃ (n : Z) (r : number) (q q' f : Q),
        formatValue val = r / 10
        ∧ exactQ r = Some q' ∧ (q' == inject_Z n)%Q
        ∧ exactQ (val * 10) = Some q
        ∧ (10 * v - (1 # 268435456) <= q <= 10 * v + (1 # 268435456))%Q
        ∧ halfUp q n
        ∧ exactQ (formatValue val) = Some f
        ∧ (v - ((1 # 20) + (1 # 268435456)) <= f
           <= v + ((1 # 20) + (1 # 268435456)))%Q)
  ∧ (∀ (val : number) (q : Q),
        exactQ (val * 10) = Some q →
        ∃ (n : Z) (r : number) (q' : Q),
          formatValue val = r / 10
          ∧ exactQ r = Some q' ∧ (q' == inject_Z n)%Q
          ∧ halfUp q n)
  ∧ formatValue 12.34 = 12.3
  ∧ formatValue (-0.05) = neg_zero
  ∧ (formatValue (-0.05) =? 0) = true
  ∧ formatValue 0.25 = 0.3
  ∧ formatValue (-0.25) = -0.2.
Proof.
  split; [|split; [|vm_compute; repeat split]].
  - intros val v Hv Hrange.
    destruct (formatValue_near val v Hv Hrange)
      as (n & q & q' & f & Hq & Hqv & Hhalf & Hq' & Hqn & Hf & Hfv).
    exists n, (mathRound (val * 10)), q, q', f. done.
  - intros val q Hq.
    destruct (mathRound_halfUp (val * 10) q Hq)
      as (n & q' & Hq' & Heq & Hhalf).
    exists n, (mathRound (val * 10)), q'. done.
Qed.

Lemma formatValue_rounds_to_tenths_witness :
  ∃ (n : Z) (r : number) (q q' f : Q),
    formatValue 12.34 = r / 10
    ∧ exactQ r = Some q' ∧ (q' == inject_Z n)%Q
    ∧ exactQ (12.34 * 10) = Some q
    ∧ (10 * (6946802425218990 # 562949953421312) - (1 # 268435456) <= q
       <= 10 * (6946802425218990 # 562949953421312) + (1 # 268435456))%Q
    ∧ halfUp q n
    ∧ exactQ (formatValue 12.34) = Some f
    ∧ ((6946802425218990 # 562949953421312) - ((1 # 20) + (1 # 268435456))
       <= f
       <= (6946802425218990 # 562949953421312)
          + ((1 # 20) + (1 # 268435456)))%Q.
Proof.
  apply (proj1 formatValue_rounds_to_tenths 12.34).
  - vm_compute. reflexivity.
  - split; vm_compute; discriminate.
Defined.

End DisplayHelper.
